(** * mdigger/filestore: a content-addressed blob store on a local file system

    The development embeds the two Go sources of the repository
    ([store.go], package [filestore], and the sibling package [httpfs])
    over an explicit model of the operating system's file tree, and proves
    the properties of the store's specification against that embedding. *)

From Stdlib Require Import ZArith NArith Lia List Ascii String.
From Stdlib.Strings Require Import Byte.
From stdpp Require Import base option list gmap strings sorting.

(** * Go strings and the [strings] package *)

Module GoStrings.

(** [s[i:j]] and [s[i:]] on a Go string (a sequence of bytes).  The source
    only slices behind a length check, so the out-of-range panic of Go is
    never reached; here a slice past the end is cut short. *)
Definition slice (s : string) (i j : nat) : string :=
  string_of_list_ascii (take (j - i) (drop i (list_ascii_of_string s))).

Definition slice_from (s : string) (i : nat) : string :=
  string_of_list_ascii (drop i (list_ascii_of_string s)).

Definition is_sep (c : ascii) : bool := Ascii.eqb c "/".

(** [strings.Split(s, "/")] *)
Fixpoint Split (s : string) : list string :=
  match s with
  | EmptyString => [""]
  | String c s' =>
      if is_sep c then "" :: Split s'
      else match Split s' with
           | h :: t => String c h :: t
           | [] => [String c ""]
           end
  end.

(** [strings.Join(l, "/")] *)
Fixpoint JoinSep (l : list string) : string :=
  match l with
  | [] => ""
  | [x] => x
  | x :: l' => x +:+ "/" +:+ JoinSep l'
  end.

(** [strings.Cut(s, "/")]: the text before and after the first separator. *)
Fixpoint cut (s : string) : option (string * string) :=
  match s with
  | EmptyString => None
  | String c s' =>
      if is_sep c then Some ("", s')
      else match cut s' with
           | Some (a, b) => Some (String c a, b)
           | None => None
           end
  end.

(** [strings.SplitN(s, "/", n)] for [n >= 0]: at most [n] pieces, the last
    one holding the unsplit remainder. *)
Fixpoint SplitN (s : string) (n : nat) : list string :=
  match n with
  | 0 => []
  | 1 => [s]
  | S n' => match cut s with
            | Some (a, b) => a :: SplitN b n'
            | None => [s]
            end
  end.

(** [strings.HasPrefix(s, prefix)] *)
Fixpoint HasPrefix (s prefix : string) : bool :=
  match prefix, s with
  | EmptyString, _ => true
  | String p prefix', String c s' => Ascii.eqb c p && HasPrefix s' prefix'
  | String _ _, EmptyString => false
  end.

(** [strings.TrimPrefix(s, prefix)] *)
Definition TrimPrefix (s prefix : string) : string :=
  if HasPrefix s prefix then slice_from s (String.length prefix) else s.

(** A segment without a separator in it. *)
Fixpoint no_sep (s : string) : bool :=
  match s with
  | EmptyString => true
  | String c s' => negb (is_sep c) && no_sep s'
  end.

End GoStrings.

(** * The [path/filepath] package on a Unix target *)

Module Filepath.
Import GoStrings.

Definition is_rooted (s : string) : bool :=
  match s with
  | String c _ => is_sep c
  | EmptyString => false
  end.

(** The state of [Clean]'s scan: the kept names, innermost first, and the
    number of leading [..] elements of a relative path. *)
Definition clean_step (rooted : bool) (st : list string * nat) (seg : string)
  : list string * nat :=
  if decide (seg = "" ∨ seg = ".") then st
  else if decide (seg = "..") then
    match st.1 with
    | _ :: up => (up, st.2)
    | [] => if rooted then st else ([], S st.2)
    end
  else (seg :: st.1, st.2).

Definition canon_from (rooted : bool) (segs : list string)
  (st : list string * nat) : list string * nat :=
  fold_left (clean_step rooted) segs st.

Definition canon (s : string) : list string * nat :=
  canon_from (is_rooted s) (Split s) ([], 0).

Definition render (rooted : bool) (st : list string * nat) : string :=
  let segs := replicate st.2 ".." ++ rev st.1 in
  if rooted then "/" +:+ JoinSep segs
  else if decide (segs = []) then "." else JoinSep segs.

(** [filepath.Clean]: the shortest path naming the same place, by the
    documented rules (empty and [.] elements dropped, an inner [..] cancelled
    against the name before it, [..] at the root dropped, the empty path
    turned into [.]). *)
Definition Clean (s : string) : string := render (is_rooted s) (canon s).

(** [filepath.Join]: the elements from the first non-empty one on, joined by
    the separator and cleaned; the empty string when all are empty. *)
Fixpoint Join (elem : list string) : string :=
  match elem with
  | [] => ""
  | e :: rest => if decide (e = "") then Join rest else Clean (JoinSep elem)
  end.

(** [path[:i+1]] for the last separator index [i], on the split form. *)
Fixpoint before_last (segs : list string) : string :=
  match segs with
  | [] => ""
  | [_] => ""
  | x :: rest => x +:+ "/" +:+ before_last rest
  end.

(** [filepath.Dir] *)
Definition Dir (path : string) : string := Clean (before_last (Split path)).

(** A path element that names an entry: not empty, not [.] or [..], and
    without a separator. *)
Definition simple (seg : string) : bool :=
  negb (bool_decide (seg = "" ∨ seg = "." ∨ seg = "..")) && no_sep seg.

(** [filepath.FromSlash]: the separator is already the slash. *)
Definition FromSlash (s : string) : string := s.

End Filepath.

(** * Fingerprints: [hash/crc32], [crypto/md5], [encoding/base64], [encoding/hex] *)

Module Hash.

Definition w32 (x : N) : N := (x mod 2 ^ 32)%N.

(** One bit of the reflected CRC-32 division by the IEEE polynomial. *)
Definition crc_bit (c : N) : N :=
  if N.testbit c 0 then N.lxor (N.shiftr c 1) 0xedb88320 else N.shiftr c 1.

Definition crc_byte (c : N) (b : byte) : N :=
  Nat.iter 8 crc_bit (N.lxor c (Byte.to_N b)).

(** [crc32.NewIEEE()] fed with [data], read by [Sum32]. *)
Definition crc32_sum32 (data : list byte) : N :=
  N.lxor (fold_left crc_byte data 0xffffffff%N) 0xffffffff.

Definition byte_of_N (n : N) : byte :=
  match Byte.of_N (n mod 256) with
  | Some b => b
  | None => Byte.x00
  end.

(** The four bytes of a 32-bit word, most significant first ([crc32]'s
    [Sum]) and least significant first ([md5]'s words). *)
Definition be32 (x : N) : list byte :=
  [byte_of_N (N.shiftr x 24); byte_of_N (N.shiftr x 16);
   byte_of_N (N.shiftr x 8); byte_of_N x].

Definition le32 (x : N) : list byte := rev (be32 x).

Definition crc32_sum (data : list byte) : list byte := be32 (crc32_sum32 data).

Definition md5_K : list N :=
  [ 0xd76aa478; 0xe8c7b756; 0x242070db; 0xc1bdceee; 0xf57c0faf; 0x4787c62a; 0xa8304613; 0xfd469501;
    0x698098d8; 0x8b44f7af; 0xffff5bb1; 0x895cd7be; 0x6b901122; 0xfd987193; 0xa679438e; 0x49b40821;
    0xf61e2562; 0xc040b340; 0x265e5a51; 0xe9b6c7aa; 0xd62f105d; 0x02441453; 0xd8a1e681; 0xe7d3fbc8;
    0x21e1cde6; 0xc33707d6; 0xf4d50d87; 0x455a14ed; 0xa9e3e905; 0xfcefa3f8; 0x676f02d9; 0x8d2a4c8a;
    0xfffa3942; 0x8771f681; 0x6d9d6122; 0xfde5380c; 0xa4beea44; 0x4bdecfa9; 0xf6bb4b60; 0xbebfbc70;
    0x289b7ec6; 0xeaa127fa; 0xd4ef3085; 0x04881d05; 0xd9d4d039; 0xe6db99e5; 0x1fa27cf8; 0xc4ac5665;
    0xf4292244; 0x432aff97; 0xab9423a7; 0xfc93a039; 0x655b59c3; 0x8f0ccc92; 0xffeff47d; 0x85845dd1;
    0x6fa87e4f; 0xfe2ce6e0; 0xa3014314; 0x4e0811a1; 0xf7537e82; 0xbd3af235; 0x2ad7d2bb; 0xeb86d391 ]%N.

Definition md5_S : list N :=
  [ 7; 12; 17; 22; 7; 12; 17; 22; 7; 12; 17; 22; 7; 12; 17; 22;
    5; 9; 14; 20; 5; 9; 14; 20; 5; 9; 14; 20; 5; 9; 14; 20;
    4; 11; 16; 23; 4; 11; 16; 23; 4; 11; 16; 23; 4; 11; 16; 23;
    6; 10; 15; 21; 6; 10; 15; 21; 6; 10; 15; 21; 6; 10; 15; 21 ]%N.

Definition not32 (x : N) : N := N.lxor (w32 x) 0xffffffff.

Definition rotl32 (x s : N) : N :=
  w32 (N.lor (N.shiftl (w32 x) s) (N.shiftr (w32 x) (32 - s))).

Definition md5_step (M : list N) (st : N * N * N * N) (i : nat) : N * N * N * N :=
  let '(a, b, c, d) := st in
  let '(f, g) :=
    if Nat.ltb i 16 then (N.lor (N.land b c) (N.land (not32 b) d), i)
    else if Nat.ltb i 32 then
      (N.lor (N.land d b) (N.land (not32 d) c), (5 * i + 1) mod 16)
    else if Nat.ltb i 48 then (N.lxor (N.lxor b c) d, (3 * i + 5) mod 16)
    else (N.lxor c (N.lor b (not32 d)), (7 * i) mod 16) in
  let f' := w32 (f + a + nth i md5_K 0 + nth g M 0)%N in
  (d, w32 (b + rotl32 f' (nth i md5_S 0))%N, b, c).

Definition word_le (bs : list byte) : N :=
  fold_right (fun b acc => (Byte.to_N b + 256 * acc)%N) 0%N bs.

Fixpoint words_le (n : nat) (bs : list byte) : list N :=
  match n with
  | 0 => []
  | S n' => word_le (take 4 bs) :: words_le n' (drop 4 bs)
  end.

Definition md5_block (st : N * N * N * N) (blk : list byte) : N * N * N * N :=
  let '(a0, b0, c0, d0) := st in
  let '(a, b, c, d) := fold_left (md5_step (words_le 16 blk)) (seq 0 64) st in
  (w32 (a0 + a), w32 (b0 + b), w32 (c0 + c), w32 (d0 + d))%N.

Fixpoint md5_blocks (n : nat) (st : N * N * N * N) (bs : list byte)
  : N * N * N * N :=
  match n with
  | 0 => st
  | S n' => md5_blocks n' (md5_block st (take 64 bs)) (drop 64 bs)
  end.

(** The message followed by the bit [1], zero bits up to 56 modulo 64 bytes
    and the bit length as a 64-bit little-endian number. *)
Definition md5_pad (data : list byte) : list byte :=
  let len := length data in
  let zeros := (64 + 55 - len mod 64) mod 64 in
  let bits := (8 * N.of_nat len)%N in
  data ++ [Byte.x80] ++ replicate zeros Byte.x00
       ++ le32 bits ++ le32 (N.shiftr bits 32).

(** [md5.New()] fed with [data], read by [Sum(nil)]: sixteen bytes. *)
Definition md5_sum (data : list byte) : list byte :=
  let padded := md5_pad data in
  let '(a, b, c, d) :=
    md5_blocks (length padded / 64)
      (0x67452301, 0xefcdab89, 0x98badcfe, 0x10325476)%N padded in
  le32 a ++ le32 b ++ le32 c ++ le32 d.

Definition hex_digit (n : N) : ascii :=
  nth (N.to_nat (n mod 16)) (list_ascii_of_string "0123456789abcdef") "0"%char.

(** [hex.EncodeToString] *)
Definition hex_encode (bs : list byte) : string :=
  string_of_list_ascii
    (flat_map (fun b => [hex_digit (Byte.to_N b / 16); hex_digit (Byte.to_N b)]) bs).

Definition url_alphabet : list ascii :=
  list_ascii_of_string
    "ABCDEFGHIJKLMNOPQRSTUVWXYZabcdefghijklmnopqrstuvwxyz0123456789-_".

Definition b64_char (n : N) : ascii :=
  nth (N.to_nat (n mod 64)) url_alphabet "A"%char.

(** Three bytes give four characters; a tail of one or two bytes gives two
    or three, and [RawURLEncoding] adds no padding. *)
Fixpoint b64_chars (bs : list byte) : list ascii :=
  match bs with
  | [] => []
  | [x] =>
      let v := (Byte.to_N x * 65536)%N in
      [b64_char (N.shiftr v 18); b64_char (N.shiftr v 12)]
  | [x; y] =>
      let v := (Byte.to_N x * 65536 + Byte.to_N y * 256)%N in
      [b64_char (N.shiftr v 18); b64_char (N.shiftr v 12); b64_char (N.shiftr v 6)]
  | x :: y :: z :: rest =>
      let v := (Byte.to_N x * 65536 + Byte.to_N y * 256 + Byte.to_N z)%N in
      b64_char (N.shiftr v 18) :: b64_char (N.shiftr v 12)
        :: b64_char (N.shiftr v 6) :: b64_char v :: b64_chars rest
  end.

(** [base64.RawURLEncoding.EncodeToString] *)
Definition base64_raw_url (bs : list byte) : string :=
  string_of_list_ascii (b64_chars bs).

(** The content name of [store.go:81]: the CRC-32 followed by the MD5. *)
Definition content_name (data : list byte) : string :=
  base64_raw_url (crc32_sum data ++ md5_sum data).

End Hash.

(** * The operating system: a tree of files and directories *)

Module Os.
Import GoStrings Filepath.

(** A resolved path lists its names innermost first, so the parent directory
    is the tail and the root directory is the empty list. *)
Definition walk_step (at_dir : list string) (seg : string) : list string :=
  if decide (seg = "" ∨ seg = ".") then at_dir
  else if decide (seg = "..") then tail at_dir
  else seg :: at_dir.

(** Path resolution of the kernel (there are no symbolic links): from the
    root for a rooted path, from the working directory otherwise. *)
Definition resolve (cwd : list string) (path : string) : list string :=
  fold_left walk_step (Split path) (if is_rooted path then [] else cwd).

(** A regular file has its bytes and its modification time; a directory has
    the two permission bits that the store's calls can run into: listing it
    and changing its entries.  The times of directories are not kept: no
    call of the store reads them. *)
Inductive node :=
  | File (data : list byte) (mtime : Z)
  | Dir (readable writable : bool).

Definition IsDir (n : node) : bool :=
  match n with Dir _ _ => true | File _ _ => false end.

Definition ModTime (n : node) : Z :=
  match n with File _ t => t | Dir _ _ => 0 end.

Record world := World { cwd : list string; tree : gmap (list string) node }.

Definition set_tree (w : world) (t : gmap (list string) node) : world :=
  {| cwd := cwd w; tree := t |}.

Inductive errno := ENOENT | EEXIST | ENOTDIR | EISDIR | ENOTEMPTY | EACCES | EBUSY | EINVAL.

Inductive error :=
  | Errno (e : errno)
  | ErrPermission
  | ErrNotFound
  | SkipDir
  | ErrStream (code : nat)
  | PathError (op path : string) (err : error)
  | LinkError (op old new : string) (err : error).

#[export] Instance errno_eq_dec : EqDecision errno.
Proof. solve_decision. Defined.
#[export] Instance error_eq_dec : EqDecision error.
Proof. solve_decision. Defined.
#[export] Instance byte_eq_dec : EqDecision byte := Byte.byte_eq_dec.
#[export] Instance node_eq_dec : EqDecision node.
Proof. solve_decision. Defined.

(** [os.IsNotExist]: the error, or the error inside a path or link error. *)
Definition IsNotExist (e : error) : bool :=
  match e with
  | Errno ENOENT | PathError _ _ (Errno ENOENT) | LinkError _ _ _ (Errno ENOENT) => true
  | _ => false
  end.

Definition lookup_path (w : world) (path : string) : option node :=
  if decide (path = "") then None else tree w !! resolve (cwd w) path.

(** [os.Lstat] and [os.Stat]. *)
Definition Lstat (path : string) (w : world) : node + error :=
  match lookup_path w path with
  | Some n => inl n
  | None => inr (PathError "lstat" path (Errno ENOENT))
  end.

(** The entry for [p] can be added or removed when its parent is a directory
    that may be written. *)
Definition check_parent (t : gmap (list string) node) (p : list string) : option errno :=
  match p with
  | [] => Some EBUSY
  | _ :: up =>
      match t !! up with
      | Some (Dir _ true) => None
      | Some (Dir _ false) => Some EACCES
      | Some (File _ _) => Some ENOTDIR
      | None => Some ENOENT
      end
  end.

Definition mkdir (p : list string) (t : gmap (list string) node)
  : option errno * gmap (list string) node :=
  match t !! p with
  | Some _ => (Some EEXIST, t)
  | None =>
      match check_parent t p with
      | Some e => (Some e, t)
      | None => (None, <[p := Dir true true]> t)
      end
  end.

(** [os.MkdirAll] on a resolved path: nothing to do for a directory, an error
    for a file, and otherwise the parent first and then the directory itself,
    with mode 0700. *)
Fixpoint mkdir_all (p : list string) (t : gmap (list string) node)
  : option errno * gmap (list string) node :=
  match t !! p with
  | Some (Dir _ _) => (None, t)
  | Some (File _ _) => (Some ENOTDIR, t)
  | None =>
      match p with
      | [] => mkdir p t
      | _ :: up =>
          match mkdir_all up t with
          | (None, t') => mkdir p t'
          | (Some e, t') => (Some e, t')
          end
      end
  end.

Definition MkdirAll (path : string) (w : world) : option error * world :=
  if decide (path = "") then (Some (PathError "mkdir" path (Errno ENOENT)), w)
  else match mkdir_all (resolve (cwd w) path) (tree w) with
       | (None, t) => (None, set_tree w t)
       | (Some e, t) => (Some (PathError "mkdir" path (Errno e)), set_tree w t)
       end.

Definition digit (n : N) : ascii :=
  nth (N.to_nat (n mod 10)) (list_ascii_of_string "0123456789") "0"%char.

(** The nine decimal digits that [ioutil.TempFile] appends to the pattern. *)
Definition suffix (rnd : N) : string :=
  string_of_list_ascii
    (map (fun k => digit (rnd / 10 ^ N.of_nat k)) (rev (seq 0 9))).

(** [ioutil.TempFile(dir, pattern)]: a new, empty regular file, created
    exclusively.  [rnd] is the random draw of the attempt that ends the
    retries, [now] the clock when the file is created. *)
Definition TempFile (dir pattern : string) (rnd : N) (now : Z) (w : world)
  : (string + error) * world :=
  let dir := if decide (dir = "") then "/tmp" else dir in
  let name := Join [dir; pattern +:+ suffix rnd] in
  let p := resolve (cwd w) name in
  match tree w !! p with
  | Some _ => (inr (PathError "open" name (Errno EEXIST)), w)
  | None =>
      match check_parent (tree w) p with
      | Some e => (inr (PathError "open" name (Errno e)), w)
      | None => (inl name, set_tree w (<[p := File [] now]> (tree w)))
      end
  end.

(** Writing through the handle of an open regular file. *)
Definition write_file (name : string) (data : list byte) (now : Z) (w : world) : world :=
  match tree w !! resolve (cwd w) name with
  | Some (File _ _) => set_tree w (<[resolve (cwd w) name := File data now]> (tree w))
  | _ => w
  end.

Definition touch (now : Z) (n : node) : node :=
  match n with File d _ => File d now | Dir r x => Dir r x end.

(** [os.Chtimes]: fails only when the path names nothing. *)
Definition Chtimes (name : string) (now : Z) (w : world) : option error * world :=
  match lookup_path w name with
  | None => (Some (PathError "chtimes" name (Errno ENOENT)), w)
  | Some n => (None, set_tree w (<[resolve (cwd w) name := touch now n]> (tree w)))
  end.

(** [os.Rename] of a regular file; its errors are link errors.  The store
    renames nothing but its temporary file, so a directory as the source is
    refused here. *)
Definition Rename (old new : string) (w : world) : option error * world :=
  let fail e := (Some (LinkError "rename" old new (Errno e)), w) in
  if decide (old = "" ∨ new = "") then fail ENOENT
  else
    let po := resolve (cwd w) old in
    let pn := resolve (cwd w) new in
    match tree w !! po with
    | None => fail ENOENT
    | Some (Dir _ _) => fail EINVAL
    | Some (File d t) =>
        match check_parent (tree w) po, check_parent (tree w) pn with
        | Some e, _ => fail e
        | None, Some e => fail e
        | None, None =>
            match tree w !! pn with
            | Some (Dir _ _) => fail EISDIR
            | _ => (None, set_tree w (<[pn := File d t]> (delete po (tree w))))
            end
        end
    end.

Definition child_of (p k : list string) : option string :=
  match k with
  | n :: up => if decide (up = p) then Some n else None
  | [] => None
  end.

(** The names in a directory, in the order of [sort.Strings]. *)
Definition children (t : gmap (list string) node) (p : list string) : list string :=
  merge_sort String.le (omap (child_of p) (map_to_list t).*1).

(** [os.Remove]: a file, or a directory without entries. *)
Definition Remove (path : string) (w : world) : option error * world :=
  let fail e := (Some (PathError "remove" path (Errno e)), w) in
  if decide (path = "") then fail ENOENT
  else
    let p := resolve (cwd w) path in
    match tree w !! p with
    | None => fail ENOENT
    | Some n =>
        match check_parent (tree w) p with
        | Some e => fail e
        | None =>
            if IsDir n && negb (bool_decide (children (tree w) p = []))
            then fail ENOTEMPTY
            else (None, set_tree w (delete p (tree w)))
        end
    end.

(** [os.RemoveAll]: the entry and everything below it; no error when there is
    no such entry. *)
Definition RemoveAll (path : string) (w : world) : option error * world :=
  if decide (path = "") then (None, w)
  else
    let p := resolve (cwd w) path in
    match tree w !! p with
    | None => (None, w)
    | Some _ =>
        match check_parent (tree w) p with
        | Some e => (Some (PathError "unlinkat" path (Errno e)), w)
        | None =>
            (None, set_tree w (filter (fun kv => ¬ (p `suffix_of` kv.1)) (tree w)))
        end
    end.

(** An open file: the name it was opened by and the entry behind it. *)
Record file := { f_name : string; f_node : node }.

(** [os.Open] *)
Definition Open (name : string) (w : world) : file + error :=
  match lookup_path w name with
  | Some n => inl {| f_name := name; f_node := n |}
  | None => inr (PathError "open" name (Errno ENOENT))
  end.

(** The [Stat] method of an open [os.File]. *)
Definition File_Stat (f : file) : node + error := inl (f_node f).

(** Everything that reading the open file to its end returns. *)
Definition ReadAll (f : file) : list byte :=
  match f_node f with File d _ => d | Dir _ _ => [] end.

(** [readDirNames] of [path/filepath]. *)
Definition readDirNames (dirname : string) (w : world) : list string * option error :=
  match lookup_path w dirname with
  | Some (Dir true _) => (children (tree w) (resolve (cwd w) dirname), None)
  | Some (Dir false _) => ([], Some (PathError "open" dirname (Errno EACCES)))
  | Some (File _ _) => ([], Some (PathError "readdirent" dirname (Errno ENOTDIR)))
  | None => ([], Some (PathError "open" dirname (Errno ENOENT)))
  end.

(** [filepath.Walk].  The recursion of [walk] follows the directory tree; the
    model bounds it by [fuel] and answers [None] when the bound is hit. *)
Section Walk.
Variable walkFn : string → option node → option error → world → option error * world.

Fixpoint walk_names (rec : string → node → world → option (option error * world))
    (path : string) (names : list string) (w : world)
  : option (option error * world) :=
  match names with
  | [] => Some (None, w)
  | name :: rest =>
      let filename := Join [path; name] in
      match Lstat filename w with
      | inr err =>
          match walkFn filename None (Some err) w with
          | (Some e, w') =>
              if decide (e = SkipDir) then walk_names rec path rest w'
              else Some (Some e, w')
          | (None, w') => walk_names rec path rest w'
          end
      | inl fileInfo =>
          match rec filename fileInfo w with
          | None => None
          | Some (Some e, w') =>
              if negb (IsDir fileInfo) || negb (bool_decide (e = SkipDir))
              then Some (Some e, w')
              else walk_names rec path rest w'
          | Some (None, w') => walk_names rec path rest w'
          end
      end
  end.

Fixpoint walk (fuel : nat) (path : string) (info : node) (w : world)
  : option (option error * world) :=
  match fuel with
  | 0 => None
  | S fuel' =>
      if negb (IsDir info) then Some (walkFn path (Some info) None w)
      else
        let '(names, err) := readDirNames path w in
        let '(err1, w1) := walkFn path (Some info) err w in
        if bool_decide (err ≠ None ∨ err1 ≠ None) then Some (err1, w1)
        else walk_names (walk fuel') path names w1
  end.

Definition Walk (fuel : nat) (root : string) (w : world)
  : option (option error * world) :=
  let skip r :=
    match r with
    | (Some e, w') => if decide (e = SkipDir) then (None, w') else (Some e, w')
    | (None, w') => (None, w')
    end in
  match Lstat root w with
  | inr err => Some (skip (walkFn root None (Some err) w))
  | inl info => skip <$> walk fuel root info w
  end.
End Walk.

(** A tree written down by the absolute paths of its entries. *)
Definition tree_of (entries : list (string * node)) : gmap (list string) node :=
  list_to_map (map (λ e, (resolve [] e.1, e.2)) entries).

(** An entry lies in the subtree of [root] when [root]'s resolved path ends
    its own. *)
Definition inside (root path : list string) : Prop := root `suffix_of` path.

(** The longest resolved path of the tree: no walk goes deeper. *)
Definition depth (t : gmap (list string) node) : nat :=
  max_list (length <$> (map_to_list t).*1).

End Os.

(** * What a call of the store comes back with *)

Module Go.
Import Os.

(** A method returns its value, returns an error, or panics (a failed type
    assertion). *)
Inductive outcome (A : Type) :=
  | Ret (a : A)
  | Fail (e : error)
  | Panic.
Arguments Ret {A} a.
Arguments Fail {A} e.
Arguments Panic {A}.

(** The assignment to the [Path] field of [err] asserted to be an
    [os.PathError], followed by [return nil, err]: the assertion holds for a
    path error only. *)
Definition assert_path {A : Type} (path : string) (err : error) : outcome A :=
  match err with
  | PathError op _ e => Fail (PathError op path e)
  | _ => Panic
  end.

(** The same assignment behind the two-valued assertion, which leaves any
    other error as it is. *)
Definition replace_path (path : string) (err : error) : error :=
  match err with
  | PathError op _ e => PathError op path e
  | _ => err
  end.

(** An [io.Reader]: the bytes it delivers, and the error that ends them when
    the end is not the end of the file. *)
Record reader := { rd_data : list byte; rd_err : option error }.

End Go.

(** * Package [filestore] ([store.go]) *)

Module Filestore.
Import GoStrings Filepath Hash Os Go.

Record Store := { root : string }.

Record FileInfo := {
  Name : string;
  Mimetype : string;
  Size : Z;
  CRC32 : N;
  MD5 : string
}.

(** What one call of [Create] meets outside the store: the suffix drawn for
    the temporary file, the clock when that file is written and at
    [time.Now()], and the failures of writing to and closing it. *)
Record create_env := {
  rnd : N;
  t_write : Z;
  now : Z;
  write_err : option error;
  close_err : option error
}.

Definition tmpfileName : string := "<temporary file>".

(** [store.go:96]: the place of a content name below the prefixed root. *)
Definition installName (root name : string) : string :=
  Join [root; slice name 0 1; slice name 1 3; slice_from name 3].

(** [store.go:128] and [store.go:157]: the place that [Open] and [Remove]
    look a name up at. *)
Definition fullName (s : Store) (prefix name : string) : string :=
  Join [root s; prefix; slice name 0 1; slice name 1 3; slice_from name 3].

(** [filestore.Open]: the store at [root], the directory created when
    missing. *)
Definition OpenStore (root : string) (w : world) : outcome Store * world :=
  match MkdirAll root w with
  | (Some err, w) => (Fail err, w)
  | (None, w) => (Ret {| root := root |}, w)
  end.

Section Sniff.
(** [http.DetectContentType]: no property of the store depends on what it
    answers. *)
Variable DetectContentType : list byte → string.

(** [Create] after [defer os.Remove(tmpfile.Name())], lines 60 to 115. *)
Definition Create_deferred (env : create_env) (root tmpfile : string)
    (r : reader) (w : world) : outcome FileInfo * world :=
  (* data, err := bufferReader.Peek(512) *)
  let data := take 512 (rd_data r) in
  let err := if decide (length (rd_data r) < 512)%nat then rd_err r else None in
  match err with
  | Some err => (Fail (PathError "create" tmpfileName err), w)
  | None =>
      let mimetype := DetectContentType data in
      (* size, err := bufferReader.WriteTo(io.MultiWriter(tmpfile, crc32, md5)) *)
      let w := write_file tmpfile (rd_data r) (t_write env) w in
      let err := match write_err env with Some e => Some e | None => rd_err r end in
      match err with
      | Some err => (Fail (PathError "write" tmpfileName err), w)
      | None =>
          let data := md5_sum (rd_data r) in
          let fi := {|
            Name := base64_raw_url (crc32_sum (rd_data r) ++ data);
            Mimetype := mimetype;
            Size := Z.of_nat (length (rd_data r));
            CRC32 := crc32_sum32 (rd_data r);
            MD5 := hex_encode data
          |} in
          match close_err env with
          | Some err => (Fail (replace_path tmpfileName err), w)
          | None =>
              let name := installName root (Name fi) in
              match Chtimes name (now env) w with
              | (None, w) => (Ret fi, w)
              | (Some _, w) =>
                  match MkdirAll (Filepath.Dir name) w with
                  | (Some err, w) => (assert_path (Name fi) err, w)
                  | (None, w) =>
                      match Rename tmpfile name w with
                      | (Some err, w) => (assert_path (Name fi) err, w)
                      | (None, w) => (Ret fi, w)
                      end
                  end
              end
          end
      end
  end.

(** [(s *Store) Create(prefix, r)] *)
Definition Create (s : Store) (env : create_env) (prefix : string)
    (r : reader) (w : world) : outcome FileInfo * world :=
  let root := Join [root s; prefix] in
  match MkdirAll root w with
  | (Some err, w) => (Fail err, w)
  | (None, w) =>
      match TempFile root "~tmp" (rnd env) (t_write env) w with
      | (inr err, w) => (assert_path tmpfileName err, w)
      | (inl tmpfile, w) =>
          let '(res, w) := Create_deferred env root tmpfile r w in
          (res, (Os.Remove tmpfile w).2)
      end
  end.
End Sniff.

(** [(s *Store) Open(prefix, name)] at the clock reading [now]. *)
Definition Open (s : Store) (now : Z) (prefix name : string) (w : world)
  : outcome file * world :=
  if decide (String.length name < 27)%nat then (Fail ErrNotFound, w)
  else
    let fullName := fullName s prefix name in
    match Os.Open fullName w with
    | inr err => (assert_path name err, w)
    | inl file =>
        match File_Stat file with
        | inr err => (assert_path name err, w)
        | inl fi =>
            if IsDir fi
            then (Fail (PathError "open" name ErrPermission), w)
            else (Ret file, (Chtimes fullName now w).2)
        end
    end.

(** [for i := 0; i < n; i++ { name = filepath.Dir(name); if os.Remove(name)
    fails, break }] *)
Fixpoint prune (n : nat) (name : string) (w : world) : world :=
  match n with
  | 0 => w
  | S n' =>
      let name := Filepath.Dir name in
      match Os.Remove name w with
      | (Some _, w) => w
      | (None, w) => prune n' name w
      end
  end.

(** [(s *Store) Remove(prefix, name)] *)
Definition Remove (s : Store) (prefix name : string) (w : world)
  : outcome unit * world :=
  if decide (String.length name < 27)%nat then (Fail ErrNotFound, w)
  else
    let fullName := fullName s prefix name in
    match Os.Remove fullName w with
    | (Some err, w) => (assert_path name err, w)
    | (None, w) => (Ret (), prune 2 fullName w)
    end.

(** The function that [Clean] hands to [filepath.Walk].  [Walk] passes an
    entry or an error, never neither. *)
Definition cleanFn (valid : Z) (filename : string) (info : option node)
    (err : option error) (w : world) : option error * world :=
  match err, info with
  | Some err, _ => (Some err, w)
  | None, None => (None, w)
  | None, Some info =>
      if IsDir info || (valid <? ModTime info)%Z then (None, w)
      else
        match Os.Remove filename w with
        | (Some _, w) => (None, w)
        | (None, w) => (None, prune 2 filename w)
        end
  end.

(** [(s *Store) Clean(lifetime)] at the clock reading [now]. *)
Definition Clean (s : Store) (now : Z) (fuel : nat) (lifetime : Z) (w : world)
  : option (option error * world) :=
  if decide (lifetime ≤ 0)%Z then Some (RemoveAll (root s) w)
  else
    let valid := (now - lifetime)%Z in
    match Walk (cleanFn valid) fuel (root s) w with
    | None => None
    | Some (Some err, w) =>
        if IsNotExist err then Some (None, w) else Some (Some err, w)
    | Some (None, w) => Some (None, w)
    end.

End Filestore.

(** * Package [httpfs], the sibling source *)

Module Httpfs.
Import GoStrings Filepath Os Go.

Record Store := { root : string }.

Definition filepathSeparator : string := "/".

(** [(s *Store) absPath(name)] *)
Definition absPath (s : Store) (name : string) : string + error :=
  let name := FromSlash name in
  let name :=
    if HasPrefix name filepathSeparator then TrimPrefix name filepathSeparator
    else name in
  let parts := SplitN name 4 in
  let parts := if decide (3 < length parts)%nat then take 3 parts else parts in
  let name := JoinSep parts in
  let name := Join [root s; name] in
  let name := Filepath.Clean name in
  if negb (HasPrefix name (root s)) then inr ErrPermission
  else inl name.

(** [(s *Store) Open(name)] at the clock reading [now]. *)
Definition Open (s : Store) (now : Z) (name : string) (w : world)
  : outcome file * world :=
  match absPath s name with
  | inr err => (Fail (PathError "open" name err), w)
  | inl pathName =>
      match Os.Open pathName w with
      | inr err => (assert_path name err, w)
      | inl file =>
          match File_Stat file with
          | inr err => (assert_path name err, w)
          | inl fi =>
              if IsDir fi
              then (Fail (PathError "open" name ErrPermission), w)
              else (Ret file, (Chtimes pathName now w).2)
          end
      end
  end.

(** [(s *Store) Remove(name)] *)
Definition Remove (s : Store) (name : string) (w : world) : outcome unit * world :=
  match absPath s name with
  | inr err => (Fail (PathError "remove" name err), w)
  | inl pathName =>
      match Os.Remove pathName w with
      | (Some err, w) => (assert_path name err, w)
      | (None, w) => (Ret (), Filestore.prune 2 pathName w)
      end
  end.

(** The walk function of [(s *Store) Clean]. *)
Definition cleanFn (valid : Z) (filename : string) (info : option node)
    (err : option error) (w : world) : option error * world :=
  match err, info with
  | Some err, _ => (Some err, w)
  | None, None => (None, w)
  | None, Some info =>
      if IsDir info then (None, w)
      else
        let mtime := ModTime info in
        if (valid <? mtime)%Z then (None, w)
        else
          match Os.Remove filename w with
          | (Some _, w) => (None, w)
          | (None, w) => (None, Filestore.prune 2 filename w)
          end
  end.

(** [(s *Store) Clean(lifetime)] at the clock reading [now]. *)
Definition Clean (s : Store) (now : Z) (fuel : nat) (lifetime : Z) (w : world)
  : option (option error * world) :=
  if decide (lifetime ≤ 0)%Z then Some (RemoveAll (root s) w)
  else
    let valid := (now - lifetime)%Z in
    match Walk (cleanFn valid) fuel (root s) w with
    | None => None
    | Some (Some err, w) =>
        if IsNotExist err then Some (None, w) else Some (Some err, w)
    | Some (None, w) => Some (None, w)
    end.

End Httpfs.

(** * Opening a store of package [httpfs] *)

Module HttpfsStore.
Import GoStrings Filepath Os Go.

(** [os.Getwd]: the rooted path of the working directory. *)
Definition Getwd (w : world) : string := render true (cwd w, 0).

(** [filepath.Abs]: a rooted path cleaned, any other path joined to the
    working directory. *)
Definition Abs (path : string) (w : world) : string :=
  if is_rooted path then Filepath.Clean path else Join [Getwd w; path].

(** [httpfs.Open(root)]: the store at the absolute path of [root], the
    directory created when missing. *)
Definition OpenStore (root : string) (w : world) : outcome Httpfs.Store * world :=
  let root := Abs root w in
  match MkdirAll root w with
  | (Some err, w) => (Fail err, w)
  | (None, w) => (Ret {| Httpfs.root := root |}, w)
  end.

(** [(s Store) Path()] *)
Definition Path (s : Httpfs.Store) : string := Httpfs.root s.

End HttpfsStore.

(** * The lookup of the HTTP handler [Get] of package [filestore] *)

Module Handlers.
Import GoStrings Filepath Os Go Filestore.

(** [Get], lines 227 to 233: the name is the request parameter up to its
    first separator; what follows it only names the extension. *)
Definition Get_name (filename : string) : string :=
  let name := FromSlash filename in
  match cut name with
  | Some (name, _) => name
  | None => name
  end.

(** [Get], line 235: the file that the handler goes on to serve. *)
Definition Get_open (s : Store) (now : Z) (filename : string) (w : world)
  : outcome file * world :=
  Open s now "" (Get_name filename) w.

End Handlers.

Example Clean_samples :
  Filepath.Clean "" = "." ∧ Filepath.Clean "/.." = "/" ∧
  Filepath.Clean "a/.." = "." ∧ Filepath.Clean "../a/" = "../a" ∧
  Filepath.Clean "//a//b/./c/.." = "/a/b" ∧ Filepath.Clean "a/../../b" = "../b" ∧
  Filepath.Clean "/" = "/".
Proof. repeat apply conj; vm_compute; reflexivity. Qed.

Example Join_Dir_samples :
  Filepath.Join ["/data"; ""; "a"; "bc"] = "/data/a/bc" ∧
  Filepath.Join [""; ""] = "" ∧ Filepath.Join [""; "x"] = "x" ∧
  Filepath.Dir "/data/a/bc" = "/data/a" ∧ Filepath.Dir "/a" = "/" ∧
  Filepath.Dir "a" = "." ∧ Filepath.Dir "/" = "/" ∧
  GoStrings.SplitN "a/b/c/d/e" 4 = ["a"; "b"; "c"; "d/e"] ∧
  GoStrings.SplitN "" 4 = [""].
Proof. repeat apply conj; vm_compute; reflexivity. Qed.

Example hash_samples :
  Hash.crc32_sum32 (list_byte_of_string "abc") = 0x352441c2%N ∧
  Hash.hex_encode (Hash.md5_sum []) = "d41d8cd98f00b204e9800998ecf8427e" ∧
  Hash.hex_encode (Hash.md5_sum (list_byte_of_string "abc")) = "900150983cd24fb0d6963f7d28e17f72" ∧
  Hash.content_name [] = "AAAAANQdjNmPALIE6YAJmOz4Qn4" ∧
  Hash.content_name (list_byte_of_string "hello") = "NhCmhl1BQCq8Syp2uXGdkRAXxZI" ∧
  Hash.hex_encode (Hash.md5_sum (concat (replicate 3 (map Hash.byte_of_N (map N.of_nat (seq 0 200))))))
   = "792c2ba4765896a7f2b4e377d9345ff7".
Proof. repeat apply conj; vm_compute; reflexivity. Qed.

(** * Facts about strings and paths *)

Module PathFacts.
Import GoStrings Filepath Os.

Lemma sapp_cons c (a b : string) : String c a +:+ b = String c (a +:+ b).
Proof. reflexivity. Qed.

Lemma sapp_nil_l (b : string) : "" +:+ b = b.
Proof. reflexivity. Qed.

Lemma sapp_nil_r (a : string) : a +:+ "" = a.
Proof. induction a as [|c a IH]; [done|]. by rewrite sapp_cons, IH. Qed.

Lemma sapp_assoc (a b c : string) : (a +:+ b) +:+ c = a +:+ b +:+ c.
Proof. induction a as [|x a IH]; [done|]. by rewrite !sapp_cons, IH. Qed.

Lemma Split_nonempty s : Split s ≠ [].
Proof.
  destruct s as [|c s]; simpl; [done|].
  destruct (is_sep c); [done|]. by destruct (Split s).
Qed.

Lemma Split_app_sep a b : Split (a +:+ String "/" b) = Split a ++ Split b.
Proof.
  induction a as [|c a IH]; [done|].
  rewrite sapp_cons. simpl. rewrite IH.
  destruct (is_sep c); [done|].
  pose proof (Split_nonempty a). by destruct (Split a).
Qed.

Lemma Split_no_sep s : Forall (λ x, no_sep x = true) (Split s).
Proof.
  induction s as [|c s IH]; simpl; [by repeat constructor|].
  destruct (is_sep c) eqn:Hc; [by constructor|].
  destruct (Split s) as [|h t]; [by repeat constructor; simpl; rewrite Hc|].
  apply Forall_cons in IH as [Hh Ht]. constructor; [|done].
  simpl. by rewrite Hc, Hh.
Qed.

Lemma Split_one s : no_sep s = true → Split s = [s].
Proof.
  induction s as [|c s IH]; simpl; [done|].
  intros [Hc Hs]%andb_prop. apply negb_true_iff in Hc. rewrite Hc.
  by rewrite IH.
Qed.

Lemma JoinSep_cons x y l : JoinSep (x :: y :: l) = x +:+ String "/" (JoinSep (y :: l)).
Proof. reflexivity. Qed.

Lemma Split_JoinSep l :
  l ≠ [] → Forall (λ x, no_sep x = true) l → Split (JoinSep l) = l.
Proof.
  induction l as [|x [|y l] IH]; intros Hne Hl; [done| |].
  - apply Forall_cons in Hl as [Hx _]. by apply Split_one.
  - apply Forall_cons in Hl as [Hx Hl].
    rewrite JoinSep_cons, Split_app_sep, IH by done.
    by rewrite Split_one.
Qed.

Lemma JoinSep_app l1 l2 :
  l1 ≠ [] → l2 ≠ [] → JoinSep (l1 ++ l2) = JoinSep l1 +:+ String "/" (JoinSep l2).
Proof.
  induction l1 as [|x [|y l1] IH]; intros H1 H2; [done| |].
  - destruct l2; [done|]. reflexivity.
  - change ((x :: y :: l1) ++ l2) with (x :: (y :: l1) ++ l2).
    simpl app. rewrite JoinSep_cons, (JoinSep_cons x y l1), sapp_assoc.
    rewrite sapp_cons. f_equal. f_equal.
    change (y :: l1 ++ l2) with ((y :: l1) ++ l2). by apply IH.
Qed.

Lemma simple_no_sep seg : simple seg = true → no_sep seg = true.
Proof. by intros [_ ?]%andb_prop. Qed.

Lemma simple_ne seg : simple seg = true → seg ≠ "" ∧ seg ≠ "." ∧ seg ≠ "..".
Proof.
  intros [H _]%andb_prop. apply negb_true_iff, bool_decide_eq_false in H.
  naive_solver.
Qed.

Lemma simple_not_rooted seg : simple seg = true → is_rooted seg = false.
Proof.
  intros H. destruct (simple_ne _ H) as (H0 & _). apply simple_no_sep in H.
  destruct seg as [|c seg]; [done|]. simpl in *.
  apply andb_prop in H as [H _]. by apply negb_true_iff in H.
Qed.

Lemma clean_step_simple r st seg :
  simple seg = true → clean_step r st seg = (seg :: st.1, st.2).
Proof.
  intros H. destruct (simple_ne _ H) as (?&?&?). unfold clean_step.
  rewrite decide_False by (by intros [?|?]). by rewrite decide_False.
Qed.

Lemma walk_step_simple p seg : simple seg = true → walk_step p seg = seg :: p.
Proof.
  intros H. destruct (simple_ne _ H) as (?&?&?). unfold walk_step.
  rewrite decide_False by (by intros [?|?]). by rewrite decide_False.
Qed.

Lemma fold_walk_simple l p :
  Forall (λ x, simple x = true) l → fold_left walk_step l p = rev l ++ p.
Proof.
  revert p. induction l as [|x l IH]; intros p Hl; [done|].
  apply Forall_cons in Hl as [Hx Hl]. simpl.
  rewrite walk_step_simple, IH by done. by rewrite <- app_assoc.
Qed.

Lemma fold_clean_simple r l st :
  Forall (λ x, simple x = true) l →
  canon_from r l st = (rev l ++ st.1, st.2).
Proof.
  unfold canon_from. revert st. induction l as [|x l IH]; intros st Hl.
  - by destruct st.
  - apply Forall_cons in Hl as [Hx Hl]. simpl.
    rewrite clean_step_simple, IH by done. simpl. by rewrite <- app_assoc.
Qed.

(** The scan state of [Clean] is well formed: the kept names are entry
    names, and a rooted path has no leading [..]. *)
Definition wf_canon (rooted : bool) (st : list string * nat) : Prop :=
  Forall (λ x, simple x = true) st.1 ∧ (rooted = true → st.2 = 0).

Lemma clean_step_wf r st seg :
  no_sep seg = true → wf_canon r st → wf_canon r (clean_step r st seg).
Proof.
  intros Hseg [Hst Hr]. unfold clean_step.
  destruct (decide (seg = "" ∨ seg = ".")) as [|H1]; [done|].
  destruct (decide (seg = "..")) as [|H2].
  - destruct st as [[|x up] n]; simpl in *.
    + destruct r; [done|]. split; [done|]. done.
    + apply Forall_cons in Hst as [_ ?]. done.
  - split; simpl; [|done]. constructor; [|done].
    unfold simple. rewrite Hseg, andb_true_r.
    apply negb_true_iff, bool_decide_eq_false. intros [?|[?|?]]; tauto.
Qed.

Lemma canon_from_wf r segs st :
  Forall (λ x, no_sep x = true) segs → wf_canon r st →
  wf_canon r (canon_from r segs st).
Proof.
  unfold canon_from. revert st. induction segs as [|x l IH]; intros st Hl Hst; [done|].
  apply Forall_cons in Hl as [Hx Hl]. simpl.
  apply IH; [done|]. by apply clean_step_wf.
Qed.

Lemma canon_wf s : wf_canon (is_rooted s) (canon s).
Proof.
  apply canon_from_wf; [apply Split_no_sep|]. split; [constructor|done].
Qed.

Definition segs_of (st : list string * nat) : list string :=
  replicate st.2 ".." ++ rev st.1.

Definition skipped (seg : string) : Prop := seg = "" ∨ seg = ".".

Lemma segs_of_no_sep r st :
  wf_canon r st → Forall (λ x, no_sep x = true) (segs_of st).
Proof.
  intros [Hst _]. apply Forall_app. split.
  - apply Forall_replicate. reflexivity.
  - apply Forall_rev. eapply Forall_impl; [exact Hst|]. apply simple_no_sep.
Qed.

(** The rendering of a scan state splits into skipped elements, the leading
    [..] elements and the kept names. *)
Lemma Split_render r st :
  wf_canon r st →
  ∃ l0, Split (render r st) = l0 ++ segs_of st ∧ Forall skipped l0 ∧
        (l0 = [] ↔ r = false ∧ segs_of st ≠ []).
Proof.
  intros Hwf. pose proof (segs_of_no_sep _ _ Hwf) as Hns.
  unfold render. fold (segs_of st). destruct r.
  - destruct (decide (segs_of st = [])) as [Hnil|Hne].
    + exists [""; ""]. rewrite Hnil. repeat split; try done.
      * repeat constructor; by left.
      * by intros [? _].
    + exists [""]. change ("/" +:+ JoinSep (segs_of st)) with (String "/" (JoinSep (segs_of st))).
      simpl. rewrite Split_JoinSep by done. repeat split; try done.
      * repeat constructor; by left.
      * by intros [? _].
  - destruct (decide (segs_of st = [])) as [Hnil|Hne].
    + exists ["."]. rewrite Hnil. repeat split; try done.
      * repeat constructor; by right.
      * by intros [_ ?].
    + exists []. rewrite Split_JoinSep by done. repeat split; try done.
Qed.

Lemma canon_from_app r l1 l2 st :
  canon_from r (l1 ++ l2) st = canon_from r l2 (canon_from r l1 st).
Proof. apply fold_left_app. Qed.

Lemma canon_from_skipped r l st : Forall skipped l → canon_from r l st = st.
Proof.
  unfold canon_from. induction 1 as [|x l Hx _ IH]; [done|]. simpl.
  unfold clean_step at 2. by rewrite decide_True.
Qed.

Lemma fold_walk_skipped l p : Forall skipped l → fold_left walk_step l p = p.
Proof.
  induction 1 as [|x l Hx _ IH]; [done|]. simpl.
  unfold walk_step at 2. by rewrite decide_True.
Qed.

Lemma canon_from_ups n k : canon_from false (replicate n "..") ([], k) = ([], n + k).
Proof.
  unfold canon_from. revert k. induction n as [|n IH]; intros k; [done|].
  simpl. change (clean_step false ([], k) "..") with (@nil string, S k).
  rewrite (IH (S k)). f_equal. lia.
Qed.

Lemma fold_walk_ups n p : fold_left walk_step (replicate n "..") p = Nat.iter n tail p.
Proof.
  revert p. induction n as [|n IH]; intros p; [done|].
  simpl. rewrite IH. change (walk_step p "..") with (tail p).
  clear IH. induction n as [|n IH]; [done|]. simpl. by rewrite IH.
Qed.

Lemma iter_tail_nil n : Nat.iter n tail ([] : list string) = [].
Proof. induction n as [|n IH]; [done|]. simpl. by rewrite IH. Qed.

Lemma canon_from_segs r st :
  wf_canon r st → canon_from r (segs_of st) ([], 0) = st.
Proof.
  intros [Hst Hr]. unfold segs_of. rewrite canon_from_app.
  destruct st as [stack ups]. simpl in *. destruct r.
  - rewrite Hr by done. simpl. rewrite fold_clean_simple by by apply Forall_rev.
    simpl. by rewrite rev_involutive, app_nil_r.
  - rewrite canon_from_ups, fold_clean_simple by by apply Forall_rev.
    simpl. rewrite rev_involutive, app_nil_r. f_equal. lia.
Qed.

Lemma canon_render r st :
  wf_canon r st → canon_from r (Split (render r st)) ([], 0) = st.
Proof.
  intros Hwf. destruct (Split_render _ _ Hwf) as (l0 & -> & Hl0 & _).
  rewrite canon_from_app, (canon_from_skipped r l0) by done.
  by apply canon_from_segs.
Qed.

Lemma is_rooted_app a b : a ≠ "" → is_rooted (a +:+ b) = is_rooted a.
Proof. by destruct a. Qed.

Lemma is_rooted_JoinSep x l : x ≠ "" → is_rooted (JoinSep (x :: l)) = is_rooted x.
Proof. intros Hx. destruct l; [done|]. rewrite JoinSep_cons. by apply is_rooted_app. Qed.

Lemma is_rooted_render r st : wf_canon r st → is_rooted (render r st) = r.
Proof.
  intros [Hst Hr]. unfold render. fold (segs_of st). destruct r; [done|].
  destruct (decide (segs_of st = [])) as [|Hne]; [done|].
  unfold segs_of in *. destruct st as [stack [|ups]]; simpl in *.
  - destruct (rev stack) as [|x l] eqn:Hrev; [done|].
    assert (simple x = true) as Hx.
    { apply Forall_rev in Hst. rewrite Hrev in Hst. by apply Forall_cons in Hst as [? _]. }
    rewrite is_rooted_JoinSep; [by apply simple_not_rooted|by apply simple_ne].
  - by destruct (replicate ups ".." ++ rev stack).
Qed.

Lemma JoinSep_nonempty x l : x ≠ "" → JoinSep (x :: l) ≠ "".
Proof. intros Hx. destruct l; [done|]. rewrite JoinSep_cons. by destruct x. Qed.

Lemma render_nonempty r st : wf_canon r st → render r st ≠ "".
Proof.
  intros [Hst _]. unfold render. destruct r; [done|]. case_decide as Hne; [done|].
  destruct st as [stack [|ups]]; simpl in *.
  - destruct (rev stack) as [|x l] eqn:Hrev; [done|].
    apply JoinSep_nonempty. apply Forall_rev in Hst. rewrite Hrev in Hst.
    apply Forall_cons in Hst as [Hx _]. by apply simple_ne.
  - by apply JoinSep_nonempty.
Qed.

Lemma Clean_nonempty s : Clean s ≠ "".
Proof. apply render_nonempty, canon_wf. Qed.

Lemma is_rooted_Clean s : is_rooted (Clean s) = is_rooted s.
Proof. apply is_rooted_render, canon_wf. Qed.

Lemma Clean_render r st : wf_canon r st → Clean (render r st) = render r st.
Proof.
  intros Hwf. unfold Clean, canon. by rewrite is_rooted_render, canon_render.
Qed.

Lemma Clean_idem s : Clean (Clean s) = Clean s.
Proof. apply Clean_render, canon_wf. Qed.

(** Cleaning the front of a path first does not change the cleaned path. *)
Lemma Clean_Clean_app x y :
  x ≠ "" → Clean (Clean x +:+ String "/" y) = Clean (x +:+ String "/" y).
Proof.
  intros Hx. unfold Clean at 1 3, canon.
  rewrite !is_rooted_app, is_rooted_Clean by (done || apply Clean_nonempty).
  rewrite !Split_app_sep, !canon_from_app. do 2 f_equal.
  unfold Clean. by rewrite canon_render by apply canon_wf.
Qed.

(** Where a scan state leads from the directory [start]. *)
Definition into (start : list string) (st : list string * nat) : list string :=
  st.1 ++ Nat.iter st.2 tail start.

Lemma fold_walk_canon r segs st start :
  (r = true → start = []) →
  fold_left walk_step segs (into start st) = into start (canon_from r segs st).
Proof.
  intros Hr. unfold canon_from. revert st.
  induction segs as [|x l IH]; intros st; [done|].
  simpl. rewrite <- IH. f_equal. unfold walk_step, clean_step.
  destruct (decide (x = "" ∨ x = ".")); [done|].
  destruct (decide (x = "..")); [|done].
  destruct st as [[|y up] k]; simpl; [|done].
  destruct r; [|done]. rewrite Hr by done. unfold into. simpl.
  by rewrite iter_tail_nil.
Qed.

Lemma resolve_canon cwd s :
  resolve cwd s = into (if is_rooted s then [] else cwd) (canon s).
Proof.
  unfold resolve, canon. rewrite <- fold_walk_canon; [done|].
  by destruct (is_rooted s).
Qed.

Lemma resolve_render cwd r st :
  wf_canon r st → resolve cwd (render r st) = into (if r then [] else cwd) st.
Proof.
  intros Hwf. rewrite resolve_canon. unfold canon.
  by rewrite is_rooted_render, canon_render.
Qed.

(** The kernel resolves a path and its cleaned form to the same place. *)
Lemma resolve_Clean cwd s : resolve cwd (Clean s) = resolve cwd s.
Proof.
  unfold Clean. rewrite resolve_render by apply canon_wf.
  by rewrite resolve_canon.
Qed.

Lemma resolve_empty cwd : resolve cwd "" = cwd.
Proof. unfold resolve. simpl. unfold walk_step. by rewrite decide_True by by left. Qed.

Lemma resolve_sep cwd x y :
  x ≠ "" →
  resolve cwd (x +:+ String "/" y) = fold_left walk_step (Split y) (resolve cwd x).
Proof.
  intros Hx. unfold resolve.
  by rewrite is_rooted_app, Split_app_sep, fold_left_app.
Qed.

Lemma canon_sep x y :
  x ≠ "" →
  canon (x +:+ String "/" y) = canon_from (is_rooted x) (Split y) (canon x).
Proof.
  intros Hx. unfold canon.
  by rewrite is_rooted_app, Split_app_sep, canon_from_app.
Qed.

Lemma Join_ne e rest : e ≠ "" → Join (e :: rest) = Clean (JoinSep (e :: rest)).
Proof. intros He. simpl. by rewrite decide_False. Qed.

Lemma Join_empty rest : Join ("" :: rest) = Join rest.
Proof. reflexivity. Qed.

Lemma Forall_simple_no_sep l :
  Forall (λ x, simple x = true) l → Forall (λ x, no_sep x = true) l.
Proof. intros H. eapply Forall_impl; [exact H|]. apply simple_no_sep. Qed.

(** Joining entry names to a path descends through them. *)
Lemma resolve_Join cwd R l :
  Forall (λ x, simple x = true) l →
  resolve cwd (Join (R :: l)) = rev l ++ resolve cwd R.
Proof.
  intros Hl. destruct l as [|a l].
  - destruct (decide (R = "")) as [->|HR]; [done|].
    rewrite Join_ne by done. apply resolve_Clean.
  - assert (a ≠ "") as Ha.
    { apply Forall_cons in Hl as [Ha _]. by apply simple_ne. }
    destruct (decide (R = "")) as [->|HR].
    + rewrite Join_empty, Join_ne, resolve_Clean, resolve_empty by done.
      unfold resolve. rewrite is_rooted_JoinSep by done.
      rewrite simple_not_rooted by (by apply Forall_cons in Hl as [? _]).
      rewrite Split_JoinSep by (done || by apply Forall_simple_no_sep).
      by apply fold_walk_simple.
    + rewrite Join_ne, JoinSep_cons, resolve_Clean, resolve_sep by done.
      rewrite Split_JoinSep by (done || by apply Forall_simple_no_sep).
      by apply fold_walk_simple.
Qed.

Lemma Join_render R l :
  R ≠ "" → Forall (λ x, simple x = true) l →
  Join (R :: l) = render (is_rooted R) (rev l ++ (canon R).1, (canon R).2).
Proof.
  intros HR Hl. rewrite Join_ne by done. destruct l as [|a l].
  - simpl. unfold Clean. by destruct (canon R).
  - rewrite JoinSep_cons. unfold Clean.
    rewrite is_rooted_app, canon_sep by done.
    rewrite Split_JoinSep by (done || by apply Forall_simple_no_sep).
    by rewrite fold_clean_simple.
Qed.

(** Joining onto a joined front is joining everything at once. *)
Lemma Join_Join r p a l :
  a ≠ "" → Join (Join [r; p] :: a :: l) = Join (r :: p :: a :: l).
Proof.
  intros Ha. destruct (decide (r = "")) as [->|Hr].
  - rewrite !Join_empty. destruct (decide (p = "")) as [->|Hp]; [done|].
    rewrite (Join_ne p []), !Join_ne by (done || apply Clean_nonempty).
    rewrite (JoinSep_cons (Clean _) a l), (JoinSep_cons p a l).
    by apply Clean_Clean_app.
  - rewrite (Join_ne r [p]), !Join_ne by (done || apply Clean_nonempty).
    rewrite (JoinSep_cons (Clean _) a l), (JoinSep_cons r p (a :: l)),
      (JoinSep_cons p a l).
    change (JoinSep [r; p]) with (r +:+ String "/" p).
    rewrite Clean_Clean_app by (by destruct r).
    by rewrite sapp_assoc, sapp_cons.
Qed.

Lemma is_rooted_before_last s : is_rooted (before_last (Split s)) = is_rooted s.
Proof.
  destruct s as [|c s]; [done|]. simpl.
  pose proof (Split_nonempty s) as Hne.
  destruct (is_sep c) eqn:Hc.
  - destruct (Split s); [done|]. done.
  - destruct (Split s) as [|h [|h' t]]; [done|done|]. simpl. exact Hc.
Qed.

Lemma before_last_cons y L x :
  before_last (y :: L ++ [x]) = y +:+ String "/" (before_last (L ++ [x])).
Proof. simpl. by destruct (L ++ [x]) eqn:E; [destruct L|]. Qed.

Lemma Split_before_last L x :
  Forall (λ y, no_sep y = true) L → Split (before_last (L ++ [x])) = L ++ [""].
Proof.
  induction 1 as [|y L Hy _ IH]; [done|].
  change ((y :: L) ++ [x]) with (y :: L ++ [x]).
  rewrite before_last_cons, Split_app_sep, IH. by rewrite Split_one.
Qed.

(** [Dir] of a cleaned path that ends in a name drops that name. *)
Lemma Dir_render r x stack ups :
  wf_canon r (x :: stack, ups) →
  Filepath.Dir (render r (x :: stack, ups)) = render r (stack, ups).
Proof.
  intros Hwf. assert (wf_canon r (stack, ups)) as Hwf'.
  { destruct Hwf as [H1 H2]. split; [|done]. by apply Forall_cons in H1 as [_ ?]. }
  unfold Filepath.Dir, Clean, canon. rewrite is_rooted_before_last, is_rooted_render by done.
  f_equal. destruct (Split_render _ _ Hwf) as (l0 & -> & Hl0 & _).
  replace (segs_of (x :: stack, ups)) with (segs_of (stack, ups) ++ [x])
    by (unfold segs_of; simpl; by rewrite app_assoc).
  rewrite app_assoc, Split_before_last.
  - rewrite !canon_from_app, (canon_from_skipped r l0) by done.
    rewrite canon_from_segs by done.
    apply canon_from_skipped. by repeat constructor.
  - apply Forall_app. split; [|by eapply segs_of_no_sep].
    eapply Forall_impl; [exact Hl0|]. by intros ? [->| ->].
Qed.

Lemma Dir_Join R l x :
  R ≠ "" → Forall (λ y, simple y = true) (l ++ [x]) →
  Filepath.Dir (Join (R :: l ++ [x])) = Join (R :: l).
Proof.
  intros HR Hl. pose proof Hl as [Hl1 Hx]%Forall_app.
  rewrite !Join_render by done. rewrite rev_app_distr. simpl.
  apply Dir_render. pose proof (canon_wf R) as [H1 H2]. split; [|done]. simpl.
  constructor; [by apply Forall_cons in Hx as [? _]|].
  apply Forall_app. split; [by apply Forall_rev|done].
Qed.

(** The text of an absolute path, from its resolved form. *)
Definition abs (p : list string) : string := render true (p, 0).

Section Abs.
Variable p : list string.
Hypothesis Hp : Forall (λ x, simple x = true) p.

Lemma abs_wf : wf_canon true (p, 0).
Proof using Hp. by split. Qed.

Lemma abs_nonempty : abs p ≠ "".
Proof. done. Qed.

Lemma is_rooted_abs : is_rooted (abs p) = true.
Proof. reflexivity. Qed.

Lemma resolve_abs cwd : resolve cwd (abs p) = p.
Proof using Hp.
  unfold abs. rewrite resolve_render by apply abs_wf. unfold into. simpl.
  apply app_nil_r.
Qed.

Lemma canon_abs : canon (abs p) = (p, 0).
Proof using Hp. unfold canon, abs. rewrite canon_render; [done|apply abs_wf]. Qed.

Lemma Join_abs n : simple n = true → Join [abs p; n] = abs (n :: p).
Proof using Hp.
  intros Hn. rewrite Join_render by (done || by repeat constructor).
  by rewrite canon_abs.
Qed.

Lemma Dir_abs n : simple n = true → Filepath.Dir (abs (n :: p)) = abs p.
Proof using Hp.
  intros Hn. apply Dir_render. split; [|done]. by constructor.
Qed.
End Abs.

Lemma Dir_abs_root : Filepath.Dir (abs []) = abs [].
Proof. by vm_compute. Qed.

Lemma canon_rooted s : is_rooted s = true → (canon s).2 = 0.
Proof. intros Hs. pose proof (canon_wf s) as [_ H]. rewrite Hs in H. auto. Qed.

Lemma resolve_rooted_simple cwd s :
  is_rooted s = true → Forall (λ x, simple x = true) (resolve cwd s).
Proof.
  intros Hs. rewrite resolve_canon, Hs. unfold into.
  rewrite canon_rooted by done. simpl. rewrite app_nil_r. apply canon_wf.
Qed.

Lemma Clean_rooted cwd s : is_rooted s = true → Clean s = abs (resolve cwd s).
Proof.
  intros Hs. rewrite resolve_canon, Hs. unfold into, Clean, abs.
  rewrite Hs, canon_rooted by done. simpl. rewrite app_nil_r.
  pose proof (canon_rooted s Hs). by destruct (canon s); simplify_eq/=.
Qed.

End PathFacts.

(** * Facts about content names *)

Module NameFacts.
Import GoStrings Filepath Hash.

(** A character that may stand anywhere in an entry name. *)
Definition name_char (c : ascii) : bool :=
  negb (is_sep c) && negb (Ascii.eqb c ".").

Lemma length_string_of_list cs : String.length (string_of_list_ascii cs) = length cs.
Proof. induction cs as [|c cs IH]; simpl; [done|]. by rewrite IH. Qed.

Lemma no_sep_of_chars cs :
  Forall (λ c, name_char c = true) cs → no_sep (string_of_list_ascii cs) = true.
Proof.
  induction 1 as [|c cs Hc _ IH]; simpl; [done|].
  apply andb_prop in Hc as [-> _]. done.
Qed.

Lemma simple_of_chars cs :
  cs ≠ [] → Forall (λ c, name_char c = true) cs →
  simple (string_of_list_ascii cs) = true.
Proof.
  intros Hne Hcs. unfold simple. rewrite no_sep_of_chars, andb_true_r by done.
  apply negb_true_iff, bool_decide_eq_false.
  destruct Hcs as [|c cs Hc _]; [done|].
  apply andb_prop in Hc as [_ Hdot]. apply negb_true_iff in Hdot.
  intros [H|[H|H]]; simpl in H; try discriminate;
    injection H as -> _; discriminate.
Qed.

Lemma b64_char_ok n : name_char (b64_char n) = true.
Proof.
  unfold b64_char.
  assert (forallb name_char url_alphabet = true) as Hall by reflexivity.
  rewrite forallb_forall in Hall. apply Hall, nth_In.
  change (length url_alphabet) with 64.
  pose proof (N.mod_upper_bound n 64). lia.
Qed.

Lemma b64_chars_ok bs : Forall (λ c, name_char c = true) (b64_chars bs).
Proof.
  revert bs. fix IH 1. intros [|x [|y [|z rest]]]; simpl.
  - constructor.
  - repeat constructor; apply b64_char_ok.
  - repeat constructor; apply b64_char_ok.
  - repeat (constructor; [apply b64_char_ok|]). apply IH.
Qed.

Lemma length_be32 x : length (be32 x) = 4.
Proof. reflexivity. Qed.

Lemma length_md5_sum data : length (md5_sum data) = 16.
Proof.
  unfold md5_sum. destruct (md5_blocks _ _ _) as [[[a b] c] d].
  by rewrite !length_app.
Qed.

Lemma length_b64_20 bs : length bs = 20 → length (b64_chars bs) = 27.
Proof.
  intros H.
  do 21 (destruct bs as [|? bs]; [simpl in H; try discriminate|]);
    [reflexivity|simpl in H; discriminate].
Qed.

Definition name_chars (data : list byte) : list ascii :=
  b64_chars (crc32_sum data ++ md5_sum data).

Lemma content_name_chars data : content_name data = string_of_list_ascii (name_chars data).
Proof. reflexivity. Qed.

Lemma length_name_chars data : length (name_chars data) = 27.
Proof.
  apply length_b64_20. rewrite length_app, length_md5_sum. reflexivity.
Qed.

(** Every content name has twenty-seven characters. *)
Lemma length_content_name data : String.length (content_name data) = 27.
Proof. by rewrite content_name_chars, length_string_of_list, length_name_chars. Qed.

Lemma name_chars_ok data : Forall (λ c, name_char c = true) (name_chars data).
Proof. apply b64_chars_ok. Qed.

(** A name is made of name characters. *)
Definition name_ok (name : string) : Prop :=
  Forall (λ c, name_char c = true) (list_ascii_of_string name).

Lemma content_name_ok data : name_ok (content_name data).
Proof.
  unfold name_ok. rewrite content_name_chars, list_ascii_of_string_of_list_ascii.
  apply name_chars_ok.
Qed.

Lemma length_list_of_string s : length (list_ascii_of_string s) = String.length s.
Proof. induction s as [|c s IH]; simpl; [done|]. by rewrite IH. Qed.

(** The three pieces of a long enough name are entry names. *)
Lemma slices_simple name :
  name_ok name → 3 < String.length name →
  Forall (λ x, simple x = true)
    [slice name 0 1; slice name 1 3; slice_from name 3].
Proof.
  intros Hok Hlen. rewrite <- length_list_of_string in Hlen.
  unfold slice, slice_from. unfold name_ok in Hok.
  destruct (list_ascii_of_string name) as [|c0 [|c1 [|c2 [|c3 cs]]]];
    simpl in Hlen; try lia.
  apply Forall_cons in Hok as (H0 & (H1 & (H2 & H3)%Forall_cons)%Forall_cons).
  repeat constructor; apply simple_of_chars; simpl; try done;
    repeat (constructor; [done|]); constructor.
Qed.

Lemma slice_first_nonempty name : name ≠ "" → slice name 0 1 ≠ "".
Proof. by destruct name. Qed.

Lemma length_slice_first name : String.length (slice name 0 1) ≤ 1.
Proof. destruct name as [|c name]; simpl; lia. Qed.

End NameFacts.

(** * Facts about the calls of package [os] *)

Module OsFacts.
Import GoStrings Filepath Os PathFacts.

(** The second tree is the first one with new directories of mode 0700. *)
Definition dirs_added (t t' : gmap (list string) node) : Prop :=
  ∀ q, t' !! q = t !! q ∨ (t !! q = None ∧ t' !! q = Some (Dir true true)).

Lemma dirs_added_refl t : dirs_added t t.
Proof. intros q. by left. Qed.

Lemma dirs_added_trans t1 t2 t3 :
  dirs_added t1 t2 → dirs_added t2 t3 → dirs_added t1 t3.
Proof.
  intros H12 H23 q. destruct (H12 q) as [E1|[E1 E1']], (H23 q) as [E2|[E2 E2']].
  - left. congruence.
  - right. split; congruence.
  - right. split; congruence.
  - congruence.
Qed.

Lemma dirs_added_keeps t t' q n : dirs_added t t' → t !! q = Some n → t' !! q = Some n.
Proof. intros H Hq. destruct (H q) as [E|[E _]]; congruence. Qed.

Lemma dirs_added_file t t' q d m :
  dirs_added t t' → t' !! q = Some (File d m) ↔ t !! q = Some (File d m).
Proof. intros H. destruct (H q) as [E|[E E']]; rewrite ?E, ?E'; split; congruence. Qed.

Lemma dirs_added_none t t' q : dirs_added t t' → t' !! q = None → t !! q = None.
Proof. intros H Hq. destruct (H q) as [E|[E E']]; congruence. Qed.

(** A temporary entry that was put in before the directories came and is
    taken out after them leaves no trace. *)
Lemma dirs_added_around t ta tc q n :
  dirs_added t ta → ta !! q = None → dirs_added (<[q := n]> ta) tc →
  dirs_added t (delete q tc).
Proof.
  intros Ha Hq Hc x. destruct (decide (x = q)) as [->|Hx].
  - rewrite lookup_delete_eq. left. symmetry. by eapply dirs_added_none.
  - rewrite lookup_delete_ne by done.
    destruct (Hc x) as [E|[E E']]; rewrite lookup_insert_ne in E by done.
    + rewrite E. apply Ha.
    + right. split; [by eapply dirs_added_none|done].
Qed.

Lemma mkdir_spec p t e t' :
  mkdir p t = (e, t') →
  (e = None ∧ t !! p = None ∧ t' = <[p := Dir true true]> t) ∨ (e ≠ None ∧ t' = t).
Proof.
  unfold mkdir. destruct (t !! p) eqn:Hp; [intros [= <- <-]; by right|].
  destruct (check_parent t p); intros [= <- <-]; [by right|by left].
Qed.

Lemma mkdir_all_spec p : ∀ t e t',
  mkdir_all p t = (e, t') →
  dirs_added t t' ∧ (∀ q, t' !! q ≠ t !! q → q `suffix_of` p)
  ∧ (e = None → ∃ r x, t' !! p = Some (Dir r x)).
Proof.
  induction p as [|n up IH]; intros t e t'; simpl.
  - destruct (t !! []) as [[d m|r x]|] eqn:Hp.
    + intros [= <- <-]. split; [apply dirs_added_refl|]. by split.
    + intros [= <- <-]. split; [apply dirs_added_refl|]. split; [done|eauto].
    + intros [(-> & _ & ->)|(? & ->)]%mkdir_spec.
      * split; [|split].
        -- intros q. destruct (decide (q = [])) as [->|]; [right|left];
             by rewrite ?lookup_insert_eq, ?lookup_insert_ne.
        -- intros q Hq. destruct (decide (q = [])) as [->|]; [done|].
           by rewrite lookup_insert_ne in Hq.
        -- intros _. rewrite lookup_insert_eq. eauto.
      * split; [apply dirs_added_refl|]. by split.
  - destruct (t !! (n :: up)) as [[d m|r x]|] eqn:Hp.
    + intros [= <- <-]. split; [apply dirs_added_refl|]. by split.
    + intros [= <- <-]. split; [apply dirs_added_refl|]. split; [done|eauto].
    + destruct (mkdir_all up t) as [[e1|] t1] eqn:Hup.
      * intros [= <- <-]. destruct (IH _ _ _ Hup) as (Ha & Hs & _).
        split; [done|]. split; [|done].
        intros q Hq. by apply suffix_cons_r, Hs.
      * destruct (IH _ _ _ Hup) as (Ha & Hs & _).
        intros [(-> & Hnone & ->)|(? & ->)]%mkdir_spec.
        -- split; [|split].
           ++ intros q. destruct (decide (q = n :: up)) as [->|].
              ** right. rewrite lookup_insert_eq. done.
              ** rewrite lookup_insert_ne by done. apply Ha.
           ++ intros q Hq. destruct (decide (q = n :: up)) as [->|]; [done|].
              rewrite lookup_insert_ne in Hq by done. by apply suffix_cons_r, Hs.
           ++ intros _. rewrite lookup_insert_eq. eauto.
        -- split; [done|]. split; [|done].
           intros q Hq. by apply suffix_cons_r, Hs.
Qed.

Lemma MkdirAll_spec path w e w' :
  MkdirAll path w = (e, w') →
  cwd w' = cwd w ∧ dirs_added (tree w) (tree w')
  ∧ (∀ q, tree w' !! q ≠ tree w !! q → q `suffix_of` resolve (cwd w) path)
  ∧ (e = None → path ≠ "" ∧ ∃ r x, tree w' !! resolve (cwd w) path = Some (Dir r x)).
Proof.
  unfold MkdirAll. destruct (decide (path = "")) as [->|Hne].
  - intros [= <- <-]. split; [done|]. split; [apply dirs_added_refl|]. by split.
  - destruct (mkdir_all _ _) as [[e1|] t1] eqn:Hmk;
      destruct (mkdir_all_spec _ _ _ _ Hmk) as (Ha & Hs & Hd);
      intros [= <- <-]; simpl; repeat split; auto; done.
Qed.

Lemma digit_no_sep n : is_sep (digit n) = false.
Proof.
  unfold digit.
  assert (forallb (λ c, negb (is_sep c)) (list_ascii_of_string "0123456789") = true)
    as Hall by reflexivity.
  rewrite forallb_forall in Hall. apply negb_true_iff, Hall, nth_In.
  change (length (list_ascii_of_string "0123456789")) with 10.
  pose proof (N.mod_upper_bound n 10). lia.
Qed.

Lemma tmp_simple rnd : simple ("~tmp" +:+ suffix rnd) = true.
Proof.
  change ("~tmp" +:+ suffix rnd)
    with (String "~" (String "t" (String "m" (String "p" (suffix rnd))))).
  unfold simple. apply andb_true_intro. split.
  - apply negb_true_iff, bool_decide_eq_false. intros [H|[H|H]]; discriminate H.
  - simpl. by rewrite !digit_no_sep.
Qed.

Lemma length_tmp rnd : String.length ("~tmp" +:+ suffix rnd) = 13.
Proof. reflexivity. Qed.

Lemma TempFile_spec dir rnd now w r w' :
  dir ≠ "" →
  TempFile dir "~tmp" rnd now w = (r, w') →
  let name := Join [dir; "~tmp" +:+ suffix rnd] in
  let p := ("~tmp" +:+ suffix rnd) :: resolve (cwd w) dir in
  name ≠ "" ∧ resolve (cwd w) name = p ∧
  ((∃ e, r = inr e ∧ w' = w)
   ∨ (r = inl name ∧ tree w !! p = None ∧ check_parent (tree w) p = None
      ∧ w' = set_tree w (<[p := File [] now]> (tree w)))).
Proof.
  intros Hdir Hrun name p.
  assert (resolve (cwd w) name = p) as Hres.
  { unfold name, p. rewrite resolve_Join; [done|]. repeat constructor. apply tmp_simple. }
  split.
  { unfold name. rewrite Join_ne by done. apply Clean_nonempty. }
  split; [done|].
  unfold TempFile in Hrun. rewrite decide_False in Hrun by done.
  fold name in Hrun. rewrite Hres in Hrun.
  destruct (tree w !! p) eqn:Hp; [left; eexists; by injection Hrun as <- <-|].
  destruct (check_parent (tree w) p) eqn:Hc; [left; eexists; by injection Hrun as <- <-|].
  right. by injection Hrun as <- <-.
Qed.

Lemma Chtimes_eq name now w :
  name ≠ "" →
  Chtimes name now w
  = match tree w !! resolve (cwd w) name with
    | None => (Some (PathError "chtimes" name (Errno ENOENT)), w)
    | Some n => (None, set_tree w (<[resolve (cwd w) name := touch now n]> (tree w)))
    end.
Proof. intros Hne. unfold Chtimes, lookup_path. by rewrite decide_False. Qed.

Lemma Remove_file path w d m :
  path ≠ "" → tree w !! resolve (cwd w) path = Some (File d m) →
  check_parent (tree w) (resolve (cwd w) path) = None →
  Os.Remove path w = (None, set_tree w (delete (resolve (cwd w) path) (tree w))).
Proof.
  intros Hne Hp Hc. unfold Os.Remove. rewrite decide_False by done.
  by rewrite Hp, Hc.
Qed.

Lemma Remove_missing path w :
  tree w !! resolve (cwd w) path = None → (Os.Remove path w).2 = w.
Proof.
  intros Hp. unfold Os.Remove. destruct (decide (path = "")); [done|].
  by rewrite Hp.
Qed.

Lemma check_parent_eq t t' n up :
  t' !! up = t !! up → check_parent t' (n :: up) = check_parent t (n :: up).
Proof. intros H. simpl. by rewrite H. Qed.

Lemma lookup_path_eq w name :
  name ≠ "" → lookup_path w name = tree w !! resolve (cwd w) name.
Proof. intros Hne. unfold lookup_path. by rewrite decide_False. Qed.

End OsFacts.

(** * One call of [Create], followed through the file tree *)

Module CreateFacts.
Import GoStrings Filepath Hash Os Go PathFacts NameFacts OsFacts.
Import Filestore.

(** The [FileInfo] that [Create] builds from the bytes it has read. *)
Definition fileinfo (sniff : list byte → string) (data : list byte) : FileInfo :=
  {| Name := content_name data;
     Mimetype := sniff (take 512 data);
     Size := Z.of_nat (length data);
     CRC32 := crc32_sum32 data;
     MD5 := hex_encode (md5_sum data) |}.

(** The resolved place of a name below the prefixed root. *)
Definition blob_at (s : Store) (prefix name : string) (cwd : list string)
  : list string :=
  slice_from name 3 :: slice name 1 3 :: slice name 0 1
    :: resolve cwd (Join [root s; prefix]).

Lemma installName_resolve R name cwd :
  name_ok name → 3 < String.length name →
  resolve cwd (installName R name)
  = slice_from name 3 :: slice name 1 3 :: slice name 0 1 :: resolve cwd R.
Proof.
  intros Hok Hlen. unfold installName.
  rewrite resolve_Join by by apply slices_simple. done.
Qed.

Lemma installName_nonempty R name : R ≠ "" → installName R name ≠ "".
Proof. intros HR. unfold installName. rewrite Join_ne by done. apply Clean_nonempty. Qed.

Lemma installName_Dir R name cwd :
  R ≠ "" → name_ok name → 3 < String.length name →
  Filepath.Dir (installName R name) ≠ ""
  ∧ resolve cwd (Filepath.Dir (installName R name))
    = slice name 1 3 :: slice name 0 1 :: resolve cwd R.
Proof.
  intros HR Hok Hlen. unfold installName.
  pose proof (slices_simple _ Hok Hlen) as Hs.
  pose proof (Dir_Join R [slice name 0 1; slice name 1 3] (slice_from name 3) HR Hs) as HD.
  cbn [app] in HD. rewrite HD. split.
  - rewrite Join_ne by done. apply Clean_nonempty.
  - rewrite resolve_Join; [done|].
    by apply Forall_cons in Hs as (? & (? & _)%Forall_cons); repeat constructor.
Qed.

Lemma fullName_resolve s prefix name cwd :
  name_ok name → 27 ≤ String.length name →
  fullName s prefix name ≠ ""
  ∧ resolve cwd (fullName s prefix name) = blob_at s prefix name cwd.
Proof.
  intros Hok Hlen.
  assert (slice name 0 1 ≠ "") as Ha.
  { apply slice_first_nonempty. intros ->. simpl in Hlen. lia. }
  assert (fullName s prefix name = installName (Join [root s; prefix]) name) as ->.
  { unfold fullName, installName. by rewrite Join_Join. }
  split.
  - unfold installName. destruct (decide (Join [root s; prefix] = "")) as [->|HR].
    + rewrite Join_empty, Join_ne by done. apply Clean_nonempty.
    + by apply installName_nonempty.
  - apply installName_resolve; [done|lia].
Qed.

Lemma touch_file now n d m : touch now n = File d m → ∃ m', n = File d m'.
Proof. destruct n; simpl; [intros [= <- <-]; eauto|done]. Qed.

(** Every way a call of [Create] can end: nothing but new directories; the
    entry found at the blob's place touched; or the bytes installed at the
    vacant place. *)
Lemma Create_cases sniff s env prefix r w res w' :
  Create sniff s env prefix r w = (res, w') →
  let pn := blob_at s prefix (content_name (rd_data r)) (cwd w) in
  cwd w' = cwd w ∧
  ( ((∀ fi, res ≠ Ret fi) ∧ dirs_added (tree w) (tree w'))
  ∨ (res = Ret (fileinfo sniff (rd_data r)) ∧ rd_err r = None ∧
     ∃ t1 n, dirs_added (tree w) t1 ∧ tree w !! pn = Some n ∧
             tree w' = <[pn := touch (now env) n]> t1)
  ∨ (res = Ret (fileinfo sniff (rd_data r)) ∧ rd_err r = None ∧
     ∃ t1, dirs_added (tree w) t1 ∧ tree w !! pn = None ∧
           tree w' = <[pn := File (rd_data r) (t_write env)]> t1) ).
Proof.
  intros Hrun pn. unfold Create in Hrun.
  set (R := Join [root s; prefix]) in *.
  set (name := content_name (rd_data r)) in *.
  set (a := slice name 0 1) in *. set (b := slice name 1 3) in *.
  set (c := slice_from name 3) in *.
  set (tmpn := "~tmp" +:+ suffix (rnd env)).
  set (pr := resolve (cwd w) R) in *.
  assert (pn = c :: b :: a :: pr) as Hpn by reflexivity. clearbody pn.
  pose proof (content_name_ok (rd_data r)) as Hok. fold name in Hok.
  assert (3 < String.length name) as Hlen.
  { unfold name. rewrite length_content_name. lia. }
  destruct (MkdirAll R w) as [[e1|] w1] eqn:Hmk.
  { injection Hrun as <- <-.
    destruct (MkdirAll_spec _ _ _ _ Hmk) as (Hcwd & Hadd & _).
    split; [done|]. left. by split. }
  destruct (MkdirAll_spec _ _ _ _ Hmk) as (Hcwd1 & Hadd1 & Hsuf1 & Hdir1).
  destruct Hdir1 as [HR _]; [done|].
  destruct (TempFile R "~tmp" (rnd env) (t_write env) w1) as [[tmpfile|e2] w2] eqn:Htmp;
    destruct (TempFile_spec _ _ _ _ _ _ HR Htmp) as (Htne & Htres & Hcase);
    rewrite Hcwd1 in Htres; fold pr tmpn in Htres;
    destruct Hcase as [(e & He & ->)|(Hnm & Hfree & Hpar & ->)]; try discriminate.
  2: { injection Hrun as <- <-. split; [done|]. left. split; [|done].
       intros fi. by destruct e2. }
  pose proof (f_equal (λ x : string + error,
                match x with inl y => y | inr _ => tmpfile end) Hnm) as Htf.
  cbv beta iota in Htf. fold tmpn in Htf. clear Hnm.
  fold tmpn in Htne, Hfree, Hpar. rewrite <- Htf in Htne, Htres.
  set (t1 := tree w1) in *. set (ptmp := tmpn :: pr) in *.
  rewrite Hcwd1 in Hfree, Hpar, Hrun. fold tmpn pr ptmp in Hfree, Hpar, Hrun.
  (* the blob's place in the tree after MkdirAll *)
  assert (t1 !! pn = tree w !! pn) as Hpn1.
  { destruct (decide (t1 !! pn = tree w !! pn)) as [|Hne]; [done|].
    apply Hsuf1, suffix_length in Hne. fold pr in Hne. subst pn. simpl in Hne. lia. }
  assert (pn ≠ ptmp) as Hpt.
  { subst pn. unfold ptmp. intros H. apply (f_equal length) in H. simpl in H. lia. }
  assert (pr ≠ ptmp ∧ pr ≠ pn) as [Hrt Hrn].
  { subst pn. unfold ptmp. split; intros H; apply (f_equal length) in H; simpl in H; lia. }
  assert (∀ d, check_parent (<[ptmp := d]> t1) ptmp = None) as Hpar2.
  { intros d. unfold ptmp. erewrite check_parent_eq; [exact Hpar|].
    by rewrite lookup_insert_ne. }
  (* the deferred removal of a temporary file that is still there *)
  assert (∀ w0 d m,
            cwd w0 = cwd w → tree w0 !! ptmp = Some (File d m) →
            check_parent (tree w0) ptmp = None →
            (Os.Remove tmpfile w0).2 = set_tree w0 (delete ptmp (tree w0)))
    as Hrm.
  { intros w0 d m H0 H1 H2. erewrite Remove_file; rewrite ?H0, ?Htres; eauto. }
  destruct (Create_deferred sniff env R tmpfile r
              (set_tree w1 (<[ptmp := File [] (t_write env)]> t1)))
    as [res0 w3] eqn:Hdef.
  injection Hrun as <- <-. unfold Create_deferred in Hdef.
  destruct (if decide (length (rd_data r) < 512) then rd_err r else None) as [e3|] eqn:Hpeek.
  { injection Hdef as <- <-.
    erewrite Hrm; [|done|apply lookup_insert_eq|apply Hpar2].
    simpl. split; [done|]. left. split; [done|].
    by rewrite delete_insert_eq, delete_id. }
  unfold write_file in Hdef. cbn [tree cwd set_tree Name] in Hdef.
  change (base64_raw_url (crc32_sum (rd_data r) ++ md5_sum (rd_data r)))
    with name in Hdef.
  rewrite Hcwd1, Htres in Hdef.
  rewrite lookup_insert_eq, insert_insert_eq in Hdef.
  set (w3' := set_tree _ _) in Hdef.
  assert (cwd w3' = cwd w ∧ tree w3' = <[ptmp := File (rd_data r) (t_write env)]> t1)
    as [Hcwd3 Ht3] by done.
  clearbody w3'.
  assert (check_parent (tree w3') ptmp = None) as Hpar3 by (rewrite Ht3; apply Hpar2).
  assert (tree w3' !! ptmp = Some (File (rd_data r) (t_write env))) as Htmp3
    by (rewrite Ht3; apply lookup_insert_eq).
  assert (delete ptmp (tree w3') = t1) as Hdel3
    by (by rewrite Ht3, delete_insert_eq, delete_id).
  destruct (match write_err env with Some e => Some e | None => rd_err r end)
    as [e4|] eqn:Hwr.
  { injection Hdef as <- <-. erewrite Hrm by eauto.
    simpl. split; [done|]. left. split; [done|]. by rewrite Hdel3. }
  assert (rd_err r = None) as Hrd by by destruct (write_err env).
  destruct (close_err env) as [e5|] eqn:Hcl.
  { injection Hdef as <- <-. erewrite Hrm by eauto.
    simpl. split; [done|]. left. split; [done|]. by rewrite Hdel3. }
  rewrite Chtimes_eq in Hdef by by apply installName_nonempty.
  rewrite Hcwd3, installName_resolve in Hdef by done.
  fold a b c pr in Hdef. rewrite <- Hpn in Hdef.
  assert (tree w3' !! pn = t1 !! pn) as Hpn3 by (by rewrite Ht3, lookup_insert_ne).
  rewrite Hpn3 in Hdef.
  destruct (t1 !! pn) as [n|] eqn:Hn.
  { injection Hdef as <- <-.
    erewrite Hrm; [|done|cbn [tree set_tree]; by rewrite lookup_insert_ne|].
    2: { cbn [tree set_tree]. unfold ptmp. erewrite check_parent_eq; [exact Hpar3|].
         by rewrite lookup_insert_ne. }
    simpl. split; [done|]. right. left. split; [done|]. split; [done|].
    exists t1, n. split; [done|]. split; [congruence|].
    by rewrite delete_insert_ne, Hdel3. }
  destruct (installName_Dir R name (cwd w) HR Hok Hlen) as [Hdne Hdres].
  fold a b pr in Hdres.
  destruct (MkdirAll (Filepath.Dir (installName R name)) w3') as [e6 w4] eqn:Hmk2.
  destruct (MkdirAll_spec _ _ _ _ Hmk2) as (Hcwd4 & Hadd4 & Hsuf4 & Hdir4).
  rewrite Hcwd3 in Hcwd4. rewrite Hcwd3, Hdres in Hsuf4.
  assert (tree w4 !! ptmp = Some (File (rd_data r) (t_write env))) as Htmp4.
  { eapply dirs_added_keeps; [exact Hadd4|done]. }
  assert (check_parent (tree w4) ptmp = None) as Hpar4.
  { unfold ptmp. erewrite check_parent_eq; [exact Hpar3|].
    unfold check_parent in Hpar3. unfold ptmp in Hpar3.
    destruct (tree w3' !! pr) as [npr|] eqn:Hpr; [|done].
    eapply dirs_added_keeps; [exact Hadd4|done]. }
  assert (tree w4 !! pn = None) as Hn4.
  { destruct (decide (tree w4 !! pn = None)) as [|Hne]; [done|].
    exfalso. assert (tree w4 !! pn ≠ tree w3' !! pn) as Hd by (by rewrite Hpn3).
    apply Hsuf4, suffix_length in Hd. subst pn. simpl in Hd. lia. }
  assert (dirs_added (tree w) (delete ptmp (tree w4))) as Hfinal.
  { eapply dirs_added_around; [exact Hadd1|exact Hfree|]. by rewrite <- Ht3. }
  destruct e6 as [e6|].
  { injection Hdef as <- <-. erewrite Hrm by eauto. simpl.
    split; [done|]. left. split; [|done]. intros fi. by destruct e6. }
  unfold Rename in Hdef. rewrite decide_False in Hdef.
  2: { intros [?|?]; [done|]. by apply (installName_nonempty R name HR). }
  rewrite Hcwd4, Htres, installName_resolve in Hdef by done.
  fold a b c pr ptmp in Hdef. rewrite <- Hpn in Hdef.
  rewrite Htmp4, Hpar4, Hn4 in Hdef.
  destruct (check_parent (tree w4) pn) as [e7|] eqn:Hparn.
  { injection Hdef as <- <-. erewrite Hrm by eauto. simpl.
    split; [done|]. left. by split. }
  injection Hdef as <- <-. rewrite Remove_missing.
  2: { simpl. rewrite Hcwd4, Htres. by rewrite lookup_insert_ne, lookup_delete_eq. }
  simpl. split; [done|]. right. right. split; [done|]. split; [done|].
  exists (delete ptmp (tree w4)). split; [done|]. split; [congruence|done].
Qed.

End CreateFacts.

(** * The sweep of [Clean]: what it may touch *)

Module SweepFacts.
Import GoStrings Filepath Os Go PathFacts OsFacts.
Import Filestore.

(** A tree as a file system has it: every entry has an entry name and lies
    in a directory. *)
Definition wf_tree (t : gmap (list string) node) : Prop :=
  ∀ n p, is_Some (t !! (n :: p)) →
         simple n = true ∧ ∃ r x, t !! p = Some (Dir r x).

(** A path that is absolute and clean, as [filepath.Abs] returns it. *)
Definition abs_clean (path : string) : Prop :=
  is_rooted path = true ∧ Filepath.Clean path = path.

(** What the sweep with the limit [valid] may delete: a directory, or a
    regular file not modified after the limit. *)
Definition removable (valid : Z) (n : node) : Prop :=
  match n with File _ m => (m ≤ valid)%Z | Dir _ _ => True end.

(** The second tree is the first one without some removable entries, all of
    them in the region [P]. *)
Definition thinned (valid : Z) (P : list string → Prop)
    (t t' : gmap (list string) node) : Prop :=
  ∀ q, t' !! q = t !! q
       ∨ (P q ∧ t' !! q = None ∧ ∃ n, t !! q = Some n ∧ removable valid n).

Definition safe (valid : Z) (P : list string → Prop) (w w' : world) : Prop :=
  cwd w' = cwd w ∧ wf_tree (tree w') ∧ thinned valid P (tree w) (tree w').

Lemma safe_refl valid P w : wf_tree (tree w) → safe valid P w w.
Proof. intros Hwf. split; [done|]. split; [done|]. intros q. by left. Qed.

Lemma safe_trans valid P w1 w2 w3 :
  safe valid P w1 w2 → safe valid P w2 w3 → safe valid P w1 w3.
Proof.
  intros (Hc1 & _ & H12) (Hc2 & Hwf & H23). split; [congruence|]. split; [done|].
  intros q. destruct (H23 q) as [E2|(HP & E2 & n & Hn & Hr)].
  - rewrite E2. apply H12.
  - right. split; [done|]. split; [done|].
    destruct (H12 q) as [E1|(_ & E1 & _)]; [|congruence].
    exists n. by rewrite <- E1.
Qed.

Lemma safe_mono valid (P Q : list string → Prop) w w' :
  (∀ q, P q → Q q) → safe valid P w w' → safe valid Q w w'.
Proof.
  intros HPQ (Hc & Hwf & Ht). split; [done|]. split; [done|].
  intros q. destruct (Ht q) as [E|(HP & E)]; [by left|right; auto].
Qed.

Lemma thinned_some valid P t t' q n :
  thinned valid P t t' → t' !! q = Some n → t !! q = Some n.
Proof. intros Ht Hq. destruct (Ht q) as [E|(_ & E & _)]; congruence. Qed.

Lemma wf_simple t q : wf_tree t → is_Some (t !! q) → Forall (λ x, simple x = true) q.
Proof.
  intros Hwf. induction q as [|n p IH]; intros Hq; [constructor|].
  destruct (Hwf n p Hq) as (Hn & r & x & Hp). constructor; [done|]. apply IH. eauto.
Qed.

Lemma wf_file_leaf t p d m n : wf_tree t → t !! p = Some (File d m) → t !! (n :: p) = None.
Proof.
  intros Hwf Hp. destruct (t !! (n :: p)) eqn:Hn; [|done].
  destruct (Hwf n p) as (_ & r & x & Hd); [eauto|congruence].
Qed.

Lemma suffix_cons_case (p up : list string) n :
  p `suffix_of` n :: up → p = n :: up ∨ p `suffix_of` up.
Proof.
  intros [[|y k] E]; [by left|]. right. injection E as _ ->. by exists k.
Qed.

(** Above an entry there are directories only. *)
Lemma wf_above t q p :
  wf_tree t → is_Some (t !! q) → p `suffix_of` q → p ≠ q →
  ∃ r x, t !! p = Some (Dir r x).
Proof.
  intros Hwf. induction q as [|n up IH]; intros Hq Hs Hne.
  - apply suffix_nil_inv in Hs. congruence.
  - apply suffix_cons_case in Hs as [->|Hs]; [done|].
    destruct (Hwf n up Hq) as (_ & r & x & Hup).
    destruct (decide (p = up)) as [->|Hpu]; [eauto|]. apply IH; eauto.
Qed.

Lemma wf_delete t p : wf_tree t → (∀ n, t !! (n :: p) = None) → wf_tree (delete p t).
Proof.
  intros Hwf Hleaf n up [v Hv].
  destruct (decide (n :: up = p)) as [<-|Hne]; [by rewrite lookup_delete_eq in Hv|].
  rewrite lookup_delete_ne in Hv by done.
  destruct (Hwf n up) as (Hn & r & x & Hup); [eauto|]. split; [done|].
  exists r, x. rewrite lookup_delete_ne; [done|].
  intros <-. rewrite Hleaf in Hv. done.
Qed.

Lemma NoDup_omap_inj {A B} (f : A → option B) (l : list A) :
  (∀ x y z, f x = Some z → f y = Some z → x = y) → NoDup l → NoDup (omap f l).
Proof.
  intros Hinj. induction 1 as [|x l Hx Hl IH]; simpl; [constructor|].
  destruct (f x) as [z|] eqn:Hfx; [|done]. constructor; [|done].
  intros (y & Hy & Hfy)%list_elem_of_omap. by rewrite (Hinj x y z) in Hx.
Qed.

Lemma elem_of_children t p n : n ∈ children t p ↔ is_Some (t !! (n :: p)).
Proof.
  unfold children. rewrite merge_sort_Permutation, list_elem_of_omap. split.
  - intros (k & Hk & Hc). unfold child_of in Hc.
    destruct k as [|n' up]; [done|]. destruct (decide (up = p)) as [->|]; [|done].
    injection Hc as ->. apply list_elem_of_fmap in Hk as ([k v] & -> & Hkv).
    apply elem_of_map_to_list in Hkv. eauto.
  - intros [v Hv]. exists (n :: p). split.
    + apply list_elem_of_fmap. exists (n :: p, v). split; [done|].
      by apply elem_of_map_to_list.
    + simpl. by rewrite decide_True.
Qed.

Lemma NoDup_children t p : NoDup (children t p).
Proof.
  unfold children. rewrite merge_sort_Permutation.
  apply NoDup_omap_inj; [|apply NoDup_fst_map_to_list].
  intros [|n1 u1] [|n2 u2] z; simpl; try done.
  repeat case_decide; try done. congruence.
Qed.

Lemma children_nil t p : children t p = [] → ∀ n, t !! (n :: p) = None.
Proof.
  intros Hnil n. destruct (t !! (n :: p)) eqn:Hn; [|done].
  assert (n ∈ children t p) as Hin by (apply elem_of_children; eauto).
  rewrite Hnil in Hin. by apply elem_of_nil in Hin.
Qed.

(** [os.Remove] takes out one entry, or nothing. *)
Lemma Remove_cases path w e w' :
  Os.Remove path w = (e, w') →
  let p := resolve (cwd w) path in
  (e ≠ None ∧ w' = w)
  ∨ (e = None ∧ path ≠ "" ∧ check_parent (tree w) p = None
     ∧ w' = set_tree w (delete p (tree w))
     ∧ ∃ n, tree w !! p = Some n ∧ (IsDir n = true → ∀ x, tree w !! (x :: p) = None)).
Proof.
  intros Hrun p. unfold Os.Remove in Hrun. fold p in Hrun.
  destruct (decide (path = "")) as [|Hne]; [left; by injection Hrun as <- <-|].
  destruct (tree w !! p) as [n|] eqn:Hp; [|left; by injection Hrun as <- <-].
  destruct (check_parent (tree w) p) eqn:Hc; [left; by injection Hrun as <- <-|].
  destruct (IsDir n && negb (bool_decide (children (tree w) p = []))) eqn:Hd;
    [left; by injection Hrun as <- <-|].
  right. injection Hrun as <- <-. repeat split; try done.
  exists n. split; [done|]. intros Hn. rewrite Hn in Hd. simpl in Hd.
  apply negb_false_iff, bool_decide_eq_true in Hd. by apply children_nil.
Qed.

Lemma Remove_safe valid path w e w' :
  wf_tree (tree w) →
  (∀ n, tree w !! resolve (cwd w) path = Some n → removable valid n) →
  Os.Remove path w = (e, w') →
  safe valid (λ q, q = resolve (cwd w) path) w w'.
Proof.
  intros Hwf Hrem Hrun.
  destruct (Remove_cases _ _ _ _ Hrun) as [[_ ->]|(_ & _ & _ & -> & n & Hn & Hleaf)];
    [by apply safe_refl|].
  split; [done|]. split.
  - apply wf_delete; [done|]. intros x. destruct n as [d m|r y]; [|by apply Hleaf].
    by eapply wf_file_leaf.
  - intros q. simpl. destruct (decide (q = resolve (cwd w) path)) as [->|Hq].
    + right. rewrite lookup_delete_eq. split; [done|]. split; [done|]. eauto.
    + left. by rewrite lookup_delete_ne.
Qed.

Lemma Dir_abs_tail q :
  Forall (λ x, simple x = true) q → Filepath.Dir (abs q) = abs (tail q).
Proof.
  intros Hq. destruct q as [|n up]; [apply Dir_abs_root|].
  apply Forall_cons in Hq as [Hn Hup]. by apply Dir_abs.
Qed.

Lemma suffix_tail (x q : list string) : x `suffix_of` tail q → x `suffix_of` q.
Proof. destruct q; [done|]. apply suffix_cons_r. Qed.

(** Pruning deletes nothing but directories above the entry. *)
Lemma prune_safe valid k : ∀ q w,
  Forall (λ x, simple x = true) q → wf_tree (tree w) →
  (∀ x d m, x `suffix_of` tail q → tree w !! x ≠ Some (File d m)) →
  safe valid (λ x, x `suffix_of` tail q) w (prune k (abs q) w).
Proof.
  induction k as [|k IH]; intros q w Hq Hwf Hdirs; [by apply safe_refl|].
  simpl. rewrite Dir_abs_tail by done.
  assert (Forall (λ x, simple x = true) (tail q)) as Hq' by (by destruct Hq).
  destruct (Os.Remove (abs (tail q)) w) as [e w1] eqn:Hrm.
  assert (safe valid (λ x, x `suffix_of` tail q) w w1) as Hs1.
  { eapply safe_mono; [|eapply Remove_safe; [done| |exact Hrm]].
    - intros x ->. by rewrite resolve_abs.
    - rewrite resolve_abs by done. intros [d m|r y] Hn; [|done].
      by destruct (Hdirs (tail q) d m). }
  destruct e as [e|]; [done|].
  eapply safe_trans; [exact Hs1|].
  eapply safe_mono; [|apply IH; [done|apply Hs1|]].
  - intros x Hx. by apply suffix_tail.
  - intros x d m Hx Hf. destruct Hs1 as (_ & _ & Ht).
    apply (Hdirs x d m); [by apply suffix_tail|by eapply thinned_some].
Qed.

(** The walk function of [Clean], called for an entry of the tree, removes
    that entry when it is an old regular file, and directories above it. *)
Lemma cleanFn_safe valid q info w e w' :
  wf_tree (tree w) → Forall (λ x, simple x = true) q →
  tree w !! q = Some info →
  cleanFn valid (abs q) (Some info) None w = (e, w') →
  e = None ∧ safe valid (λ x, x `suffix_of` q) w w'.
Proof.
  intros Hwf Hq Hinfo Hrun. unfold cleanFn in Hrun.
  destruct (IsDir info || (valid <? ModTime info)%Z) eqn:Hkeep.
  { injection Hrun as <- <-. split; [done|]. by apply safe_refl. }
  apply orb_false_iff in Hkeep as [Hfile Hold].
  destruct info as [d m|r y]; [|done]. simpl in Hold. apply Z.ltb_ge in Hold.
  destruct (Os.Remove (abs q) w) as [e1 w1] eqn:Hrm.
  assert (safe valid (λ x, x `suffix_of` q) w w1) as Hs1.
  { eapply safe_mono; [|eapply Remove_safe; [done| |exact Hrm]].
    - intros x ->. by rewrite resolve_abs.
    - rewrite resolve_abs by done. intros n Hn.
      assert (n = File d m) as -> by congruence. done. }
  destruct e1 as [e1|]; [by injection Hrun as <- <-|].
  assert (e = None ∧ w' = prune 2 (abs q) w1) as [-> ->] by (by inversion Hrun).
  split; [done|]. eapply safe_trans; [exact Hs1|].
  eapply safe_mono; [|apply prune_safe; [done|apply Hs1|]].
  - intros x Hx. by apply suffix_tail.
  - intros x d' m' Hx Hf. destruct Hs1 as (_ & _ & Ht).
    pose proof (thinned_some _ _ _ _ _ _ Ht Hf) as Hf'.
    destruct (decide (x = q)) as [->|Hne]; [|].
    + destruct q as [|n up]; simpl in Hx.
      * destruct (Remove_cases _ _ _ _ Hrm) as [[Hc _]|(_ & _ & Hc & _)]; [done|].
        rewrite resolve_abs in Hc by done. done.
      * by apply suffix_cons_not in Hx.
    + destruct (wf_above (tree w) q x) as (r & y & Hd); eauto using suffix_tail.
      congruence.
Qed.

(** The region of a walk from [q]: the subtree of [q] and the directories
    above it. *)
Definition branch (q x : list string) : Prop := q `suffix_of` x ∨ x `suffix_of` q.

Lemma branch_cons n q x : branch (n :: q) x → branch q x.
Proof.
  intros [H|H]; [left; by eapply suffix_cons_l|].
  apply suffix_cons_case in H as [->|H]; [left; by apply suffix_cons_r|by right].
Qed.

Lemma branch_above q x : x `suffix_of` q → branch q x.
Proof. by right. Qed.

Lemma lookup_path_abs q w :
  Forall (λ x, simple x = true) q → lookup_path w (abs q) = tree w !! q.
Proof. intros Hq. by rewrite lookup_path_eq, resolve_abs. Qed.

Lemma Lstat_abs q w :
  Forall (λ x, simple x = true) q →
  Lstat (abs q) w
  = match tree w !! q with
    | Some n => inl n
    | None => inr (PathError "lstat" (abs q) (Errno ENOENT))
    end.
Proof. intros Hq. unfold Lstat. by rewrite lookup_path_abs. Qed.

Lemma readDirNames_abs q w :
  Forall (λ x, simple x = true) q →
  readDirNames (abs q) w
  = match tree w !! q with
    | Some (Dir true _) => (children (tree w) q, None)
    | Some (Dir false _) => ([], Some (PathError "open" (abs q) (Errno EACCES)))
    | Some (File _ _) => ([], Some (PathError "readdirent" (abs q) (Errno ENOTDIR)))
    | None => ([], Some (PathError "open" (abs q) (Errno ENOENT)))
    end.
Proof. intros Hq. unfold readDirNames. by rewrite lookup_path_abs, resolve_abs. Qed.

Lemma children_simple t q :
  wf_tree t → Forall (λ x, simple x = true) (children t q).
Proof.
  intros Hwf. apply Forall_forall. intros n Hn%elem_of_children.
  by destruct (Hwf n q Hn).
Qed.

Section WalkSafe.
Variable valid : Z.

(** A walker that keeps to the branch of the entry it is called for. *)
Definition walks_safely
    (rec : string → node → world → option (option error * world)) : Prop :=
  ∀ q info w r w',
    wf_tree (tree w) → Forall (λ x, simple x = true) q →
    tree w !! q = Some info → rec (abs q) info w = Some (r, w') →
    safe valid (branch q) w w'.

Lemma walk_names_safe rec q :
  walks_safely rec → Forall (λ x, simple x = true) q →
  ∀ names w r w',
    wf_tree (tree w) → Forall (λ x, simple x = true) names →
    walk_names (cleanFn valid) rec (abs q) names w = Some (r, w') →
    safe valid (branch q) w w'.
Proof.
  intros Hrec Hq. induction names as [|name rest IH]; intros w r w' Hwf Hnames Hrun.
  { injection Hrun as <- <-. by apply safe_refl. }
  apply Forall_cons in Hnames as [Hname Hrest].
  assert (Forall (λ x, simple x = true) (name :: q)) as Hnq by by constructor.
  cbn [walk_names] in Hrun. rewrite Join_abs, Lstat_abs in Hrun by done.
  destruct (tree w !! (name :: q)) as [fileInfo|] eqn:Hinfo.
  - destruct (rec (abs (name :: q)) fileInfo w) as [[r1 w1]|] eqn:Hr1; [|done].
    assert (safe valid (branch q) w w1) as Hs1.
    { eapply safe_mono; [apply branch_cons|]. by eapply Hrec. }
    assert (safe valid (branch q) w1 w' → safe valid (branch q) w w') as Hgo.
    { intros H. by eapply safe_trans. }
    destruct r1 as [e1|].
    + destruct (negb (IsDir fileInfo) || negb (bool_decide (e1 = SkipDir))).
      * by injection Hrun as <- <-.
      * apply Hgo. eapply IH; [apply Hs1|done|done].
    + apply Hgo. eapply IH; [apply Hs1|done|done].
  - unfold cleanFn at 1 in Hrun. rewrite decide_False in Hrun by done.
    injection Hrun as <- <-. by apply safe_refl.
Qed.

Lemma walk_safe fuel : walks_safely (walk (cleanFn valid) fuel).
Proof.
  induction fuel as [|fuel IH]; intros q info w r w' Hwf Hq Hinfo Hrun; [done|].
  cbn [walk] in Hrun. destruct (negb (IsDir info)) eqn:Hdir.
  - destruct (cleanFn valid (abs q) (Some info) None w) as [e1 w1] eqn:Hcl.
    injection Hrun as <- <-.
    destruct (cleanFn_safe _ _ _ _ _ _ Hwf Hq Hinfo Hcl) as [_ Hs].
    eapply safe_mono; [apply branch_above|done].
  - rewrite readDirNames_abs, Hinfo in Hrun by done.
    destruct info as [d m|[] y]; [done| |].
    + change (cleanFn valid (abs q) (Some (Dir true y)) None w)
        with (@None error, w) in Hrun.
      cbv beta iota zeta in Hrun.
      rewrite bool_decide_eq_false_2 in Hrun by (intros [?|?]; done).
      eapply walk_names_safe; [exact IH|done|done| |exact Hrun].
      by apply children_simple.
    + change (cleanFn valid (abs q) (Some (Dir false y))
                (Some (PathError "open" (abs q) (Errno EACCES))) w)
        with (Some (PathError "open" (abs q) (Errno EACCES)), w) in Hrun.
      cbv beta iota zeta in Hrun.
      rewrite bool_decide_eq_true_2 in Hrun by (by left).
      injection Hrun as <- <-. by apply safe_refl.
Qed.

(** Whatever [filepath.Walk] with the walk function of [Clean] returns, it
    has deleted removable entries only. *)
Lemma Walk_safe fuel root w r w' :
  wf_tree (tree w) → abs_clean root →
  Walk (cleanFn valid) fuel root w = Some (r, w') →
  safe valid (branch (resolve (cwd w) root)) w w'.
Proof.
  intros Hwf [Hrooted Hclean] Hrun.
  pose proof (resolve_rooted_simple (cwd w) root Hrooted) as Hq.
  rewrite <- Hclean, (Clean_rooted (cwd w)) in Hrun by done.
  unfold Walk in Hrun. rewrite Lstat_abs in Hrun by done.
  destruct (tree w !! resolve (cwd w) root) as [info|] eqn:Hinfo.
  - destruct (walk (cleanFn valid) fuel _ info w) as [[r1 w1]|] eqn:Hw; [|done].
    assert (w' = w1) as ->.
    { simpl in Hrun. destruct r1 as [e|]; [|congruence].
      destruct (decide (e = SkipDir)); congruence. }
    by eapply walk_safe.
  - simpl in Hrun. injection Hrun as <- <-. by apply safe_refl.
Qed.
End WalkSafe.

(** [Clean] with a positive lifetime keeps every regular file that was
    modified after [now - lifetime], whatever it returns. *)
Lemma Clean_safe s now fuel lifetime w r w' :
  (0 < lifetime)%Z → wf_tree (tree w) → abs_clean (root s) →
  Clean s now fuel lifetime w = Some (r, w') →
  safe (now - lifetime) (branch (resolve (cwd w) (root s))) w w'.
Proof.
  intros Hpos Hwf Habs Hrun. unfold Clean in Hrun.
  rewrite decide_False in Hrun by lia.
  destruct (Walk _ fuel (root s) w) as [[r1 w1]|] eqn:HW; [|done].
  assert (w' = w1) as ->.
  { destruct r1 as [e|]; [|congruence]. destruct (IsNotExist e); congruence. }
  by eapply Walk_safe.
Qed.

(** * The sweep of [Clean]: what it is sure to delete *)

(** Every directory from [q] down can be listed. *)
Definition listable_below (q : list string) (t : gmap (list string) node) : Prop :=
  ∀ x r y, q `suffix_of` x → t !! x = Some (Dir r y) → r = true.


Definition shallow (bound : nat) (t : gmap (list string) node) : Prop :=
  ∀ x, is_Some (t !! x) → length x < bound.

(** No regular file from [q] down that is as old as the limit, and whose
    directory can be written, is left. *)
Definition swept (valid : Z) (q : list string) (t t' : gmap (list string) node) : Prop :=
  ∀ x d m, q `suffix_of` x → t !! x = Some (File d m) → (m ≤ valid)%Z →
           check_parent t x = None → t' !! x = None.

Lemma suffix_same_length (l1 l2 x : list string) :
  l1 `suffix_of` x → l2 `suffix_of` x → length l1 = length l2 → l1 = l2.
Proof.
  intros [k1 ->] [k2 E] Hlen. by apply app_inj_2 in E as [_ ?].
Qed.

Lemma branch_sibling name n q x :
  n :: q `suffix_of` x → branch (name :: q) x → name = n.
Proof.
  intros Hn [H|H].
  - assert (name :: q = n :: q) as E by (by eapply suffix_same_length). congruence.
  - assert (n :: q `suffix_of` name :: q) as H' by (by etrans).
    apply suffix_cons_case in H' as [E|H']; [congruence|].
    by apply suffix_cons_not in H'.
Qed.

Lemma suffix_strict (q x : list string) :
  q `suffix_of` x → x ≠ q → ∃ n, n :: q `suffix_of` x.
Proof.
  intros [k ->] Hne. destruct (rev k) as [|n k'] eqn:Hk.
  - apply (f_equal (@rev string)) in Hk. rewrite rev_involutive in Hk. by subst.
  - apply (f_equal (@rev string)) in Hk. rewrite rev_involutive in Hk. subst k.
    exists n. exists (rev k'). simpl. by rewrite <- app_assoc.
Qed.

Lemma wf_below_file t q x d m :
  wf_tree t → t !! q = Some (File d m) → q `suffix_of` x → is_Some (t !! x) → x = q.
Proof.
  intros Hwf Hq Hs Hx. destruct (decide (x = q)) as [|Hne]; [done|].
  destruct (wf_above t x q) as (r & y & Hd); auto. congruence.
Qed.

Lemma length_le_depth t x : is_Some (t !! x) → length x ≤ depth t.
Proof.
  intros [v Hv]. unfold depth. apply max_list_elem_of_le.
  apply list_elem_of_fmap. exists x. split; [done|].
  apply list_elem_of_fmap. exists (x, v). split; [done|]. by apply elem_of_map_to_list.
Qed.

Section WalkSweeps.
Variable valid : Z.

(** An old regular file whose directory can be written is removed. *)
Lemma cleanFn_removes q d m w :
  wf_tree (tree w) → Forall (λ x, simple x = true) q →
  tree w !! q = Some (File d m) → (m ≤ valid)%Z → check_parent (tree w) q = None →
  ∃ w', cleanFn valid (abs q) (Some (File d m)) None w = (None, w')
        ∧ tree w' !! q = None.
Proof.
  intros Hwf Hq Hinfo Hold Hpar.
  destruct (cleanFn valid (abs q) (Some (File d m)) None w) as [e w'] eqn:Hcl.
  destruct (cleanFn_safe _ _ _ _ _ _ Hwf Hq Hinfo Hcl) as [-> Hsafe].
  exists w'. split; [done|].
  unfold cleanFn in Hcl. cbn [IsDir ModTime orb] in Hcl.
  rewrite (proj2 (Z.ltb_ge valid m)) in Hcl by done.
  rewrite (Remove_file (abs q) w d m) in Hcl;
    rewrite ?resolve_abs; try done.
  rewrite resolve_abs in Hcl by done.
  assert (w' = prune 2 (abs q) (set_tree w (delete q (tree w)))) as -> by congruence.
  assert (wf_tree (delete q (tree w))) as Hwf1.
  { apply wf_delete; [done|]. intros n. by eapply wf_file_leaf. }
  destruct (prune_safe valid 2 q (set_tree w (delete q (tree w))) Hq Hwf1)
    as (_ & _ & Ht).
  - intros x d' m' Hx Hf. simpl in Hf.
    assert (x ≠ q) as Hne.
    { intros ->. by rewrite lookup_delete_eq in Hf. }
    rewrite lookup_delete_ne in Hf by done.
    destruct (wf_above (tree w) q x) as (r & y & Hd); eauto using suffix_tail.
    congruence.
  - destruct (Ht q) as [E|(_ & E & _)]; [|done].
    rewrite E. simpl. apply lookup_delete_eq.
Qed.

(** A walker that, given fuel for the depth below an entry, comes back
    without an error and has swept the entry's subtree. *)
Definition sweeps (rec : string → node → world → option (option error * world))
    (fuel : nat) : Prop :=
  ∀ q info w,
    wf_tree (tree w) → Forall (λ x, simple x = true) q →
    tree w !! q = Some info → listable_below q (tree w) →
    shallow (fuel + length q) (tree w) →
    ∃ w', rec (abs q) info w = Some (None, w') ∧ swept valid q (tree w) (tree w').

Lemma walk_names_sweeps rec fuel q :
  walks_safely valid rec → sweeps rec fuel → Forall (λ x, simple x = true) q →
  ∀ names w,
    wf_tree (tree w) → NoDup names →
    (∀ n, n ∈ names → is_Some (tree w !! (n :: q))) →
    listable_below q (tree w) → shallow (fuel + S (length q)) (tree w) →
    ∃ w', walk_names (cleanFn valid) rec (abs q) names w = Some (None, w')
          ∧ ∀ n, n ∈ names → swept valid (n :: q) (tree w) (tree w').
Proof.
  intros Hsafe Hsw Hq. induction names as [|name rest IH];
    intros w Hwf Hnd Hex Hls Hsh.
  { exists w. split; [done|]. intros n Hn. by apply elem_of_nil in Hn. }
  apply NoDup_cons in Hnd as [Hfresh Hnd].
  destruct (Hex name) as [info Hinfo]; [by left|].
  assert (simple name = true) as Hname by (by destruct (Hwf name q); eauto).
  assert (Forall (λ x, simple x = true) (name :: q)) as Hnq by by constructor.
  destruct (Hsw (name :: q) info w) as (w1 & Hrun1 & Hswept1); try done.
  { intros x r y Hx. apply Hls. by eapply suffix_cons_l. }
  pose proof (Hsafe _ _ _ _ _ Hwf Hnq Hinfo Hrun1) as (Hcwd1 & Hwf1 & Ht1).
  assert (∀ n x, n ∈ rest → n :: q `suffix_of` x → tree w1 !! x = tree w !! x) as Hframe.
  { intros n x Hn Hx. destruct (Ht1 x) as [E|(Hb & _)]; [done|].
    apply (branch_sibling name n q x Hx) in Hb. by subst. }
  destruct (IH w1) as (w' & Hrun & Hswept); try done.
  { intros n Hn. rewrite (Hframe n) by done. apply Hex. by right. }
  { intros x r y Hx Hd. eapply Hls; [done|]. by eapply thinned_some. }
  { intros x [v Hv]. apply Hsh. exists v. by eapply thinned_some. }
  exists w'. split.
  { cbn [walk_names]. rewrite Join_abs, Lstat_abs, Hinfo, Hrun1 by done. exact Hrun. }
  assert (thinned valid (branch q) (tree w1) (tree w')) as Ht'.
  { eapply (walk_names_safe valid rec q Hsafe Hq rest w1 None w'); try done.
    apply Forall_forall. intros n Hn.
    destruct (Hwf n q) as [? _]; [|done]. apply Hex. by right. }
  intros n Hn x d m Hx Hf Hold Hpar.
  apply elem_of_cons in Hn as [->|Hn].
  - destruct (Ht' x) as [E|(_ & E & _)]; [|done].
    rewrite E. by eapply Hswept1.
  - apply (Hswept n Hn x d m); try done.
    + by rewrite (Hframe n).
    + destruct x as [|x0 up]; [done|].
      erewrite check_parent_eq; [exact Hpar|].
      destruct (Hwf1 x0 up) as (_ & r & y & Hup).
      { rewrite (Hframe n) by done. eauto. }
      rewrite Hup. symmetry. by eapply thinned_some.
Qed.

Lemma walk_sweeps fuel : sweeps (walk (cleanFn valid) fuel) fuel.
Proof.
  induction fuel as [|fuel IH]; intros q info w Hwf Hq Hinfo Hls Hsh.
  { pose proof (Hsh q (ex_intro _ info Hinfo)) as Hlt. simpl in Hlt. lia. }
  cbn [walk]. destruct info as [d m|r y]; simpl negb; cbv iota.
  - destruct (cleanFn valid (abs q) (Some (File d m)) None w) as [e w'] eqn:Hcl.
    destruct (cleanFn_safe _ _ _ _ _ _ Hwf Hq Hinfo Hcl) as [-> Hsafe].
    exists w'. split; [done|].
    intros x d' m' Hx Hf Hold Hpar.
    assert (x = q) as -> by (eapply wf_below_file; eauto).
    assert (d' = d ∧ m' = m) as [-> ->] by (split; congruence).
    destruct (cleanFn_removes q d m w) as (w'' & Hcl' & Hgone); try done.
    congruence.
  - assert (r = true) as -> by (by eapply (Hls q)).
    rewrite readDirNames_abs, Hinfo by done.
    change (cleanFn valid (abs q) (Some (Dir true y)) None w) with (@None error, w).
    cbv beta iota zeta.
    rewrite bool_decide_eq_false_2 by (intros [?|?]; done).
    destruct (walk_names_sweeps (walk (cleanFn valid) fuel) fuel q
                (walk_safe valid fuel) IH Hq (children (tree w) q) w)
      as (w' & Hrun & Hswept); try done.
    { apply NoDup_children. }
    { intros n Hn. by apply elem_of_children. }
    { intros x Hx. specialize (Hsh x Hx). simpl in Hsh. lia. }
    exists w'. split; [done|].
    intros x d m Hx Hf Hold Hpar.
    assert (x ≠ q) as Hne by congruence.
    destruct (suffix_strict q x Hx Hne) as [n Hn].
    apply (Hswept n) with d m; try done. apply elem_of_children.
    destruct (decide (n :: q = x)) as [->|Hnx]; [eauto|].
    destruct (wf_above (tree w) x (n :: q)) as (r & y' & Hd); eauto.
Qed.
End WalkSweeps.

(** [Clean] with a positive lifetime, on a tree whose directories below the
    root can be listed and with fuel for its depth, comes back without an
    error, having removed every old regular file whose directory can be
    written and nothing that was not removable. *)
Lemma Clean_sweeps s now fuel lifetime w :
  (0 < lifetime)%Z → wf_tree (tree w) → abs_clean (root s) →
  is_Some (tree w !! resolve (cwd w) (root s)) →
  listable_below (resolve (cwd w) (root s)) (tree w) →
  depth (tree w) < fuel →
  ∃ w', Clean s now fuel lifetime w = Some (None, w')
        ∧ swept (now - lifetime) (resolve (cwd w) (root s)) (tree w) (tree w')
        ∧ safe (now - lifetime) (branch (resolve (cwd w) (root s))) w w'.
Proof.
  intros Hpos Hwf Habs [info Hinfo] Hls Hfuel.
  pose proof Habs as [Hrooted Hclean].
  pose proof (resolve_rooted_simple (cwd w) (root s) Hrooted) as Hq.
  destruct (walk_sweeps (now - lifetime) fuel _ info w Hwf Hq Hinfo Hls)
    as (w' & Hrun & Hswept).
  { intros x Hx. apply length_le_depth in Hx. lia. }
  assert (Clean s now fuel lifetime w = Some (None, w')) as HC.
  { unfold Clean. rewrite decide_False by lia. unfold Walk.
    rewrite <- Hclean, (Clean_rooted (cwd w)) by done.
    rewrite Lstat_abs, Hinfo, Hrun by done. done. }
  exists w'. split; [done|]. split; [done|]. by eapply Clean_safe.
Qed.

(** Checks that decide the conditions above on a given tree. *)
Definition entry_ok (t : gmap (list string) node) (k : list string) : bool :=
  match k with
  | [] => true
  | n :: p => simple n && bool_decide (IsDir <$> t !! p = Some true)
  end.

Definition wf_check (t : gmap (list string) node) : bool :=
  forallb (entry_ok t) (map_to_list t).*1.



Lemma wf_check_spec t : wf_check t = true → wf_tree t.
Proof.
  unfold wf_check. rewrite forallb_forall. intros Hall n p [v Hv].
  assert (entry_ok t (n :: p) = true) as Hok.
  { apply Hall, list_elem_of_In, list_elem_of_fmap. exists (n :: p, v).
    split; [done|]. by apply elem_of_map_to_list. }
  simpl in Hok. apply andb_prop in Hok as [Hn Hp]. split; [done|].
  apply bool_decide_eq_true in Hp.
  destruct (t !! p) as [[d m|r y]|]; simpl in Hp; try done. eauto.
Qed.


Definition dir_listable (n : node) : bool :=
  match n with Dir r _ => r | File _ _ => true end.

Definition list_check (t : gmap (list string) node) : bool :=
  forallb dir_listable (map_to_list t).*2.

Lemma list_check_spec t q : list_check t = true → listable_below q t.
Proof.
  unfold list_check. rewrite forallb_forall. intros Hall x r y _ Hx.
  assert (dir_listable (Dir r y) = true) as Hok; [|done].
  apply Hall, list_elem_of_In, list_elem_of_fmap. exists (x, Dir r y).
  split; [done|]. by apply elem_of_map_to_list.
Qed.

Lemma wf_touch t p d m m' :
  wf_tree t → t !! p = Some (File d m) → wf_tree (<[p := File d m']> t).
Proof.
  intros Hwf Hp n up [v Hv].
  assert (is_Some (t !! (n :: up))) as Hin.
  { destruct (decide (n :: up = p)) as [<-|Hne]; [eauto|].
    rewrite lookup_insert_ne in Hv by done. eauto. }
  destruct (Hwf n up Hin) as (Hn & r & y & Hup). split; [done|].
  exists r, y. rewrite lookup_insert_ne; [done|]. intros <-. congruence.
Qed.

End SweepFacts.

(** * Name resolution of the store: sharding, short names, the sandbox *)

Module Resolution.
Import GoStrings Filepath Hash Os Go PathFacts NameFacts.

(** C8 (sharding determinism): for a store with a root, a name of at least
    twenty-seven characters is looked up by [Open] and [Remove], and installed
    by [Create], at the one cleaned path root/prefix/name[0]/name[1:3]/name[3:];
    when the name is made of name characters, as every content name is, the
    kernel resolves that path to the three pieces below the prefixed root. *)
Theorem sharding_determinism (s : Filestore.Store) (prefix name : string) :
  Filestore.root s ≠ "" → 27 ≤ String.length name →
  let sharded :=
    Filepath.Clean (Filestore.root s +:+ "/" +:+ prefix +:+ "/" +:+ slice name 0 1
                    +:+ "/" +:+ slice name 1 3 +:+ "/" +:+ slice_from name 3) in
  Filestore.installName (Join [Filestore.root s; prefix]) name = sharded
  ∧ Filestore.fullName s prefix name = sharded
  ∧ (name_ok name → ∀ cwd,
       resolve cwd sharded
       = [slice_from name 3; slice name 1 3; slice name 0 1]
           ++ resolve cwd (Join [Filestore.root s; prefix])).
Proof.
  intros Hroot Hlen sharded.
  assert (slice name 0 1 ≠ "") as Ha.
  { apply slice_first_nonempty. intros ->. simpl in Hlen. lia. }
  assert (Filestore.fullName s prefix name = sharded) as Hfull.
  { unfold Filestore.fullName. by rewrite Join_ne. }
  assert (Filestore.installName (Join [Filestore.root s; prefix]) name = sharded) as Hinst.
  { unfold Filestore.installName. by rewrite Join_Join. }
  repeat split; [done..|].
  intros Hok cwd. rewrite <- Hinst. unfold Filestore.installName.
  rewrite resolve_Join; [done|]. apply slices_simple; [done|lia].
Qed.

Lemma sharding_determinism_witness :
  Filestore.fullName {| Filestore.root := "/data/store" |} "img"
    "NhCmhl1BQCq8Syp2uXGdkRAXxZI"
  = "/data/store/img/N/hC/mhl1BQCq8Syp2uXGdkRAXxZI".
Proof.
  destruct (sharding_determinism {| Filestore.root := "/data/store" |} "img"
              "NhCmhl1BQCq8Syp2uXGdkRAXxZI") as (_ & H & _).
  - discriminate.
  - vm_compute. lia.
  - rewrite H. vm_compute. reflexivity.
Defined.

(** C9 (short-name rejection): a name shorter than twenty-seven characters
    makes both [Open] and [Remove] return the not-found error, whatever the
    prefix, and the file tree is the one before the call. *)
Theorem short_name_rejected (s : Filestore.Store) (now : Z) (prefix name : string)
    (w : world) :
  String.length name < 27 →
  Filestore.Open s now prefix name w = (Fail ErrNotFound, w)
  ∧ Filestore.Remove s prefix name w = (Fail ErrNotFound, w).
Proof.
  intros Hlen. unfold Filestore.Open, Filestore.Remove.
  by rewrite !decide_True.
Qed.

Lemma short_name_rejected_witness :
  Filestore.Open {| Filestore.root := "/data/store" |} 5 "img" "../../etc/passwd"
    {| cwd := []; tree := tree_of [("/", Dir true true)] |}
  = (Fail ErrNotFound, {| cwd := []; tree := tree_of [("/", Dir true true)] |}).
Proof.
  destruct (short_name_rejected {| Filestore.root := "/data/store" |} 5 "img"
              "../../etc/passwd"
              {| cwd := []; tree := tree_of [("/", Dir true true)] |}) as [H _].
  - vm_compute. lia.
  - exact H.
Defined.

(** A machine with a store at [/data/store] and files beside it. *)
Definition beside : world :=
  {| cwd := [];
     tree := tree_of
       [ ("/", Dir true true); ("/etc", Dir true true);
         ("/etc/passwd", File (list_byte_of_string "root:x:0:0") 3);
         ("/data", Dir true true); ("/data/store", Dir true true);
         ("/data/store2", Dir true true);
         ("/data/store2/secret", File (list_byte_of_string "key") 4) ] |}.

(** C2 (sandbox), evaluated where it fails.  [absPath] compares texts, so a
    sibling directory whose name starts with the root's name passes its
    check, and [Open] and [Remove] of package [httpfs] reach a file outside
    the store; [Open] of package [filestore] joins the pieces of the name
    without any check, and a long enough chain of [..] leaves the root. *)
Theorem sandbox_escape :
  let h := {| Httpfs.root := "/data/store" |} in
  let f := {| Filestore.root := "/data/store" |} in
  Httpfs.absPath h "../store2/secret" = inl "/data/store2/secret"
  ∧ ¬ inside (resolve [] "/data/store") (resolve [] "/data/store2/secret")
  ∧ (Httpfs.Open h 9 "../store2/secret" beside).1
    = Ret {| f_name := "/data/store2/secret";
             f_node := File (list_byte_of_string "key") 4 |}
  ∧ (Httpfs.Remove h "../store2/secret" beside).1 = Ret ()
  ∧ tree (Httpfs.Remove h "../store2/secret" beside).2
      !! resolve [] "/data/store2/secret" = None
  ∧ Filestore.fullName f "" "../../../../../../etc/passwd" = "/etc/passwd"
  ∧ ¬ inside (resolve [] "/data/store") (resolve [] "/etc/passwd")
  ∧ (Filestore.Open f 9 "" "../../../../../../etc/passwd" beside).1
    = Ret {| f_name := "/etc/passwd";
             f_node := File (list_byte_of_string "root:x:0:0") 3 |}.
Proof.
  cbv zeta. unfold inside.
  repeat apply conj; try (vm_compute; reflexivity);
    vm_compute; intros [k Hk]; by do 4 (destruct k as [|? k]; try discriminate).
Qed.

End Resolution.

(** * The write pipeline: atomicity, deduplication, round trip *)

Module WritePipeline.
Import GoStrings Filepath Hash Os Go PathFacts NameFacts OsFacts CreateFacts.
Import Filestore.


(** A reader that delivers [data] and then the end of the file. *)
Definition bytes_reader (data : list byte) : reader :=
  {| rd_data := data; rd_err := None |}.

Definition sniff0 (_ : list byte) : string := "application/octet-stream".

Definition store0 : Store := {| root := "/data/store" |}.

(** A machine on which [filestore.Open] has just made the store. *)
Definition fresh : world :=
  (OpenStore "/data/store" {| cwd := []; tree := tree_of [("/", Dir true true)] |}).2.

Definition env0 (k : N) (clock : Z) : create_env :=
  {| rnd := k; t_write := clock; now := clock + 1;
     write_err := None; close_err := None |}.

(** C4 (atomicity of [Create]): when [Create] returns an error, the tree
    after the call is the tree before it with, at most, new directories:
    every regular file is where it was with the bytes and the time it had,
    and no regular file has appeared, neither at the content-addressed path
    nor at the temporary file's. *)
Theorem Create_error_commits_nothing sniff s env prefix r w e w' :
  Create sniff s env prefix r w = (Fail e, w') →
  cwd w' = cwd w
  ∧ dirs_added (tree w) (tree w')
  ∧ (∀ q d m, tree w' !! q = Some (File d m) ↔ tree w !! q = Some (File d m)).
Proof.
  intros Hrun. destruct (Create_cases _ _ _ _ _ _ _ _ Hrun) as (Hcwd & Hcase).
  destruct Hcase as [[_ Hadd]|[(? & _)|(? & _)]]; try discriminate.
  split; [done|]. split; [done|]. intros q d m. by apply dirs_added_file.
Qed.

Lemma Create_error_commits_nothing_witness :
  let r := {| rd_data := list_byte_of_string "abc"; rd_err := Some (ErrStream 7) |} in
  dirs_added (tree fresh) (tree (Create sniff0 store0 (env0 5 10) "img" r fresh).2).
Proof.
  intros r.
  apply (Create_error_commits_nothing sniff0 store0 (env0 5 10) "img" r fresh
           (PathError "create" tmpfileName (ErrStream 7))
           (Create sniff0 store0 (env0 5 10) "img" r fresh).2).
  vm_compute. reflexivity.
Defined.

(** A panic of [Create] (the link error of a failed rename is asserted to be
    a path error) commits nothing either. *)
Lemma Create_panic_commits_nothing sniff s env prefix r w w' :
  Create sniff s env prefix r w = (Panic, w') →
  cwd w' = cwd w ∧ dirs_added (tree w) (tree w').
Proof.
  intros Hrun. destruct (Create_cases _ _ _ _ _ _ _ _ Hrun) as (Hcwd & Hcase).
  by destruct Hcase as [[_ Hadd]|[(? & _)|(? & _)]].
Qed.




(** What a successful [Create] leaves at the blob's place. *)
Lemma Create_leaves sniff s env prefix data w fi w1 :
  Create sniff s env prefix (bytes_reader data) w = (Ret fi, w1) →
  let pn := blob_at s prefix (content_name data) (cwd w) in
  fi = fileinfo sniff data ∧ cwd w1 = cwd w
  ∧ ((∃ n, tree w !! pn = Some n ∧ tree w1 !! pn = Some (touch (now env) n))
     ∨ (tree w !! pn = None ∧ tree w1 !! pn = Some (File data (t_write env)))).
Proof.
  intros Hrun pn. destruct (Create_cases _ _ _ _ _ _ _ _ Hrun) as (Hcwd & Hcase).
  simpl in Hcase. fold pn in Hcase.
  destruct Hcase as [[Hno _]|[(Hfi & _ & t1 & n & _ & Hn & Ht)|(Hfi & _ & t1 & _ & Hn & Ht)]].
  - by destruct (Hno fi).
  - split; [congruence|]. split; [done|]. left. exists n. split; [done|].
    by rewrite Ht, lookup_insert_eq.
  - split; [congruence|]. split; [done|]. right. split; [done|].
    by rewrite Ht, lookup_insert_eq.
Qed.

Lemma lookup_fullName s prefix data w :
  lookup_path w (fullName s prefix (content_name data))
  = tree w !! blob_at s prefix (content_name data) (cwd w).
Proof.
  destruct (fullName_resolve s prefix (content_name data) (cwd w)) as [Hne Hres].
  - apply content_name_ok.
  - rewrite length_content_name. lia.
  - by rewrite lookup_path_eq, Hres.
Qed.

(** The store after a client has used the prefix [A/AA/AANQdjNmPALIE6YAJmOz4Qn4]:
    [Create] has made that directory below the root. *)
Definition occupied : world :=
  (Create sniff0 store0 (env0 1 5) "A/AA/AANQdjNmPALIE6YAJmOz4Qn4"
     (bytes_reader (list_byte_of_string "x")) fresh).2.

(** C1 as stated fails: the content name of the empty input is
    [AAAAANQdjNmPALIE6YAJmOz4Qn4], its place in [occupied] is a directory,
    the timestamp update succeeds on it, [Create] returns the name without an
    error, and [Open] of that name answers with a permission error. *)
Lemma roundtrip_counterexample :
  let c := Create sniff0 store0 (env0 2 10) "" (bytes_reader []) occupied in
  c.1 = Ret (fileinfo sniff0 [])
  ∧ Name (fileinfo sniff0 []) = "AAAAANQdjNmPALIE6YAJmOz4Qn4"
  ∧ (Open store0 20 "" "AAAAANQdjNmPALIE6YAJmOz4Qn4" c.2).1
    = Fail (PathError "open" "AAAAANQdjNmPALIE6YAJmOz4Qn4" ErrPermission).
Proof. cbv zeta. repeat apply conj; vm_compute; reflexivity. Qed.

(** C1 (round trip), amended: when the content-addressed path of the input
    is vacant before the call, or holds a regular file with the same bytes,
    a successful [Create] is followed by a successful [Open] of the returned
    name under the same prefix, and the opened file reads back the input. *)
Theorem Create_Open_roundtrip sniff s env clock prefix data w fi w1 :
  (∀ n, lookup_path w (fullName s prefix (content_name data)) = Some n →
        ∃ m, n = File data m) →
  Create sniff s env prefix (bytes_reader data) w = (Ret fi, w1) →
  ∃ f w2, Open s clock prefix (Name fi) w1 = (Ret f, w2) ∧ ReadAll f = data.
Proof.
  intros Hpre Hrun. rewrite lookup_fullName in Hpre.
  destruct (Create_leaves _ _ _ _ _ _ _ _ Hrun) as (-> & Hcwd & Hcase).
  assert (∃ m, tree w1 !! blob_at s prefix (content_name data) (cwd w)
               = Some (File data m)) as [m Hm].
  { destruct Hcase as [(n & Hn & Hn1)|[_ Hn1]]; [|eauto].
    destruct (Hpre _ Hn) as [m ->]. eauto. }
  unfold Open. simpl Name.
  rewrite decide_False by (rewrite length_content_name; lia).
  unfold Os.Open. rewrite lookup_fullName, Hcwd, Hm. simpl.
  eexists _, _. split; [reflexivity|done].
Qed.

Lemma Create_Open_roundtrip_witness :
  let data := list_byte_of_string "hello" in
  let c := Create sniff0 store0 (env0 5 10) "img" (bytes_reader data) fresh in
  ∃ f w2, Open store0 30 "img" "NhCmhl1BQCq8Syp2uXGdkRAXxZI" c.2 = (Ret f, w2)
          ∧ ReadAll f = data.
Proof.
  intros data c.
  apply (Create_Open_roundtrip sniff0 store0 (env0 5 10) 30 "img" data fresh
           (fileinfo sniff0 data) c.2).
  - intros n Hn. vm_compute in Hn. discriminate Hn.
  - vm_compute. reflexivity.
Defined.




End WritePipeline.

(** * The garbage collector *)

Module Collector.
Import GoStrings Filepath Hash Os Go PathFacts OsFacts CreateFacts SweepFacts.
Import Filestore WritePipeline.

(** X22 (an opened blob is fresh): a successful [Open] at the clock reading
    [t0] leaves the opened regular file with its bytes and the modification
    time [t0]; and a [Clean] that follows at any clock reading [t1] with a
    positive lifetime such that [t1 - lifetime < t0], on a well-formed tree
    and a store with an absolute clean root, leaves that file in place with
    the same bytes, whatever [Clean] returns. *)
Theorem Open_refreshes_mtime s t0 prefix name w f w1 :
  Open s t0 prefix name w = (Ret f, w1) →
  lookup_path w1 (fullName s prefix name) = Some (File (ReadAll f) t0)
  ∧ ∀ t1 lifetime fuel r w2,
      wf_tree (tree w) → abs_clean (root s) →
      (0 < lifetime)%Z → (t1 - lifetime < t0)%Z →
      Clean s t1 fuel lifetime w1 = Some (r, w2) →
      lookup_path w2 (fullName s prefix name) = Some (File (ReadAll f) t0).
Proof.
  intros Hrun. unfold Open in Hrun.
  destruct (decide (String.length name < 27)) as [|Hlong]; [done|].
  unfold Os.Open in Hrun.
  destruct (lookup_path w (fullName s prefix name)) as [n|] eqn:Hn; [|done].
  simpl in Hrun. destruct n as [d m|r y]; [|done]. simpl in Hrun.
  assert (fullName s prefix name ≠ "") as Hne.
  { intros E. unfold lookup_path in Hn. by rewrite E in Hn. }
  rewrite lookup_path_eq in Hn by done.
  rewrite Chtimes_eq, Hn in Hrun by done. simpl in Hrun.
  injection Hrun as <- <-. simpl.
  set (p := resolve (cwd w) (fullName s prefix name)) in *.
  assert (lookup_path (set_tree w (<[p := File d t0]> (tree w))) (fullName s prefix name)
          = Some (File d t0)) as H1.
  { rewrite lookup_path_eq by done. simpl. fold p. apply lookup_insert_eq. }
  split; [done|].
  intros t1 lifetime fuel r w2 Hwf Habs Hpos Hfresh HC.
  apply Clean_safe in HC as (Hcwd & _ & Ht); try done.
  2: { simpl. by eapply wf_touch. }
  rewrite lookup_path_eq, Hcwd by done. simpl. fold p.
  destruct (Ht p) as [E|(_ & _ & n & Hp & Hrem)].
  - rewrite E. simpl. apply lookup_insert_eq.
  - simpl in Hp. rewrite lookup_insert_eq in Hp. injection Hp as <-.
    simpl in Hrem. lia.
Qed.

(** A store holding the one blob [hello], written at the clock reading 10. *)
Definition one_blob : world :=
  (Create sniff0 store0 (env0 5 10) "" (bytes_reader (list_byte_of_string "hello")) fresh).2.

Lemma Open_refreshes_mtime_witness :
  let w1 := (Open store0 500 "" "NhCmhl1BQCq8Syp2uXGdkRAXxZI" one_blob).2 in
  let w2 := match Clean store0 700 9 300 w1 with Some (_, w) => w | None => w1 end in
  lookup_path w2 "/data/store/N/hC/mhl1BQCq8Syp2uXGdkRAXxZI"
  = Some (File (list_byte_of_string "hello") 500).
Proof.
  intros w1 w2.
  destruct (Open_refreshes_mtime store0 500 "" "NhCmhl1BQCq8Syp2uXGdkRAXxZI" one_blob
              {| f_name := "/data/store/N/hC/mhl1BQCq8Syp2uXGdkRAXxZI";
                 f_node := File (list_byte_of_string "hello") 10 |} w1) as [_ H].
  - vm_compute. reflexivity.
  - apply (H 700%Z 300%Z 9 None w2).
    + apply wf_check_spec. vm_compute. reflexivity.
    + split; vm_compute; reflexivity.
    + lia.
    + lia.
    + vm_compute. reflexivity.
Defined.

(** The store with one old blob in a shard directory that cannot be
    written. *)
Definition locked : world :=
  {| cwd := [];
     tree := tree_of
       [ ("/", Dir true true); ("/data", Dir true true);
         ("/data/store", Dir true true); ("/data/store/N", Dir true true);
         ("/data/store/N/hC", Dir true false);
         ("/data/store/N/hC/mhl1BQCq8Syp2uXGdkRAXxZI",
          File (list_byte_of_string "hello") 10) ] |}.

(** The sweep takes directories too, and passes over what it cannot remove:
    after the one old blob of [one_blob] is deleted, its two shard
    directories are deleted as well; and in [locked] the old blob cannot be
    removed, [Clean] passes over it and reports success. *)
Lemma age_filter_counterexample :
  (lookup_path one_blob "/data/store/N/hC" = Some (Dir true true)
   ∧ ∃ w', Clean store0 100 9 50 one_blob = Some (None, w')
           ∧ lookup_path w' "/data/store/N/hC" = None
           ∧ lookup_path w' "/data/store/N" = None)
  ∧ Clean store0 100 9 50 locked = Some (None, locked)
  ∧ lookup_path locked "/data/store/N/hC/mhl1BQCq8Syp2uXGdkRAXxZI"
    = Some (File (list_byte_of_string "hello") 10).
Proof.
  split; [split|split].
  - vm_compute. reflexivity.
  - eexists. split; [vm_compute; reflexivity|].
    split; vm_compute; reflexivity.
  - vm_compute. reflexivity.
  - vm_compute. reflexivity.
Qed.




(** The store with a directory that cannot be listed beside the shard of an
    old blob. *)
Definition blocked : world :=
  {| cwd := [];
     tree := tree_of
       [ ("/", Dir true true); ("/data", Dir true true);
         ("/data/store", Dir true true); ("/data/store/A", Dir false true);
         ("/data/store/N", Dir true true); ("/data/store/N/hC", Dir true true);
         ("/data/store/N/hC/mhl1BQCq8Syp2uXGdkRAXxZI",
          File (list_byte_of_string "hello") 10) ] |}.

(** An error of the walk ends the sweep: the walk reports the directory [A]
    with the error of listing it, the walk function returns that error, the walk stops there,
    [Clean] returns the error, and the old blob that comes after [A] in the
    walk is still in the store. *)
Lemma walk_error_counterexample :
  Clean store0 100 9 50 blocked
  = Some (Some (PathError "open" "/data/store/A" (Errno EACCES)), blocked)
  ∧ lookup_path blocked "/data/store/N/hC/mhl1BQCq8Syp2uXGdkRAXxZI"
    = Some (File (list_byte_of_string "hello") 10)
  ∧ (10 ≤ 100 - 50)%Z.
Proof.
  split; [vm_compute; reflexivity|]. split; [vm_compute; reflexivity|lia].
Qed.

(** X21 (what the sweep tolerates): during an age-filtered [Clean]
    a failure to remove an entry does not end the sweep: on a well-formed
    tree whose directories from the root down can be listed, with fuel for
    its depth, [Clean] succeeds and has deleted every old regular file whose
    directory can be written, whatever could not be removed before it.  An
    error that the walk reports for an entry is returned by the walk
    function, ends the walk of the names after it, and is returned by
    [Clean], as success when it is a not-exist error. *)
Theorem Clean_tolerates_removal_failures s now fuel lifetime w :
  (0 < lifetime)%Z →
  let valid := (now - lifetime)%Z in
  let pr := resolve (cwd w) (root s) in
  (wf_tree (tree w) → abs_clean (root s) → is_Some (tree w !! pr) →
   listable_below pr (tree w) → depth (tree w) < fuel →
   ∃ w', Clean s now fuel lifetime w = Some (None, w')
     ∧ (∀ x d m, inside pr x → tree w !! x = Some (File d m) → (m ≤ valid)%Z →
                 check_parent (tree w) x = None → tree w' !! x = None)
     ∧ (∀ x d m, tree w !! x = Some (File d m) → (valid < m)%Z →
                 tree w' !! x = Some (File d m)))
  ∧ (∀ filename info e w0,
       cleanFn valid filename info (Some e) w0 = (Some e, w0))
  ∧ (∀ rec path name rest info e w0 w1,
       Lstat (Join [path; name]) w0 = inl info →
       rec (Join [path; name]) info w0 = Some (Some e, w1) → e ≠ SkipDir →
       walk_names (cleanFn valid) rec path (name :: rest) w0 = Some (Some e, w1))
  ∧ (∀ e w',
       Walk (cleanFn valid) fuel (root s) w = Some (Some e, w') →
       Clean s now fuel lifetime w
       = Some (if IsNotExist e then None else Some e, w')).
Proof.
  intros Hpos valid pr. split; [|split; [|split]].
  - intros Hwf Habs Hroot Hls Hfuel.
    destruct (Clean_sweeps s now fuel lifetime w) as (w' & HC & Hswept & Hsafe);
      eauto.
    destruct Hsafe as (Hcwd & Hwf' & Ht). fold pr valid in Hswept, Ht.
    exists w'. split; [done|]. split; [exact Hswept|].
    intros x d m Hf Hnew. destruct (Ht x) as [E|(_ & _ & n & Hn & Hrem)].
    + by rewrite E.
    + assert (n = File d m) as -> by congruence. simpl in Hrem. lia.
  - done.
  - intros rec path name rest info e w0 w1 Hl Hrec He. cbn [walk_names].
    rewrite Hl, Hrec.
    rewrite (bool_decide_eq_false_2 (e = SkipDir)) by done.
    by rewrite orb_true_r.
  - intros e w' HW. unfold Clean. rewrite decide_False by lia.
    fold valid. rewrite HW. by destruct (IsNotExist e).
Qed.

(** The store with two old blobs, the first in a directory that cannot be
    written. *)
Definition half_locked : world :=
  {| cwd := [];
     tree := tree_of
       [ ("/", Dir true true); ("/data", Dir true true);
         ("/data/store", Dir true true); ("/data/store/A", Dir true false);
         ("/data/store/A/old", File (list_byte_of_string "kept") 7);
         ("/data/store/N", Dir true true); ("/data/store/N/hC", Dir true true);
         ("/data/store/N/hC/mhl1BQCq8Syp2uXGdkRAXxZI",
          File (list_byte_of_string "hello") 10) ] |}.

Lemma Clean_tolerates_removal_failures_witness :
  ∃ w', Clean store0 100 9 50 half_locked = Some (None, w')
        ∧ tree w' !! resolve [] "/data/store/N/hC/mhl1BQCq8Syp2uXGdkRAXxZI" = None.
Proof.
  destruct (Clean_tolerates_removal_failures store0 100 9 50 half_locked)
    as [H _]; [lia|].
  destruct H as (w' & HC & Hold & _).
  - apply wf_check_spec. vm_compute. reflexivity.
  - split; vm_compute; reflexivity.
  - vm_compute. eauto.
  - apply list_check_spec. vm_compute. reflexivity.
  - vm_compute. lia.
  - exists w'. split; [exact HC|].
    apply (Hold _ (list_byte_of_string "hello") 10%Z).
    + exists [ "mhl1BQCq8Syp2uXGdkRAXxZI"; "hC"; "N" ]. vm_compute. reflexivity.
    + vm_compute. reflexivity.
    + lia.
    + vm_compute. reflexivity.
Defined.

(** The walk function of package [httpfs] is that of package [filestore]. *)
Lemma Httpfs_cleanFn valid filename info err w :
  Httpfs.cleanFn valid filename info err w = cleanFn valid filename info err w.
Proof.
  unfold Httpfs.cleanFn, cleanFn. destruct err, info as [[d m|r y]|]; try done.
Qed.

End Collector.

(** * The fingerprints in a content name *)

Module Fingerprint.
Import GoStrings Filepath Hash Os Go PathFacts NameFacts OsFacts CreateFacts.
Import Filestore WritePipeline.

Lemma lxor_below a b n : (a < 2 ^ n → b < 2 ^ n → N.lxor a b < 2 ^ n)%N.
Proof.
  intros Ha Hb. destruct (N.eq_dec (N.lxor a b) 0%N) as [E|Hne]; [rewrite E; lia|].
  apply N.log2_lt_pow2; [lia|].
  pose proof (N.log2_lxor a b) as Hl.
  destruct (N.eq_dec a 0%N) as [->|Ha0], (N.eq_dec b 0%N) as [->|Hb0].
  - by rewrite N.lxor_0_l in Hne.
  - rewrite N.lxor_0_l. apply N.log2_lt_pow2; lia.
  - rewrite N.lxor_0_r. apply N.log2_lt_pow2; lia.
  - apply N.log2_lt_pow2 in Ha, Hb; lia.
Qed.

Lemma shiftr_below c k n : (c < 2 ^ n → N.shiftr c k < 2 ^ n)%N.
Proof.
  intros Hc. rewrite N.shiftr_div_pow2.
  eapply N.le_lt_trans; [|exact Hc].
  apply N.Div0.div_le_upper_bound.
  pose proof (N.pow_nonzero 2 k). nia.
Qed.

Lemma crc_bit_below c : (c < 2 ^ 32 → crc_bit c < 2 ^ 32)%N.
Proof.
  intros Hc. unfold crc_bit. destruct (N.testbit c 0).
  - apply lxor_below; [by apply shiftr_below|reflexivity].
  - by apply shiftr_below.
Qed.

Lemma to_N_below b n : (8 ≤ n → Byte.to_N b < 2 ^ n)%N.
Proof.
  intros Hn. pose proof (Byte.to_N_bounded b).
  assert (2 ^ 8 ≤ 2 ^ n)%N by (apply N.pow_le_mono_r; lia).
  change (2 ^ 8)%N with 256%N in *. lia.
Qed.

Lemma crc_byte_below c b : (c < 2 ^ 32 → crc_byte c b < 2 ^ 32)%N.
Proof.
  intros Hc. unfold crc_byte.
  assert (N.lxor c (Byte.to_N b) < 2 ^ 32)%N as H
    by (apply lxor_below; [done|apply to_N_below; lia]).
  revert H. generalize (N.lxor c (Byte.to_N b)). intros x Hx.
  cbn [Nat.iter nat_rect]. by do 8 apply crc_bit_below.
Qed.

(** The checksum is a 32-bit word. *)
Lemma crc32_below data : (crc32_sum32 data < 2 ^ 32)%N.
Proof.
  unfold crc32_sum32. apply lxor_below; [|reflexivity].
  assert (0xffffffff < 2 ^ 32)%N as H by reflexivity.
  revert H. generalize 0xffffffff%N. induction data as [|b data IH]; intros c Hc.
  - done.
  - simpl. by apply IH, crc_byte_below.
Qed.

Lemma to_N_inj x y : Byte.to_N x = Byte.to_N y → x = y.
Proof.
  intros H. apply (f_equal Byte.of_N) in H. rewrite !Byte.of_to_N in H.
  by injection H.
Qed.

Lemma to_N_byte_of_N n : Byte.to_N (byte_of_N n) = (n mod 256)%N.
Proof.
  unfold byte_of_N. destruct (Byte.of_N (n mod 256)) as [b|] eqn:E.
  - by apply Byte.to_of_N.
  - apply Byte.of_N_None_iff in E. pose proof (N.mod_upper_bound n 256). lia.
Qed.


Lemma NoDup_nth_inj (l : list ascii) d i j :
  NoDup l → i < length l → j < length l → nth i l d = nth j l d → i = j.
Proof.
  intros Hl Hi Hj H.
  destruct (lookup_lt_is_Some_2 l i Hi) as [x Hx].
  destruct (lookup_lt_is_Some_2 l j Hj) as [y Hy].
  rewrite (nth_lookup_Some _ _ d _ Hx), (nth_lookup_Some _ _ d _ Hy) in H. subst y.
  by eapply NoDup_alt.
Qed.

Lemma NoDup_url_alphabet : NoDup url_alphabet.
Proof. apply (bool_decide_unpack _). vm_compute. exact I. Qed.

Lemma b64_char_inj n m : b64_char n = b64_char m → (n mod 64 = m mod 64)%N.
Proof.
  unfold b64_char. intros H.
  pose proof (N.mod_upper_bound n 64) as Hn. pose proof (N.mod_upper_bound m 64) as Hm.
  apply NoDup_nth_inj in H; [lia|apply NoDup_url_alphabet| |];
    change (length url_alphabet) with 64; lia.
Qed.

Lemma NoDup_hex_digits : NoDup (list_ascii_of_string "0123456789abcdef").
Proof. apply (bool_decide_unpack _). vm_compute. exact I. Qed.

Lemma hex_digit_inj n m : hex_digit n = hex_digit m → (n mod 16 = m mod 16)%N.
Proof.
  unfold hex_digit. intros H.
  pose proof (N.mod_upper_bound n 16) as Hn. pose proof (N.mod_upper_bound m 16) as Hm.
  apply NoDup_nth_inj in H; [lia|apply NoDup_hex_digits| |];
    change (length _) with 16; lia.
Qed.

Lemma sextets v :
  (v < 2 ^ 24 →
   v = N.shiftr v 18 mod 64 * 262144 + N.shiftr v 12 mod 64 * 4096
       + N.shiftr v 6 mod 64 * 64 + v mod 64)%N.
Proof.
  intros Hv. rewrite !N.shiftr_div_pow2.
  change (2 ^ 24)%N with 16777216%N in Hv. change (2 ^ 18)%N with (64 * 64 * 64)%N.
  change (2 ^ 12)%N with (64 * 64)%N. change (2 ^ 6)%N with 64%N.
  rewrite <- !N.Div0.div_div.
  pose proof (N.div_mod' v 64) as H0.
  pose proof (N.div_mod' (v / 64) 64) as H1.
  pose proof (N.div_mod' (v / 64 / 64) 64) as H2.
  pose proof (N.div_mod' (v / 64 / 64 / 64) 64) as H3.
  pose proof (N.mod_upper_bound v 64).
  pose proof (N.mod_upper_bound (v / 64) 64).
  pose proof (N.mod_upper_bound (v / 64 / 64) 64).
  pose proof (N.mod_upper_bound (v / 64 / 64 / 64) 64).
  set (q1 := (v / 64)%N) in *. set (q2 := (q1 / 64)%N) in *.
  set (q3 := (q2 / 64)%N) in *. set (q4 := (q3 / 64)%N) in *.
  set (d0 := (v mod 64)%N) in *. set (d1 := (q1 mod 64)%N) in *.
  set (d2 := (q2 mod 64)%N) in *. set (d3 := (q3 mod 64)%N) in *.
  clearbody q1 q2 q3 q4 d0 d1 d2 d3.
  lia.
Qed.

Lemma sextets_inj v v' :
  (v < 2 ^ 24 → v' < 2 ^ 24 →
   N.shiftr v 18 mod 64 = N.shiftr v' 18 mod 64 →
   N.shiftr v 12 mod 64 = N.shiftr v' 12 mod 64 →
   N.shiftr v 6 mod 64 = N.shiftr v' 6 mod 64 →
   v mod 64 = v' mod 64 → v = v')%N.
Proof.
  intros Hv Hv' H3 H2 H1 H0.
  rewrite (sextets v Hv), (sextets v' Hv'). congruence.
Qed.


Lemma octets v :
  (v < 2 ^ 32 →
   v = N.shiftr v 24 mod 256 * 16777216 + N.shiftr v 16 mod 256 * 65536
       + N.shiftr v 8 mod 256 * 256 + v mod 256)%N.
Proof.
  intros Hv. rewrite !N.shiftr_div_pow2.
  change (2 ^ 32)%N with 4294967296%N in Hv. change (2 ^ 24)%N with (256 * 256 * 256)%N.
  change (2 ^ 16)%N with (256 * 256)%N. change (2 ^ 8)%N with 256%N.
  rewrite <- !N.Div0.div_div.
  pose proof (N.div_mod' v 256) as H0.
  pose proof (N.div_mod' (v / 256) 256) as H1.
  pose proof (N.div_mod' (v / 256 / 256) 256) as H2.
  pose proof (N.div_mod' (v / 256 / 256 / 256) 256) as H3.
  pose proof (N.mod_upper_bound v 256).
  pose proof (N.mod_upper_bound (v / 256) 256).
  pose proof (N.mod_upper_bound (v / 256 / 256) 256).
  pose proof (N.mod_upper_bound (v / 256 / 256 / 256) 256).
  set (q1 := (v / 256)%N) in *. set (q2 := (q1 / 256)%N) in *.
  set (q3 := (q2 / 256)%N) in *. set (q4 := (q3 / 256)%N) in *.
  set (d0 := (v mod 256)%N) in *. set (d1 := (q1 mod 256)%N) in *.
  set (d2 := (q2 mod 256)%N) in *. set (d3 := (q3 mod 256)%N) in *.
  clearbody q1 q2 q3 q4 d0 d1 d2 d3.
  lia.
Qed.

(** The four bytes of a 32-bit word give the word back. *)
Lemma be32_inj x y : (x < 2 ^ 32)%N → (y < 2 ^ 32)%N → be32 x = be32 y → x = y.
Proof.
  intros Hx Hy H. unfold be32 in H. injection H as H3 H2 H1 H0.
  apply (f_equal Byte.to_N) in H3, H2, H1, H0.
  rewrite !to_N_byte_of_N in H3, H2, H1, H0.
  rewrite (octets x Hx), (octets y Hy). congruence.
Qed.

Definition group (x y z : byte) : N :=
  (Byte.to_N x * 65536 + Byte.to_N y * 256 + Byte.to_N z)%N.

Lemma group_below x y z : (group x y z < 2 ^ 24)%N.
Proof.
  unfold group. pose proof (Byte.to_N_bounded x). pose proof (Byte.to_N_bounded y).
  pose proof (Byte.to_N_bounded z). change (2 ^ 24)%N with 16777216%N. lia.
Qed.

Lemma group_inj x y z x' y' z' :
  group x y z = group x' y' z' → x = x' ∧ y = y' ∧ z = z'.
Proof.
  unfold group. intros H.
  pose proof (Byte.to_N_bounded x). pose proof (Byte.to_N_bounded y).
  pose proof (Byte.to_N_bounded z). pose proof (Byte.to_N_bounded x').
  pose proof (Byte.to_N_bounded y'). pose proof (Byte.to_N_bounded z').
  repeat split; apply to_N_inj; lia.
Qed.

Lemma group_two x y : (Byte.to_N x * 65536 + Byte.to_N y * 256)%N = group x y Byte.x00.
Proof. unfold group. change (Byte.to_N "000"%byte) with 0%N. lia. Qed.

Lemma group_one x : (Byte.to_N x * 65536)%N = group x Byte.x00 Byte.x00.
Proof. unfold group. change (Byte.to_N "000"%byte) with 0%N. lia. Qed.

Lemma group_low0 x y : (group x y Byte.x00 mod 64 = 0)%N.
Proof.
  unfold group. change (Byte.to_N "000"%byte) with 0%N.
  replace (Byte.to_N x * 65536 + Byte.to_N y * 256 + 0)%N
    with ((Byte.to_N x * 1024 + Byte.to_N y * 4) * 64)%N by lia.
  apply N.Div0.mod_mul.
Qed.

Lemma group_low1 x : (N.shiftr (group x Byte.x00 Byte.x00) 6 mod 64 = 0)%N.
Proof.
  unfold group. change (Byte.to_N "000"%byte) with 0%N.
  rewrite N.shiftr_div_pow2. change (2 ^ 6)%N with 64%N.
  replace (Byte.to_N x * 65536 + 0 * 256 + 0)%N
    with ((Byte.to_N x * 1024) * 64)%N by lia.
  rewrite N.div_mul by done.
  replace (Byte.to_N x * 1024)%N with ((Byte.to_N x * 16) * 64)%N by lia.
  apply N.Div0.mod_mul.
Qed.

(** The unpadded base-64 text determines the bytes. *)
Lemma b64_chars_inj : ∀ l l', b64_chars l = b64_chars l' → l = l'.
Proof.
  fix IH 1.
  intros [|x [|y [|z rest]]] [|x' [|y' [|z' rest']]] H;
    cbn [b64_chars] in H; cbv zeta in H; try discriminate H.
  - done.
  - rewrite !group_one in H. injection H as H3 H2.
    apply b64_char_inj in H3, H2.
    destruct (group_inj x Byte.x00 Byte.x00 x' Byte.x00 Byte.x00) as (-> & _); [|done].
    apply sextets_inj; try apply group_below; try done.
    + by rewrite !group_low1.
    + by rewrite !group_low0.
  - rewrite !group_two in H. injection H as H3 H2 H1.
    apply b64_char_inj in H3, H2, H1.
    destruct (group_inj x y Byte.x00 x' y' Byte.x00) as (-> & -> & _); [|done].
    apply sextets_inj; try apply group_below; try done.
    by rewrite !group_low0.
  - fold (group x y z) in H. fold (group x' y' z') in H.
    injection H as H3 H2 H1 H0 Hrest.
    apply b64_char_inj in H3, H2, H1, H0. apply IH in Hrest as ->.
    destruct (group_inj x y z x' y' z') as (-> & -> & ->); [|done].
    apply sextets_inj; try apply group_below; done.
Qed.

Lemma string_of_list_inj l l' : string_of_list_ascii l = string_of_list_ascii l' → l = l'.
Proof.
  intros H. apply (f_equal list_ascii_of_string) in H.
  by rewrite !list_ascii_of_string_of_list_ascii in H.
Qed.

(** The hexadecimal text determines the bytes. *)
Lemma hex_encode_inj : ∀ l l', hex_encode l = hex_encode l' → l = l'.
Proof.
  intros l l' H. apply string_of_list_inj in H. revert l' H.
  induction l as [|b l IH]; intros [|b' l'] H; simpl in H; try discriminate H.
  - done.
  - injection H as H1 H0 Hrest. apply IH in Hrest as ->.
    apply hex_digit_inj in H1, H0. f_equal. apply to_N_inj.
    pose proof (Byte.to_N_bounded b). pose proof (Byte.to_N_bounded b').
    pose proof (N.div_mod' (Byte.to_N b) 16). pose proof (N.div_mod' (Byte.to_N b') 16).
    pose proof (N.div_mod' (Byte.to_N b / 16) 16).
    pose proof (N.div_mod' (Byte.to_N b' / 16) 16).
    pose proof (N.mod_upper_bound (Byte.to_N b) 16).
    pose proof (N.mod_upper_bound (Byte.to_N b') 16).
    set (q := (Byte.to_N b / 16)%N) in *. set (q' := (Byte.to_N b' / 16)%N) in *.
    set (r := (q / 16)%N) in *. set (r' := (q' / 16)%N) in *.
    set (d := (q mod 16)%N) in *. set (d' := (q' mod 16)%N) in *.
    set (e := (Byte.to_N b mod 16)%N) in *. set (e' := (Byte.to_N b' mod 16)%N) in *.
    clearbody q q' r r' d d' e e'. lia.
Qed.

Lemma length_hex_encode bs : String.length (hex_encode bs) = 2 * length bs.
Proof.
  unfold hex_encode. rewrite length_string_of_list.
  induction bs as [|b bs IH]; simpl; lia.
Qed.

Lemma Create_reports sniff s env prefix r w fi w' :
  Create sniff s env prefix r w = (Ret fi, w') →
  fi = fileinfo sniff (rd_data r) ∧ rd_err r = None.
Proof.
  intros Hrun. destruct (Create_cases _ _ _ _ _ _ _ _ Hrun) as (_ & Hcase).
  destruct Hcase as [[Hno _]|[(E & ? & _)|(E & ? & _)]];
    [by destruct (Hno fi)|by injection E|by injection E].
Qed.

(** X1 (what a successful [Create] reports): the reader ended without an
    error; the name is the content name of the bytes read: twenty-seven
    characters of the URL-safe alphabet, neither a separator nor a dot among
    them, so that [Open] and [Remove] do not turn it down as too short; the
    size is the number of bytes; the checksum is a 32-bit word; and the digest
    is written with thirty-two hexadecimal digits. *)
Theorem Create_fileinfo sniff s env prefix r w fi w' :
  Create sniff s env prefix r w = (Ret fi, w') →
  rd_err r = None
  ∧ fi = fileinfo sniff (rd_data r)
  ∧ String.length (Name fi) = 27 ∧ name_ok (Name fi)
  ∧ (∀ t p w0, Open s t p (Name fi) w0 ≠ (Fail ErrNotFound, w0))
  ∧ Size fi = Z.of_nat (length (rd_data r))
  ∧ (CRC32 fi < 2 ^ 32)%N
  ∧ String.length (MD5 fi) = 32.
Proof.
  intros [-> Hrd]%Create_reports.
  cbn [fileinfo Name Size CRC32 MD5].
  repeat split; try done.
  - apply length_content_name.
  - apply content_name_ok.
  - intros t p w0. unfold Open. rewrite length_content_name.
    rewrite decide_False by lia. unfold Os.Open.
    destruct (lookup_path w0 _) as [[d m|rd wr]|]; simpl; congruence.
  - apply crc32_below.
  - by rewrite length_hex_encode, length_md5_sum.
Qed.

Lemma Create_fileinfo_witness :
  String.length (Name (fileinfo sniff0 (list_byte_of_string "hello"))) = 27.
Proof.
  destruct (Create_fileinfo sniff0 store0 (env0 5 10) "img"
              (bytes_reader (list_byte_of_string "hello")) fresh
              (fileinfo sniff0 (list_byte_of_string "hello"))
              (Create sniff0 store0 (env0 5 10) "img"
                 (bytes_reader (list_byte_of_string "hello")) fresh).2)
    as (_ & _ & H & _).
  - vm_compute. reflexivity.
  - exact H.
Defined.

(** X2 (the name is the fingerprint): two successful calls of [Create]
    report the same name exactly when they report the same checksum and the
    same digest: the name is a lossless encoding of the two. *)
Theorem name_is_fingerprint sniff1 s1 env1 prefix1 r1 w1 fi1 w1'
    sniff2 s2 env2 prefix2 r2 w2 fi2 w2' :
  Create sniff1 s1 env1 prefix1 r1 w1 = (Ret fi1, w1') →
  Create sniff2 s2 env2 prefix2 r2 w2 = (Ret fi2, w2') →
  Name fi1 = Name fi2 ↔ CRC32 fi1 = CRC32 fi2 ∧ MD5 fi1 = MD5 fi2.
Proof.
  intros [-> _]%Create_reports [-> _]%Create_reports.
  cbn [fileinfo Name CRC32 MD5]. split.
  - unfold content_name, base64_raw_url.
    intros H%string_of_list_inj%b64_chars_inj.
    apply app_inj_1 in H as [Hc Hm]; [|done].
    split; [|by rewrite Hm].
    apply be32_inj; [apply crc32_below|apply crc32_below|done].
  - intros [Hc Hm%hex_encode_inj]. unfold content_name, crc32_sum.
    by rewrite Hc, Hm.
Qed.

Lemma name_is_fingerprint_witness :
  Name (fileinfo sniff0 (list_byte_of_string "hello"))
  = Name (fileinfo sniff0 (list_byte_of_string "abc"))
  ↔ CRC32 (fileinfo sniff0 (list_byte_of_string "hello"))
    = CRC32 (fileinfo sniff0 (list_byte_of_string "abc"))
    ∧ MD5 (fileinfo sniff0 (list_byte_of_string "hello"))
      = MD5 (fileinfo sniff0 (list_byte_of_string "abc")).
Proof.
  apply (name_is_fingerprint sniff0 store0 (env0 5 10) "img"
           (bytes_reader (list_byte_of_string "hello")) fresh _
           (Create sniff0 store0 (env0 5 10) "img"
              (bytes_reader (list_byte_of_string "hello")) fresh).2
           sniff0 store0 (env0 6 20) ""
           (bytes_reader (list_byte_of_string "abc")) fresh _
           (Create sniff0 store0 (env0 6 20) ""
              (bytes_reader (list_byte_of_string "abc")) fresh).2);
    vm_compute; reflexivity.
Defined.

End Fingerprint.

(** * Lookup and removal *)

Module StoreLaws.
Import GoStrings Filepath Hash Os Go PathFacts NameFacts OsFacts CreateFacts SweepFacts.
Import Filestore WritePipeline.

Lemma string_of_list_app l1 l2 :
  string_of_list_ascii (l1 ++ l2) = string_of_list_ascii l1 +:+ string_of_list_ascii l2.
Proof.
  induction l1 as [|c l1 IH]; simpl; [done|]. by rewrite sapp_cons, IH.
Qed.

(** The three pieces of a name, put together again. *)
Lemma slices_concat name : slice name 0 1 +:+ slice name 1 3 +:+ slice_from name 3 = name.
Proof.
  unfold slice, slice_from. rewrite <- !string_of_list_app.
  change (1 - 0) with 1. change (3 - 1) with 2.
  set (l := list_ascii_of_string name).
  assert (take 1 (drop 0 l) ++ take 2 (drop 1 l) ++ drop 3 l = l) as ->.
  { change (drop 0 l) with l. change 3 with (1 + 2). rewrite <- drop_drop.
    by rewrite take_drop, take_drop. }
  apply string_of_list_ascii_of_string.
Qed.

(** X3 (one name, one place): under one prefix, two names of name characters
    that are long enough for [Open] are looked up at the same path, or at the
    same place of the tree, only when they are the same name. *)
Theorem sharding_injective s prefix n1 n2 :
  name_ok n1 → name_ok n2 → 27 ≤ String.length n1 → 27 ≤ String.length n2 →
  (fullName s prefix n1 = fullName s prefix n2 → n1 = n2)
  ∧ (∀ cwd, resolve cwd (fullName s prefix n1) = resolve cwd (fullName s prefix n2) →
            n1 = n2).
Proof.
  intros Hok1 Hok2 Hl1 Hl2.
  assert (∀ cwd, resolve cwd (fullName s prefix n1) = resolve cwd (fullName s prefix n2) →
                 n1 = n2) as H.
  { intros cwd H.
    destruct (fullName_resolve s prefix n1 cwd Hok1 Hl1) as [_ E1].
    destruct (fullName_resolve s prefix n2 cwd Hok2 Hl2) as [_ E2].
    rewrite E1, E2 in H. unfold blob_at in H. injection H as Hc Hb Ha.
    rewrite <- (slices_concat n1), <- (slices_concat n2). congruence. }
  split; [|done]. intros E. apply (H []). by rewrite E.
Qed.

Lemma sharding_injective_witness :
  content_name (list_byte_of_string "hello") = "NhCmhl1BQCq8Syp2uXGdkRAXxZI".
Proof.
  apply (sharding_injective store0 "img").
  - apply content_name_ok.
  - apply (bool_decide_unpack _). vm_compute. exact I.
  - rewrite length_content_name. lia.
  - simpl. lia.
  - vm_compute. reflexivity.
Defined.

(** X4 (a new blob is installed whole): when the place of the content name
    is vacant, a successful [Create] puts a regular file there that holds
    exactly the bytes read, with the time at which the temporary file was
    written; every other entry is as before, apart from new directories. *)
Theorem Create_installs sniff s env prefix r w fi w' :
  Create sniff s env prefix r w = (Ret fi, w') →
  let pn := blob_at s prefix (Name fi) (cwd w) in
  tree w !! pn = None →
  cwd w' = cwd w
  ∧ tree w' !! pn = Some (File (rd_data r) (t_write env))
  ∧ ∀ q, q ≠ pn →
         tree w' !! q = tree w !! q
         ∨ (tree w !! q = None ∧ tree w' !! q = Some (Dir true true)).
Proof.
  intros Hrun pn Hvac. destruct (Create_cases _ _ _ _ _ _ _ _ Hrun) as (Hcwd & Hcase).
  split; [done|].
  destruct Hcase as [[Hno _]|[(E & _ & t1 & n & _ & Hn & _)|(E & _ & t1 & Hadd & _ & Ht)]].
  - by destruct (Hno fi).
  - injection E as ->. unfold pn in Hvac. cbn [fileinfo Name] in Hvac. congruence.
  - injection E as ->. unfold pn. cbn [fileinfo Name]. rewrite Ht. split.
    + apply lookup_insert_eq.
    + intros q Hq. rewrite lookup_insert_ne by done. apply Hadd.
Qed.

Lemma Create_installs_witness :
  tree (Create sniff0 store0 (env0 5 10) "img"
          (bytes_reader (list_byte_of_string "hello")) fresh).2
    !! blob_at store0 "img" "NhCmhl1BQCq8Syp2uXGdkRAXxZI" []
  = Some (File (list_byte_of_string "hello") 10).
Proof.
  destruct (Create_installs sniff0 store0 (env0 5 10) "img"
              (bytes_reader (list_byte_of_string "hello")) fresh
              (fileinfo sniff0 (list_byte_of_string "hello"))
              (Create sniff0 store0 (env0 5 10) "img"
                 (bytes_reader (list_byte_of_string "hello")) fresh).2)
    as (_ & H & _).
  - vm_compute. reflexivity.
  - vm_compute. reflexivity.
  - exact H.
Defined.

(** What [Open] leaves behind: the working directory as it was; no panic; an
    error with the tree untouched, the error being [ErrNotFound] or an [open]
    path error that carries the caller's name; or an open file on a regular
    file of the tree, nothing changed but the time of that file. *)
Definition read_only (name : string) (now : Z) (w : world)
    (res : outcome file) (w' : world) : Prop :=
  cwd w' = cwd w
  ∧ res ≠ Panic
  ∧ (∀ e, res = Fail e →
          w' = w ∧ (e = ErrNotFound ∨ ∃ err, e = PathError "open" name err))
  ∧ (∀ f, res = Ret f →
          f_name f ≠ ""
          ∧ (∃ m, tree w !! resolve (cwd w) (f_name f) = Some (File (ReadAll f) m))
          ∧ tree w' = <[resolve (cwd w) (f_name f) := File (ReadAll f) now]> (tree w)).

Lemma lookup_path_nonempty w path n : lookup_path w path = Some n → path ≠ "".
Proof. intros H ->. done. Qed.

(** X5 ([Open] only reads): see [read_only]. *)
Theorem Open_read_only s now prefix name w res w' :
  Open s now prefix name w = (res, w') → read_only name now w res w'.
Proof.
  unfold Open. destruct (decide (String.length name < 27)) as [|_].
  { intros [= <- <-]. split; [done|]. split; [done|]. split; [|done].
    intros e [= <-]. split; [done|]. by left. }
  unfold Os.Open, File_Stat.
  destruct (lookup_path w (fullName s prefix name)) as [[d m|r y]|] eqn:Hn;
    cbn [assert_path IsDir f_node].
  - pose proof (lookup_path_nonempty _ _ _ Hn) as Hne.
    rewrite Chtimes_eq by done. rewrite lookup_path_eq in Hn by done. rewrite Hn.
    intros [= <- <-]. split; [done|]. split; [done|]. split; [done|].
    intros f [= <-]. split; [done|]. split; [|done]. simpl. eauto.
  - intros [= <- <-]. split; [done|]. split; [done|]. split; [|done].
    intros e [= <-]. split; [done|]. right. eauto.
  - intros [= <- <-]. split; [done|]. split; [done|]. split; [|done].
    intros e [= <-]. split; [done|]. right. eauto.
Qed.

Lemma Open_read_only_witness :
  tree (Open store0 500 "" "NhCmhl1BQCq8Syp2uXGdkRAXxZI" Collector.one_blob).2
  = <[resolve [] "/data/store/N/hC/mhl1BQCq8Syp2uXGdkRAXxZI"
        := File (list_byte_of_string "hello") 500]> (tree Collector.one_blob).
Proof.
  destruct (Open_read_only store0 500 "" "NhCmhl1BQCq8Syp2uXGdkRAXxZI" Collector.one_blob
              (Ret {| f_name := "/data/store/N/hC/mhl1BQCq8Syp2uXGdkRAXxZI";
                      f_node := File (list_byte_of_string "hello") 10 |})
              (Open store0 500 "" "NhCmhl1BQCq8Syp2uXGdkRAXxZI" Collector.one_blob).2)
    as (_ & _ & _ & H).
  - vm_compute. reflexivity.
  - destruct (H _ eq_refl) as (_ & _ & E). exact E.
Defined.

(** X6 ([httpfs]'s [Open] only reads): the same, the error for a name that
    [absPath] turns down included. *)
Theorem Httpfs_Open_read_only s now name w res w' :
  Httpfs.Open s now name w = (res, w') → read_only name now w res w'.
Proof.
  unfold Httpfs.Open. destruct (Httpfs.absPath s name) as [path|err].
  2: { intros [= <- <-]. split; [done|]. split; [done|]. split; [|done].
       intros e [= <-]. split; [done|]. right. eauto. }
  unfold Os.Open, File_Stat.
  destruct (lookup_path w path) as [[d m|r y]|] eqn:Hn;
    cbn [assert_path IsDir f_node].
  - pose proof (lookup_path_nonempty _ _ _ Hn) as Hne.
    rewrite Chtimes_eq by done. rewrite lookup_path_eq in Hn by done. rewrite Hn.
    intros [= <- <-]. split; [done|]. split; [done|]. split; [done|].
    intros f [= <-]. split; [done|]. split; [|done]. simpl. eauto.
  - intros [= <- <-]. split; [done|]. split; [done|]. split; [|done].
    intros e [= <-]. split; [done|]. right. eauto.
  - intros [= <- <-]. split; [done|]. split; [done|]. split; [|done].
    intros e [= <-]. split; [done|]. right. eauto.
Qed.

Lemma Httpfs_Open_read_only_witness :
  tree (Httpfs.Open {| Httpfs.root := "/data/store" |} 500
          "N/hC/mhl1BQCq8Syp2uXGdkRAXxZI" Collector.one_blob).2
  = <[resolve [] "/data/store/N/hC/mhl1BQCq8Syp2uXGdkRAXxZI"
        := File (list_byte_of_string "hello") 500]> (tree Collector.one_blob).
Proof.
  destruct (Httpfs_Open_read_only {| Httpfs.root := "/data/store" |} 500
              "N/hC/mhl1BQCq8Syp2uXGdkRAXxZI" Collector.one_blob
              (Ret {| f_name := "/data/store/N/hC/mhl1BQCq8Syp2uXGdkRAXxZI";
                      f_node := File (list_byte_of_string "hello") 10 |})
              (Httpfs.Open {| Httpfs.root := "/data/store" |} 500
                 "N/hC/mhl1BQCq8Syp2uXGdkRAXxZI" Collector.one_blob).2)
    as (_ & _ & _ & H).
  - vm_compute. reflexivity.
  - destruct (H _ eq_refl) as (_ & _ & E). exact E.
Defined.

End StoreLaws.

(** * Removal *)

Module RemoveLaws.
Import GoStrings Filepath Hash Os Go PathFacts NameFacts OsFacts CreateFacts SweepFacts.
Import Filestore WritePipeline.

Lemma Os_Remove_error path w err w' :
  Os.Remove path w = (Some err, w') →
  w' = w ∧ ∃ en, err = PathError "remove" path (Errno en).
Proof.
  unfold Os.Remove. destruct (decide (path = "")) as [He|Hne]; [intros [= <- <-]; eauto|].
  destruct (tree w !! _) as [nd|]; [|intros [= <- <-]; eauto].
  destruct (check_parent _ _); [intros [= <- <-]; eauto|].
  destruct (IsDir nd && _); [intros [= <- <-]; eauto|done].
Qed.

Lemma children_none t p : (∀ x, t !! (x :: p) = None) → children t p = [].
Proof.
  intros H. apply elem_of_nil_inv. intros x Hx.
  apply elem_of_children in Hx as [n Hn]. by rewrite H in Hn.
Qed.

(** [os.Remove] of a directory succeeds exactly when the directory is empty
    and its parent can be written. *)
Lemma Remove_dir path w r y :
  path ≠ "" → tree w !! resolve (cwd w) path = Some (Dir r y) →
  let p := resolve (cwd w) path in
  (check_parent (tree w) p = None ∧ (∀ x, tree w !! (x :: p) = None)
   ∧ Os.Remove path w = (None, set_tree w (delete p (tree w))))
  ∨ (¬ (check_parent (tree w) p = None ∧ ∀ x, tree w !! (x :: p) = None)
     ∧ ∃ e, Os.Remove path w = (Some e, w)).
Proof.
  intros Hne Hp p. destruct (Os.Remove path w) as [e w1] eqn:Hrm.
  destruct (Remove_cases _ _ _ _ Hrm) as [[He ->]|(-> & _ & Hc & -> & n & Hn & Hch)].
  - right. split; [|destruct e; [eauto|done]].
    intros [Hc Hch]. unfold Os.Remove in Hrm. rewrite decide_False in Hrm by done.
    fold p in Hrm, Hp. rewrite Hp, Hc in Hrm. cbn [IsDir andb] in Hrm.
    rewrite (children_none _ _ Hch) in Hrm.
    rewrite bool_decide_eq_true_2 in Hrm by done. simpl in Hrm.
    injection Hrm as <-. done.
  - left. subst p. cbv zeta in Hn, Hc, Hch. split; [done|]. split; [|done].
    apply Hch. rewrite Hp in Hn. by injection Hn as <-.
Qed.

(** The pruning loop only removes entries. *)
Lemma prune_shrinks k : ∀ name w,
  cwd (prune k name w) = cwd w
  ∧ ∀ x, tree (prune k name w) !! x = None ∨ tree (prune k name w) !! x = tree w !! x.
Proof.
  induction k as [|k IH]; intros name w; cbn [prune]; [split; [done|by right]|].
  destruct (Os.Remove (Filepath.Dir name) w) as [[e|] w1] eqn:Hrm.
  - apply Os_Remove_error in Hrm as [-> _]. split; [done|by right].
  - destruct (Remove_cases _ _ _ _ Hrm) as [[? _]|(_ & _ & _ & -> & _)]; [done|].
    destruct (IH (Filepath.Dir name) (set_tree w (delete (resolve (cwd w) (Filepath.Dir name)) (tree w))))
      as [Hcwd Hx].
    split; [done|]. intros x. destruct (Hx x) as [E|E]; [by left|].
    rewrite E. simpl.
    destruct (decide (x = resolve (cwd w) (Filepath.Dir name))) as [->|Hne].
    + left. apply lookup_delete_eq.
    + right. by apply lookup_delete_ne.
Qed.

(** The pruning loop reaches no further than its count of levels. *)
Lemma prune_reach k : ∀ q w x,
  Forall (λ n, simple n = true) q →
  tree (prune k (abs q) w) !! x ≠ tree w !! x → length q ≤ length x + k.
Proof.
  induction k as [|k IH]; intros q w x Hq Hx; cbn [prune] in Hx; [done|].
  rewrite Dir_abs_tail in Hx by done.
  assert (Forall (λ n, simple n = true) (tail q)) as Hq'.
  { destruct q; [done|]. by apply Forall_cons in Hq as [_ ?]. }
  destruct (Os.Remove (abs (tail q)) w) as [[e|] w1] eqn:Hrm.
  - apply Os_Remove_error in Hrm as [-> _]. done.
  - destruct (Remove_cases _ _ _ _ Hrm) as [[? _]|(_ & _ & _ & -> & _)]; [done|].
    rewrite resolve_abs in Hx by done.
    assert (length q ≤ S (length (tail q))) as Hlen by (destruct q; simpl; lia).
    destruct (decide (tree (prune k (abs (tail q))
                              (set_tree w (delete (tail q) (tree w)))) !! x
                      = tree (set_tree w (delete (tail q) (tree w))) !! x)) as [E|Hne].
    + rewrite E in Hx. simpl in Hx.
      destruct (decide (x = tail q)) as [->|Hne]; [lia|].
      by rewrite lookup_delete_ne in Hx.
    + apply IH in Hne; [lia|done].
Qed.

(** What [Remove] leaves behind for the place [p] that the name is looked up
    at: the working directory as it was and a well-formed tree; no panic; an
    error with the tree untouched, the error being [ErrNotFound] or a
    [remove] path error that carries the caller's name; on success the entry
    at [p] is gone; and every other entry is as it was, except that a
    directory at most two levels above [p] may be gone too, and then it was
    left without entries. *)
Definition removes (p : list string) (name : string) (w : world)
    (res : outcome unit) (w' : world) : Prop :=
  cwd w' = cwd w ∧ wf_tree (tree w')
  ∧ res ≠ Panic
  ∧ (∀ e, res = Fail e →
          w' = w ∧ (e = ErrNotFound ∨ ∃ err, e = PathError "remove" name err))
  ∧ (res = Ret () → is_Some (tree w !! p) ∧ tree w' !! p = None)
  ∧ (∀ x, x ≠ p →
          tree w' !! x = tree w !! x
          ∨ (x `suffix_of` p ∧ length p ≤ length x + 2
             ∧ (∃ r y, tree w !! x = Some (Dir r y))
             ∧ tree w' !! x = None ∧ ∀ n, tree w' !! (n :: x) = None)).

Lemma wf_gone t x n : wf_tree t → t !! x = None → t !! (n :: x) = None.
Proof.
  intros Hwf Hx. destruct (t !! (n :: x)) as [e|] eqn:E; [|done].
  destruct (Hwf n x) as (_ & r & y & Hd); [eauto|congruence].
Qed.

Lemma removes_failed p name w e :
  wf_tree (tree w) → (e = ErrNotFound ∨ ∃ err, e = PathError "remove" name err) →
  removes p name w (Fail e) w.
Proof.
  intros Hwf He. split; [done|]. split; [done|]. split; [done|].
  split; [by intros ? [= <-]|]. split; [done|]. intros x _. by left.
Qed.

(** Unlinking the entry at an absolute clean path and pruning above it. *)
Lemma unlink_removes p name w :
  wf_tree (tree w) → Forall (λ n, simple n = true) p →
  removes p name w
    match Os.Remove (abs p) w with
    | (Some err, w) => assert_path name err
    | (None, w) => Ret ()
    end
    match Os.Remove (abs p) w with
    | (Some err, w) => w
    | (None, w) => prune 2 (abs p) w
    end.
Proof.
  intros Hwf Hp. destruct (Os.Remove (abs p) w) as [[err|] w1] eqn:Hrm.
  { apply Os_Remove_error in Hrm as [-> [en ->]]. simpl.
    apply removes_failed; [done|]. right. eauto. }
  destruct (Remove_cases _ _ _ _ Hrm) as [[? _]|(_ & _ & Hc & -> & n & Hn & Hch)];
    [done|].
  rewrite resolve_abs in Hc, Hn, Hch |- * by done.
  set (w1 := set_tree w (delete p (tree w))).
  assert (∀ x, tree w !! (x :: p) = None) as Hleaf.
  { destruct n as [d m|r y]; [|by apply Hch]. intros x. by eapply wf_file_leaf. }
  assert (wf_tree (tree w1)) as Hwf1 by by apply wf_delete.
  assert (∀ x, x `suffix_of` tail p → x ≠ p) as Hstrict.
  { intros x Hx ->. apply suffix_length in Hx.
    destruct p; simpl in *; [done|lia]. }
  assert (∀ x, x `suffix_of` tail p → ∃ r y, tree w !! x = Some (Dir r y)) as Hdirs.
  { intros x Hx. apply (wf_above (tree w) p x); [done|eauto|by apply suffix_tail|].
    by apply Hstrict. }
  destruct (prune_safe 0 2 p w1 Hp Hwf1) as (Hcwd & Hwf' & Ht).
  { intros x d m Hx. simpl. rewrite lookup_delete_ne by (symmetry; by apply Hstrict).
    destruct (Hdirs x Hx) as (r & y & ->). done. }
  split; [done|]. split; [done|]. split; [done|]. split; [done|]. split.
  - intros _. split; [eauto|].
    destruct (Ht p) as [E|(_ & E & _)]; [|done]. rewrite E. apply lookup_delete_eq.
  - intros x Hx. destruct (Ht x) as [E|(Hsuf & E & _)].
    + left. rewrite E. simpl. by apply lookup_delete_ne.
    + right. split; [by apply suffix_tail|]. split.
      { apply (prune_reach 2 p w1 x Hp). rewrite E. simpl.
        rewrite lookup_delete_ne by done.
        destruct (Hdirs x Hsuf) as (r & y & ->). done. }
      split; [by apply Hdirs|]. split; [done|].
      intros n0. by apply wf_gone.
Qed.

Lemma fullName_abs s prefix name cwd :
  is_rooted (root s) = true →
  fullName s prefix name = abs (resolve cwd (fullName s prefix name))
  ∧ Forall (λ n, simple n = true) (resolve cwd (fullName s prefix name)).
Proof.
  intros Hr. assert (root s ≠ "") as Hne by (intros E; by rewrite E in Hr).
  unfold fullName. rewrite Join_ne by done.
  set (X := JoinSep _).
  assert (is_rooted X = true) as HX by (unfold X; by rewrite is_rooted_JoinSep).
  rewrite resolve_Clean. split.
  - by apply Clean_rooted.
  - by apply resolve_rooted_simple.
Qed.

(** X7 (what [Remove] removes): for a store with a rooted root on a
    well-formed tree, see [removes]. *)
Theorem Remove_removes s prefix name w res w' :
  wf_tree (tree w) → is_rooted (root s) = true →
  Remove s prefix name w = (res, w') →
  removes (resolve (cwd w) (fullName s prefix name)) name w res w'.
Proof.
  intros Hwf Hr. unfold Remove.
  destruct (decide (String.length name < 27)) as [|_].
  { intros [= <- <-]. apply removes_failed; [done|by left]. }
  destruct (fullName_abs s prefix name (cwd w) Hr) as [E Hp].
  pose proof (unlink_removes _ name w Hwf Hp) as H. rewrite <- E in H.
  destruct (Os.Remove (fullName s prefix name) w) as [[err|] w1];
    intros [= <- <-]; exact H.
Qed.

Lemma Remove_removes_witness :
  tree (Remove store0 "" "NhCmhl1BQCq8Syp2uXGdkRAXxZI" Collector.one_blob).2
    !! resolve [] "/data/store/N/hC/mhl1BQCq8Syp2uXGdkRAXxZI" = None.
Proof.
  destruct (Remove_removes store0 "" "NhCmhl1BQCq8Syp2uXGdkRAXxZI" Collector.one_blob
              (Ret ())
              (Remove store0 "" "NhCmhl1BQCq8Syp2uXGdkRAXxZI" Collector.one_blob).2)
    as (_ & _ & _ & _ & H & _).
  - apply wf_check_spec. vm_compute. reflexivity.
  - reflexivity.
  - vm_compute. reflexivity.
  - destruct (H eq_refl) as [_ E]. exact E.
Defined.


Lemma absPath_abs s name path cwd :
  is_rooted (Httpfs.root s) = true → Httpfs.absPath s name = inl path →
  path = abs (resolve cwd path) ∧ Forall (λ n, simple n = true) (resolve cwd path).
Proof.
  intros Hr. assert (Httpfs.root s ≠ "") as Hne by (intros E; by rewrite E in Hr).
  unfold Httpfs.absPath. set (nm := JoinSep _).
  destruct (negb _); [done|]. intros H.
  pose proof (f_equal (λ x : string + error,
                match x with inl y => y | inr _ => path end) H) as <-.
  cbv beta iota. clear H.
  rewrite Join_ne by done. rewrite Clean_idem.
  set (X := JoinSep _).
  assert (is_rooted X = true) as HX by (unfold X; by rewrite is_rooted_JoinSep).
  rewrite resolve_Clean. split.
  - by apply Clean_rooted.
  - by apply resolve_rooted_simple.
Qed.

(** X8 (what [httpfs]'s [Remove] removes): for a store with a rooted root on
    a well-formed tree, a name that [absPath] turns down is answered with a
    [remove] path error that carries the name and [os.ErrPermission], the
    tree untouched; for any other name see [removes], at the place of the
    path that [absPath] returns. *)
Theorem Httpfs_Remove_removes s name w res w' :
  wf_tree (tree w) → is_rooted (Httpfs.root s) = true →
  Httpfs.Remove s name w = (res, w') →
  match Httpfs.absPath s name with
  | inl path => removes (resolve (cwd w) path) name w res w'
  | inr e => e = ErrPermission ∧ res = Fail (PathError "remove" name e) ∧ w' = w
  end.
Proof.
  intros Hwf Hr. unfold Httpfs.Remove.
  destruct (Httpfs.absPath s name) as [path|e] eqn:Habs.
  - destruct (absPath_abs s name path (cwd w) Hr Habs) as [E Hp].
    pose proof (unlink_removes _ name w Hwf Hp) as H. rewrite <- E in H.
    destruct (Os.Remove path w) as [[err|] w1]; intros [= <- <-]; exact H.
  - intros [= <- <-]. unfold Httpfs.absPath in Habs.
    destruct (negb _); [|done]. by injection Habs as <-.
Qed.

Lemma Httpfs_Remove_removes_witness :
  tree (Httpfs.Remove {| Httpfs.root := "/data/store" |}
          "N/hC/mhl1BQCq8Syp2uXGdkRAXxZI" Collector.one_blob).2
    !! resolve [] "/data/store/N/hC/mhl1BQCq8Syp2uXGdkRAXxZI" = None.
Proof.
  pose proof (Httpfs_Remove_removes {| Httpfs.root := "/data/store" |}
                "N/hC/mhl1BQCq8Syp2uXGdkRAXxZI" Collector.one_blob (Ret ())
                (Httpfs.Remove {| Httpfs.root := "/data/store" |}
                   "N/hC/mhl1BQCq8Syp2uXGdkRAXxZI" Collector.one_blob).2) as H.
  assert (Httpfs.absPath {| Httpfs.root := "/data/store" |} "N/hC/mhl1BQCq8Syp2uXGdkRAXxZI"
          = inl "/data/store/N/hC/mhl1BQCq8Syp2uXGdkRAXxZI") as E
    by (vm_compute; reflexivity).
  rewrite E in H. destruct H as (_ & _ & _ & _ & H & _).
  - apply wf_check_spec. vm_compute. reflexivity.
  - reflexivity.
  - vm_compute. reflexivity.
  - destruct (H eq_refl) as [_ E']. exact E'.
Defined.

(** X9 (the shard directories go when they are empty): after a successful
    [Remove] of the entry [n0] in the directory [up], itself the entry [n1]
    of the directory [uu], the directory [up] is gone exactly when [n0] was
    its only entry and [uu] can be written; and [uu] is gone exactly when
    [up] is gone, [up] was the only entry of [uu], and the directory of [uu]
    can be written. *)
Theorem Remove_prunes s prefix name w w' n0 n1 uu :
  wf_tree (tree w) → is_rooted (root s) = true →
  Remove s prefix name w = (Ret (), w') →
  resolve (cwd w) (fullName s prefix name) = n0 :: n1 :: uu →
  let up := n1 :: uu in
  (tree w' !! up = None
   ↔ (∀ x, x ≠ n0 → tree w !! (x :: up) = None) ∧ check_parent (tree w) up = None)
  ∧ (tree w' !! uu = None
     ↔ tree w' !! up = None ∧ (∀ x, x ≠ n1 → tree w !! (x :: uu) = None)
       ∧ check_parent (tree w) uu = None).
Proof.
  intros Hwf Hr Hrun Hres. unfold Remove in Hrun.
  destruct (decide (String.length name < 27)) as [|_]; [done|].
  destruct (fullName_abs s prefix name (cwd w) Hr) as [E Hp].
  rewrite Hres in E, Hp. rewrite E in Hrun. clear E Hres.
  set (p := n0 :: n1 :: uu) in *. intros up.
  destruct (Os.Remove (abs p) w) as [[err|] w1] eqn:Hrm.
  { apply Os_Remove_error in Hrm as [_ [en ->]]. done. }
  destruct (Remove_cases _ _ _ _ Hrm) as [[? _]|(_ & _ & Hc & -> & n & Hn & Hch)];
    [done|].
  rewrite resolve_abs in Hc, Hn, Hch, Hrun by done.
  injection Hrun as <-.
  assert (Forall (λ n, simple n = true) up ∧ Forall (λ n, simple n = true) uu)
    as [Hup Huu].
  { apply Forall_cons in Hp as [_ Hup]. split; [done|].
    by apply Forall_cons in Hup as [_ ?]. }
  destruct (Hwf n0 up) as (_ & r & y & Hdup); [by eauto|].
  destruct (Hwf n1 uu) as (_ & r' & y' & Hduu); [by eauto|].
  set (w1 := set_tree w (delete p (tree w))).
  assert (up ≠ p ∧ uu ≠ p ∧ uu ≠ up ∧ tail uu ≠ p ∧ tail uu ≠ up) as (N1 & N2 & N3 & N4 & N5).
  { unfold p, up. repeat split; intros H; apply (f_equal length) in H; simpl in H;
      try lia; destruct uu; simpl in H; lia. }
  assert (∀ x, x :: uu ≠ p) as N6.
  { intros x H. apply (f_equal length) in H. unfold p, up in H. simpl in H. lia. }
  cbn [prune]. change (Filepath.Dir (abs p)) with (Filepath.Dir (abs (n0 :: up))).
  rewrite (Dir_abs up Hup) by by apply Forall_cons in Hp as [? _].
  assert (check_parent (tree w1) up = check_parent (tree w) up) as Hcp1.
  { unfold up. apply check_parent_eq. simpl. by rewrite lookup_delete_ne. }
  destruct (Remove_dir (abs up) w1 r y) as [(Hc1 & Hch1 & ->)|(Hno & e & ->)].
  { by apply abs_nonempty. }
  { rewrite resolve_abs by done. simpl. by rewrite lookup_delete_ne. }
  2: { (* the first directory stays *)
    rewrite resolve_abs in Hno by done.
    assert (¬ ((∀ x, x ≠ n0 → tree w !! (x :: up) = None)
               ∧ check_parent (tree w) up = None)) as Hno'.
    { intros [Ha Hb]. apply Hno. split; [congruence|].
      intros x. simpl. destruct (decide (x = n0)) as [->|Hx].
      - apply lookup_delete_eq.
      - rewrite lookup_delete_ne by (unfold p; congruence). by apply Ha. }
    assert (tree w1 !! up = Some (Dir r y)) as Hup1
      by (simpl; by rewrite lookup_delete_ne).
    assert (tree w1 !! uu = Some (Dir r' y')) as Huu1
      by (simpl; by rewrite lookup_delete_ne).
    split; (split; [intros H; congruence|]).
    - intros H. by destruct Hno'.
    - intros [H _]. congruence. }
  rewrite resolve_abs in Hc1, Hch1 |- * by done.
  set (w2 := set_tree w1 (delete up (tree w1))).
  assert ((∀ x, x ≠ n0 → tree w !! (x :: up) = None)
          ∧ check_parent (tree w) up = None) as Hfirst.
  { split; [|congruence]. intros x Hx. specialize (Hch1 x). simpl in Hch1.
    by rewrite lookup_delete_ne in Hch1 by (unfold p; congruence). }
  assert (Filepath.Dir (abs up) = abs uu) as ->.
  { unfold up. apply Dir_abs; [done|]. by apply Forall_cons in Hup as [? _]. }
  assert (tree w2 !! uu = Some (Dir r' y')) as Huu2.
  { simpl. by rewrite !lookup_delete_ne. }
  assert (check_parent (tree w2) uu = check_parent (tree w) uu) as Hcp2.
  { destruct uu as [|n2 u3]; [done|]. apply check_parent_eq. simpl.
    simpl in N4, N5. by rewrite !lookup_delete_ne. }
  assert ((∀ x, tree w2 !! (x :: uu) = None)
          ↔ (∀ x, x ≠ n1 → tree w !! (x :: uu) = None)) as Hall.
  { split.
    - intros H x Hx. specialize (H x). simpl in H.
      by rewrite !lookup_delete_ne in H by (unfold up; congruence).
    - intros H x. simpl. destruct (decide (x = n1)) as [->|Hx].
      + apply lookup_delete_eq.
      + rewrite !lookup_delete_ne by (unfold up; congruence). by apply H. }
  destruct (Remove_dir (abs uu) w2 r' y') as [(Hc2 & Hch2 & ->)|(Hno & e & ->)].
  { by apply abs_nonempty. }
  { by rewrite resolve_abs. }
  - rewrite resolve_abs in Hc2, Hch2 |- * by done. cbn [prune tree set_tree].
    assert (delete uu (tree w2) !! up = None) as G1.
    { rewrite lookup_delete_ne by done. simpl. apply lookup_delete_eq. }
    split; (split; [intros _|intros _]); try done.
    + split; [done|]. split; [by apply Hall|congruence].
    + apply lookup_delete_eq.
  - rewrite resolve_abs in Hno by done.
    assert (tree w2 !! up = None) as G1 by (simpl; apply lookup_delete_eq).
    split; (split; [intros H|intros H]); try done.
    + congruence.
    + destruct H as (_ & Ha & Hb). destruct Hno. split; [congruence|by apply Hall].
Qed.

Lemma Remove_prunes_witness :
  tree (Remove store0 "" "NhCmhl1BQCq8Syp2uXGdkRAXxZI" Collector.one_blob).2
    !! ["N"; "store"; "data"] = None.
Proof.
  destruct (Remove_prunes store0 "" "NhCmhl1BQCq8Syp2uXGdkRAXxZI" Collector.one_blob
              (Remove store0 "" "NhCmhl1BQCq8Syp2uXGdkRAXxZI" Collector.one_blob).2
              "mhl1BQCq8Syp2uXGdkRAXxZI" "hC" ["N"; "store"; "data"])
    as [_ [_ H]].
  - apply wf_check_spec. vm_compute. reflexivity.
  - reflexivity.
  - vm_compute. reflexivity.
  - vm_compute. reflexivity.
  - apply H. split; [vm_compute; reflexivity|]. split; [|vm_compute; reflexivity].
    intros x Hx.
    destruct (tree Collector.one_blob !! [x; "N"; "store"; "data"]) as [n|] eqn:E;
      [|done].
    exfalso. apply Hx.
    assert (x ∈ children (tree Collector.one_blob) ["N"; "store"; "data"]) as Hin
      by (apply elem_of_children; eauto).
    assert (children (tree Collector.one_blob) ["N"; "store"; "data"] = ["hC"]) as Hc
      by (vm_compute; reflexivity).
    rewrite Hc in Hin. by apply list_elem_of_singleton in Hin.
Defined.

(** X10 (a removed name is gone): after a successful [Remove] of a name,
    [Open] of that name reports that there is no such file, and a second
    [Remove] reports the same; neither changes the tree. *)
Theorem Remove_then_Open s now prefix name w w' :
  Remove s prefix name w = (Ret (), w') →
  Open s now prefix name w' = (Fail (PathError "open" name (Errno ENOENT)), w')
  ∧ Remove s prefix name w' = (Fail (PathError "remove" name (Errno ENOENT)), w').
Proof.
  unfold Remove, Open.
  destruct (decide (String.length name < 27)) as [|_]; [done|].
  destruct (Os.Remove (fullName s prefix name) w) as [[err|] w1] eqn:Hrm.
  { apply Os_Remove_error in Hrm as [_ [en ->]]. done. }
  destruct (Remove_cases _ _ _ _ Hrm) as [[? _]|(_ & Hne & _ & -> & _)]; [done|].
  set (p := resolve (cwd w) (fullName s prefix name)).
  destruct (prune_shrinks 2 (fullName s prefix name) (set_tree w (delete p (tree w))))
    as [Hcwd Hx].
  intros H.
  assert (prune 2 (fullName s prefix name) (set_tree w (delete p (tree w))) = w')
    as Hw' by congruence.
  rewrite Hw' in Hcwd, Hx. clear H Hw'.
  assert (tree w' !! resolve (cwd w') (fullName s prefix name) = None) as Hgone.
  { rewrite Hcwd. simpl. fold p. destruct (Hx p) as [E|E]; [done|].
    rewrite E. simpl. apply lookup_delete_eq. }
  split.
  - unfold Os.Open. rewrite lookup_path_eq by done. by rewrite Hgone.
  - unfold Os.Remove. rewrite decide_False by done. by rewrite Hgone.
Qed.

Lemma Remove_then_Open_witness :
  let w' := (Remove store0 "" "NhCmhl1BQCq8Syp2uXGdkRAXxZI" Collector.one_blob).2 in
  Open store0 500 "" "NhCmhl1BQCq8Syp2uXGdkRAXxZI" w'
  = (Fail (PathError "open" "NhCmhl1BQCq8Syp2uXGdkRAXxZI" (Errno ENOENT)), w').
Proof.
  intros w'.
  apply (Remove_then_Open store0 500 "" "NhCmhl1BQCq8Syp2uXGdkRAXxZI"
           Collector.one_blob w').
  vm_compute. reflexivity.
Defined.

End RemoveLaws.

(** * Opening and emptying a store *)

Module StoreLife.
Import GoStrings Filepath Hash Os Go PathFacts NameFacts OsFacts CreateFacts SweepFacts.
Import Filestore WritePipeline.









(** X13 ([Clean] does no harm): for a positive lifetime, on a well-formed
    tree and a store with an absolute clean root, whatever [Clean] returns,
    an error included, the tree after it is well-formed, holds no entry that
    was not there before and none that has changed, still holds every
    regular file whose modification time is later than [now - lifetime], and
    differs from the tree before only at or below the root and at the
    directories above the root. *)
Theorem Clean_never_harms s now fuel lifetime w r w' :
  (0 < lifetime)%Z → wf_tree (tree w) → abs_clean (root s) →
  Clean s now fuel lifetime w = Some (r, w') →
  let pr := resolve (cwd w) (root s) in
  cwd w' = cwd w ∧ wf_tree (tree w')
  ∧ (∀ x n, tree w' !! x = Some n → tree w !! x = Some n)
  ∧ (∀ x d m, tree w !! x = Some (File d m) → (now - lifetime < m)%Z →
              tree w' !! x = Some (File d m))
  ∧ (∀ x, tree w' !! x ≠ tree w !! x →
          (pr `suffix_of` x ∨ x `suffix_of` pr)
          ∧ tree w' !! x = None ∧ ∀ n, tree w' !! (n :: x) = None).
Proof.
  intros Hpos Hwf Habs HC pr.
  destruct (Clean_safe _ _ _ _ _ _ _ Hpos Hwf Habs HC) as (Hcwd & Hwf' & Ht).
  fold pr in Ht. split; [done|]. split; [done|]. split; [|split].
  - intros x n Hx. by eapply thinned_some.
  - intros x d m Hf Hnew. destruct (Ht x) as [E|(_ & _ & n & Hn & Hrem)].
    + by rewrite E.
    + assert (n = File d m) as -> by congruence. simpl in Hrem. lia.
  - intros x Hx. destruct (Ht x) as [E|(Hb & E & _)]; [done|].
    split; [exact Hb|]. split; [done|].
    intros n. destruct (tree w' !! (n :: x)) as [e|] eqn:En; [|done].
    destruct (Hwf' n x) as (_ & r0 & y0 & Hd); [eauto|congruence].
Qed.

Lemma Clean_never_harms_witness :
  tree Collector.blocked !! resolve [] "/data/store/N/hC/mhl1BQCq8Syp2uXGdkRAXxZI"
  = Some (File (list_byte_of_string "hello") 10).
Proof.
  destruct (Clean_never_harms store0 100 9 50 Collector.blocked
              (Some (PathError "open" "/data/store/A" (Errno EACCES))) Collector.blocked)
    as (_ & _ & H & _).
  - lia.
  - apply wf_check_spec. vm_compute. reflexivity.
  - split; vm_compute; reflexivity.
  - vm_compute. reflexivity.
  - apply H. vm_compute. reflexivity.
Defined.

End StoreLife.

(** * Package [httpfs]: names, paths and the collector *)

Module HttpfsLaws.
Import GoStrings Filepath Hash Os Go PathFacts NameFacts OsFacts CreateFacts SweepFacts.
Import HttpfsStore.

Section WalkExt.
Variables f g : string → option node → option error → world → option error * world.
Hypothesis Hfg : ∀ a b c d, f a b c d = g a b c d.

Lemma walk_names_ext rec rec' path :
  (∀ a b c, rec a b c = rec' a b c) →
  ∀ names w, walk_names f rec path names w = walk_names g rec' path names w.
Proof.
  intros Hrec. induction names as [|name rest IH]; intros w; cbn [walk_names]; [done|].
  destruct (Lstat (Join [path; name]) w) as [info|err].
  - rewrite Hrec. destruct (rec' _ _ _) as [[[e|] w1]|]; [|done|done].
    destruct (negb _ || _); [done|apply IH].
  - rewrite Hfg. destruct (g _ _ _ _) as [[e|] w1]; [|apply IH].
    destruct (decide (e = SkipDir)); [apply IH|done].
Qed.

Lemma walk_ext fuel : ∀ path info w, walk f fuel path info w = walk g fuel path info w.
Proof.
  induction fuel as [|fuel IH]; intros path info w; cbn [walk]; [done|].
  destruct (negb (IsDir info)); [by rewrite Hfg|].
  destruct (readDirNames path w) as [names err]. rewrite Hfg.
  destruct (g _ _ _ _) as [err1 w1]. destruct (bool_decide _); [done|].
  by apply walk_names_ext.
Qed.

Lemma Walk_ext fuel root w : Walk f fuel root w = Walk g fuel root w.
Proof.
  unfold Walk. destruct (Lstat root w) as [info|err]; [by rewrite walk_ext|by rewrite Hfg].
Qed.
End WalkExt.

(** X14 (one collector for both packages): on the same root, at the same
    clock reading, with the same lifetime and on the same tree, [Clean] of
    package [httpfs] and [Clean] of package [filestore] return the same error
    and leave the same tree. *)
Theorem Httpfs_Clean_agrees root now fuel lifetime w :
  Httpfs.Clean {| Httpfs.root := root |} now fuel lifetime w
  = Filestore.Clean {| Filestore.root := root |} now fuel lifetime w.
Proof.
  unfold Httpfs.Clean, Filestore.Clean. cbn [Httpfs.root Filestore.root].
  destruct (decide (lifetime ≤ 0)%Z); [done|].
  by rewrite (Walk_ext _ _ (Collector.Httpfs_cleanFn (now - lifetime))).
Qed.

(** ** Text prefixes of paths *)

Lemma HasPrefix_refl s : HasPrefix s s = true.
Proof. induction s as [|c s IH]; simpl; [done|]. by rewrite Ascii.eqb_refl. Qed.

Lemma HasPrefix_app s t : HasPrefix (s +:+ t) s = true.
Proof.
  induction s as [|c s IH]; [by destruct t|].
  rewrite sapp_cons. simpl. by rewrite Ascii.eqb_refl.
Qed.

(** A segment that begins a segment followed by more of the path begins the
    segment. *)
Lemma prefix_segment x m t :
  no_sep x = true → HasPrefix (m +:+ String "/" t) x = true → HasPrefix m x = true.
Proof.
  revert m. induction x as [|c x IH]; intros m Hx H; [by destruct m|].
  cbn [no_sep] in Hx. apply andb_prop in Hx as [Hc Hx].
  destruct m as [|d m].
  - rewrite sapp_nil_l in H. cbn [HasPrefix] in H. apply andb_prop in H as [H _].
    apply Ascii.eqb_eq in H. subst c. done.
  - rewrite sapp_cons in H. cbn [HasPrefix] in H |- *.
    apply andb_prop in H as [-> H]. rewrite andb_true_l. by eapply IH.
Qed.

(** A segment and a separator that begin a path are its first segment and
    separator. *)
Lemma prefix_segments x A m B :
  no_sep x = true → no_sep m = true →
  HasPrefix (m +:+ String "/" B) (x +:+ String "/" A) = true →
  m = x ∧ HasPrefix B A = true.
Proof.
  revert m. induction x as [|c x IH]; intros m Hx Hm H.
  - rewrite sapp_nil_l in H. destruct m as [|d m].
    + rewrite sapp_nil_l in H. cbn [HasPrefix] in H.
      apply andb_prop in H as [_ H]. done.
    + rewrite sapp_cons in H. cbn [HasPrefix] in H. apply andb_prop in H as [H _].
      apply Ascii.eqb_eq in H. subst d. done.
  - cbn [no_sep] in Hx. apply andb_prop in Hx as [Hc Hx]. rewrite sapp_cons in H.
    destruct m as [|d m].
    + rewrite sapp_nil_l in H. cbn [HasPrefix] in H. apply andb_prop in H as [H _].
      apply Ascii.eqb_eq in H. subst c. done.
    + rewrite sapp_cons in H. cbn [HasPrefix] in H. apply andb_prop in H as [Hd H].
      apply Ascii.eqb_eq in Hd. subst d.
      cbn [no_sep] in Hm. apply andb_prop in Hm as [_ Hm].
      destruct (IH m Hx Hm H) as [-> HB]. done.
Qed.

(** A segment alone does not begin with a segment and a separator. *)
Lemma no_prefix_segment x A m :
  no_sep m = true → HasPrefix m (x +:+ String "/" A) = false.
Proof.
  revert m. induction x as [|c x IH]; intros m Hm.
  - rewrite sapp_nil_l. destruct m as [|d m]; [done|]. cbn [no_sep HasPrefix] in Hm |- *.
    apply andb_prop in Hm as [Hd _]. unfold is_sep in Hd.
    by apply negb_true_iff in Hd as ->.
  - rewrite sapp_cons. destruct m as [|d m]; [done|]. cbn [no_sep HasPrefix] in Hm |- *.
    apply andb_prop in Hm as [_ Hm]. rewrite (IH m Hm). apply andb_false_r.
Qed.

(** When the joined segments [a] begin the joined segments [b], the
    segments of [a] but the last are the first segments of [b], and the last
    one begins the segment of [b] at its place. *)
Lemma HasPrefix_JoinSep : ∀ a b,
  Forall (λ x, simple x = true) a → Forall (λ x, no_sep x = true) b →
  HasPrefix (JoinSep b) (JoinSep a) = true →
  a = [] ∨ ∃ a0 x m c, a = a0 ++ [x] ∧ b = a0 ++ m :: c ∧ HasPrefix m x = true.
Proof.
  induction a as [|x [|y a'] IH]; intros b Ha Hb H; [by left|right..].
  - apply Forall_cons in Ha as [Hx _].
    destruct (simple_ne _ Hx) as (Hne & _). apply simple_no_sep in Hx.
    destruct b as [|m [|n c]].
    + simpl in H. by destruct x.
    + exists [], x, m, []. by simpl in *.
    + exists [], x, m, (n :: c). split; [done|]. split; [done|].
      rewrite JoinSep_cons in H. by eapply prefix_segment.
  - apply Forall_cons in Ha as [Hx Ha]. apply simple_no_sep in Hx.
    rewrite JoinSep_cons in H.
    destruct b as [|m [|n c]].
    + simpl in H. destruct x; simpl in H; done.
    + apply Forall_cons in Hb as [Hm _]. simpl in H.
      by rewrite no_prefix_segment in H.
    + apply Forall_cons in Hb as [Hm Hb]. rewrite JoinSep_cons in H.
      destruct (prefix_segments _ _ _ _ Hx Hm H) as [-> H'].
      destruct (IH (n :: c) Ha Hb H') as [|(a0 & x' & m' & c' & Ea & Eb & Hp)]; [done|].
      exists (x :: a0), x', m', c'. rewrite Ea, Eb. done.
Qed.

Lemma abs_text p : abs p = String "/" (JoinSep (rev p)).
Proof. reflexivity. Qed.

(** The text of one absolute clean path begins that of another only when
    the first is the second's ancestor or itself, or when its last name
    begins the name that the second has at that level. *)
Lemma HasPrefix_abs p pr :
  Forall (λ x, simple x = true) p → Forall (λ x, simple x = true) pr →
  HasPrefix (abs p) (abs pr) = true →
  pr `suffix_of` p
  ∨ ∃ x m up, pr = x :: up ∧ m :: up `suffix_of` p ∧ m ≠ x ∧ HasPrefix m x = true.
Proof.
  intros Hp Hpr H. rewrite !abs_text in H. simpl in H.
  apply HasPrefix_JoinSep in H.
  - destruct H as [E|(a0 & x & m & c & Ea & Eb & Hm)].
    + left. apply (f_equal (@rev string)) in E. rewrite rev_involutive in E.
      rewrite E. apply suffix_nil.
    + apply (f_equal (@rev string)) in Ea, Eb. rewrite rev_involutive in Ea, Eb.
      rewrite rev_app_distr in Ea, Eb. simpl in Ea, Eb.
      rewrite <- app_assoc in Eb. simpl in Eb.
      destruct (decide (m = x)) as [->|Hmx].
      * left. rewrite Ea, Eb. by eexists.
      * right. exists x, m, (rev a0). split; [done|]. split; [|done].
        rewrite Eb. by eexists.
  - by apply Forall_rev.
  - apply Forall_simple_no_sep. by apply Forall_rev.
Qed.

(** X15 (where [absPath] can lead): for a store with an absolute clean
    root, a path that [absPath] returns is absolute and clean, and the place
    it names lies at or below the root, or at or below an entry beside the
    root whose name begins with the root's name; it is never a directory
    above the root, nor anywhere else. *)
Theorem absPath_result s name path cwd :
  abs_clean (Httpfs.root s) → Httpfs.absPath s name = inl path →
  let pr := resolve cwd (Httpfs.root s) in
  let p := resolve cwd path in
  path = abs p ∧ length pr ≤ length p
  ∧ (inside pr p
     ∨ ∃ x m up, pr = x :: up ∧ inside (m :: up) p ∧ m ≠ x ∧ HasPrefix m x = true).
Proof.
  intros [Hr Hclean] Habs pr p.
  assert (Httpfs.root s ≠ "") as Hne by (intros E; by rewrite E in Hr).
  unfold Httpfs.absPath in Habs. set (X := JoinSep _) in Habs.
  destruct (HasPrefix (Filepath.Clean (Join [Httpfs.root s; X])) (Httpfs.root s))
    eqn:Hpre; [|done].
  cbn [negb] in Habs.
  assert (Filepath.Clean (Join [Httpfs.root s; X]) = path) as E by congruence.
  clear Habs. rewrite E in Hpre.
  assert (path = abs p ∧ Forall (λ n, simple n = true) p) as [Ep Hp].
  { unfold p. rewrite <- E. rewrite Join_ne by done. rewrite Clean_idem.
    set (Y := JoinSep _).
    assert (is_rooted Y = true) as HY by (unfold Y; by rewrite is_rooted_JoinSep).
    rewrite resolve_Clean. split; [by apply Clean_rooted|by apply resolve_rooted_simple]. }
  assert (Httpfs.root s = abs pr ∧ Forall (λ n, simple n = true) pr) as [Er Hpr].
  { split; [|by apply resolve_rooted_simple].
    rewrite <- Hclean at 1. by apply Clean_rooted. }
  split; [done|].
  rewrite Ep, Er in Hpre. apply HasPrefix_abs in Hpre; [|done..].
  split.
  - destruct Hpre as [H|(x & m & up & -> & H & _)]; apply suffix_length in H;
      simpl in *; lia.
  - exact Hpre.
Qed.

Lemma absPath_result_witness :
  inside (resolve [] "/data/store") (resolve [] "/data/store/N/hC/mhl1BQCq8Syp2uXGdkRAXxZI")
  ∨ ∃ x m up, resolve [] "/data/store" = x :: up
      ∧ inside (m :: up) (resolve [] "/data/store/N/hC/mhl1BQCq8Syp2uXGdkRAXxZI")
      ∧ m ≠ x ∧ HasPrefix m x = true.
Proof.
  destruct (absPath_result {| Httpfs.root := "/data/store" |}
              "N/hC/mhl1BQCq8Syp2uXGdkRAXxZI"
              "/data/store/N/hC/mhl1BQCq8Syp2uXGdkRAXxZI" []) as (_ & _ & H).
  - split; vm_compute; reflexivity.
  - vm_compute. reflexivity.
  - exact H.
Defined.


(** ** The name that [absPath] reads *)

Lemma Split_cut s :
  Split s = match cut s with Some (a, b) => a :: Split b | None => [s] end.
Proof.
  induction s as [|c s IH]; [done|]. cbn [Split cut].
  destruct (is_sep c); [done|]. rewrite IH.
  destruct (cut s) as [[a b]|]; done.
Qed.

Lemma SplitN_Split n : ∀ s,
  take n (SplitN s (S n)) = take n (Split s)
  ∧ (length (SplitN s (S n)) ≤ n → SplitN s (S n) = Split s).
Proof.
  induction n as [|n IH]; intros s.
  - split; [done|]. simpl. lia.
  - change (SplitN s (S (S n)))
      with (match cut s with Some (a, b) => a :: SplitN b (S n) | None => [s] end).
    rewrite (Split_cut s). destruct (cut s) as [[a b]|]; [|done].
    destruct (IH b) as [Ht Hl]. split.
    + cbn [take]. by rewrite Ht.
    + cbn [length]. intros H. rewrite Hl; [done|lia].
Qed.

(** The elements that [absPath] keeps are the first three of the name. *)
Lemma parts_three s :
  (if decide (3 < length (SplitN s 4)) then take 3 (SplitN s 4) else SplitN s 4)
  = take 3 (Split s).
Proof.
  destruct (SplitN_Split 3 s) as [Ht Hl].
  destruct (decide (3 < length (SplitN s 4))) as [|Hle]; [done|].
  rewrite Hl by lia. rewrite take_ge; [done|]. rewrite <- Hl; lia.
Qed.

Lemma HasPrefix_sep s : HasPrefix s "/" = is_rooted s.
Proof.
  destruct s as [|c s]; [done|]. cbn [HasPrefix is_rooted].
  assert (HasPrefix s "" = true) as -> by by destruct s.
  apply andb_true_r.
Qed.

Lemma is_rooted_first_segments s n :
  is_rooted (JoinSep (take (S (S n)) (Split s))) = is_rooted s.
Proof.
  destruct s as [|c s]; [done|]. cbn [Split is_rooted].
  pose proof (Split_nonempty s) as Hne. destruct (Split s) as [|h t]; [done|].
  destruct (is_sep c) eqn:Hc.
  - cbn [take]. rewrite JoinSep_cons. by rewrite sapp_nil_l.
  - cbn [take]. destruct (take (S n) t) as [|y l]; cbn [JoinSep]; [by simpl|].
    rewrite sapp_cons. by simpl.
Qed.

Lemma absPath_eq s name :
  Httpfs.absPath s name
  = let name := if is_rooted name then slice_from name 1 else name in
    let path := Filepath.Clean (Join [Httpfs.root s; JoinSep (take 3 (Split name))]) in
    if HasPrefix path (Httpfs.root s) then inl path else inr ErrPermission.
Proof.
  unfold Httpfs.absPath, FromSlash, Httpfs.filepathSeparator, TrimPrefix.
  rewrite !HasPrefix_sep. cbv zeta. change (String.length "/") with 1.
  assert ((if is_rooted name then if is_rooted name then slice_from name 1 else name
           else name) = if is_rooted name then slice_from name 1 else name) as ->
    by by destruct (is_rooted name).
  rewrite parts_three. by destruct (HasPrefix _ (Httpfs.root s)).
Qed.

(** X16 ([absPath] reads three elements): for a name that does not begin
    with a separator, [absPath] answers as it does for the first three
    elements of the name alone, whatever comes behind them; and for that name
    with one separator put in front it answers the same. *)
Theorem absPath_three s name :
  is_rooted name = false →
  Httpfs.absPath s name = Httpfs.absPath s (JoinSep (take 3 (Split name)))
  ∧ Httpfs.absPath s ("/" +:+ name) = Httpfs.absPath s name.
Proof.
  intros Hrel. rewrite !absPath_eq. cbv zeta.
  rewrite is_rooted_first_segments, Hrel. split.
  - rewrite Split_JoinSep.
    + by rewrite take_take.
    + pose proof (Split_nonempty name). by destruct (Split name).
    + apply Forall_take, Split_no_sep.
  - change (is_rooted ("/" +:+ name)) with true. cbv iota.
    assert (slice_from ("/" +:+ name) 1 = name) as ->; [|done].
    unfold slice_from. rewrite sapp_cons, sapp_nil_l. cbn [list_ascii_of_string drop].
    apply string_of_list_ascii_of_string.
Qed.

Lemma absPath_three_witness :
  Httpfs.absPath {| Httpfs.root := "/data/store" |} "N/hC/mhl1/and/more"
  = Httpfs.absPath {| Httpfs.root := "/data/store" |} "N/hC/mhl1".
Proof.
  destruct (absPath_three {| Httpfs.root := "/data/store" |} "N/hC/mhl1/and/more")
    as [H _]; [reflexivity|].
  exact H.
Defined.

Lemma HasPrefix_app_l s t p : HasPrefix s p = true → HasPrefix (s +:+ t) p = true.
Proof.
  revert s. induction p as [|c p IH]; intros s H; [by destruct (s +:+ t)|].
  destruct s as [|d s]; [done|]. rewrite sapp_cons. cbn [HasPrefix] in H |- *.
  apply andb_prop in H as [-> H]. rewrite andb_true_l. by apply IH.
Qed.

Lemma abs_cons x q : ∃ t, abs (x :: q) = abs q +:+ t.
Proof.
  rewrite !abs_text. cbn [rev]. destruct (rev q) as [|y l] eqn:E.
  - exists x. done.
  - exists (String "/" x). rewrite JoinSep_app by done. by rewrite sapp_cons.
Qed.

Lemma HasPrefix_abs_below k pr : HasPrefix (abs (k ++ pr)) (abs pr) = true.
Proof.
  induction k as [|x k IH]; [apply HasPrefix_refl|].
  cbn [app]. destruct (abs_cons x (k ++ pr)) as [t ->]. by apply HasPrefix_app_l.
Qed.

(** X17 (plain names lead below the root): for a store with an absolute
    clean root, a name of one, two or three plain elements joined by the
    separator is accepted by [absPath], and the path returned names the place
    of those elements below the root. *)
Theorem absPath_accepts s l cwd :
  abs_clean (Httpfs.root s) → l ≠ [] → length l ≤ 3 →
  Forall (λ x, simple x = true) l →
  Httpfs.absPath s (JoinSep l) = inl (abs (rev l ++ resolve cwd (Httpfs.root s)))
  ∧ resolve cwd (abs (rev l ++ resolve cwd (Httpfs.root s)))
    = rev l ++ resolve cwd (Httpfs.root s).
Proof.
  intros [Hr Hclean] Hl Hlen Hs.
  assert (Httpfs.root s ≠ "") as Hne by (intros E; by rewrite E in Hr).
  set (pr := resolve cwd (Httpfs.root s)).
  assert (Httpfs.root s = abs pr ∧ Forall (λ n, simple n = true) pr) as [Er Hpr].
  { split; [|by apply resolve_rooted_simple].
    rewrite <- Hclean at 1. by apply Clean_rooted. }
  assert (Forall (λ n, simple n = true) (rev l ++ pr)) as Hall.
  { apply Forall_app. split; [by apply Forall_rev|done]. }
  split; [|by apply resolve_abs].
  rewrite absPath_eq. cbv zeta.
  assert (is_rooted (JoinSep l) = false) as ->.
  { destruct l as [|x l]; [done|]. apply Forall_cons in Hs as [Hx _].
    rewrite is_rooted_JoinSep by by destruct (simple_ne _ Hx).
    by apply simple_not_rooted. }
  rewrite Split_JoinSep by (try done; by apply Forall_simple_no_sep).
  rewrite take_ge by done.
  assert (Join [Httpfs.root s; JoinSep l] = Join (Httpfs.root s :: l)) as ->.
  { rewrite !Join_ne by done. f_equal. destruct l as [|x l]; [done|].
    by rewrite !JoinSep_cons. }
  assert (Filepath.Clean (Join (Httpfs.root s :: l)) = abs (rev l ++ pr)) as ->.
  { rewrite Join_ne by done. rewrite Clean_idem.
    rewrite (Clean_rooted cwd) by (by rewrite is_rooted_JoinSep).
    f_equal. rewrite <- resolve_Clean, <- Join_ne by done. by apply resolve_Join. }
  rewrite Er at 1. by rewrite HasPrefix_abs_below.
Qed.

Lemma absPath_accepts_witness :
  Httpfs.absPath {| Httpfs.root := "/data/store" |} "N/hC/mhl1BQCq8Syp2uXGdkRAXxZI"
  = inl (abs ["mhl1BQCq8Syp2uXGdkRAXxZI"; "hC"; "N"; "store"; "data"]).
Proof.
  destruct (absPath_accepts {| Httpfs.root := "/data/store" |}
              ["N"; "hC"; "mhl1BQCq8Syp2uXGdkRAXxZI"] []) as [H _].
  - split; vm_compute; reflexivity.
  - done.
  - simpl. lia.
  - repeat constructor.
  - exact H.
Defined.

(** X18 ([httpfs.Open] makes an absolute store): started in a working
    directory of plain names, a successful [httpfs.Open] returns a store whose
    root is absolute and clean and names the place that the given root names;
    that place is a directory afterwards, and the tree is the tree before with
    new directories at most. *)
Theorem Httpfs_OpenStore_spec root w s w' :
  Forall (λ n, simple n = true) (cwd w) →
  OpenStore root w = (Ret s, w') →
  abs_clean (Httpfs.root s)
  ∧ resolve (cwd w) (Path s) = resolve (cwd w) root
  ∧ cwd w' = cwd w ∧ dirs_added (tree w) (tree w')
  ∧ ∃ r y, tree w' !! resolve (cwd w) root = Some (Dir r y).
Proof.
  intros Hcwd. unfold OpenStore, Path.
  destruct (MkdirAll (Abs root w) w) as [[e|] w1] eqn:Hmk; [done|].
  intros [= <- <-]. cbn [Httpfs.root].
  destruct (MkdirAll_spec _ _ _ _ Hmk) as (Hc & Hadd & _ & Hdir).
  destruct Hdir as (_ & r & y & Hd); [done|].
  assert (abs_clean (Abs root w) ∧ resolve (cwd w) (Abs root w) = resolve (cwd w) root)
    as [Habs Hres].
  { unfold Abs, Getwd, abs_clean. change (render true (cwd w, 0)) with (abs (cwd w)).
    destruct (is_rooted root) eqn:Hr.
    - rewrite is_rooted_Clean, Clean_idem, resolve_Clean. done.
    - pose proof (abs_nonempty (cwd w)) as Hne.
      rewrite Join_ne by done. rewrite is_rooted_Clean, Clean_idem, resolve_Clean.
      rewrite is_rooted_JoinSep by done. rewrite is_rooted_abs by done.
      split; [done|]. rewrite JoinSep_cons. cbn [JoinSep].
      rewrite resolve_sep by done. rewrite resolve_abs by done.
      unfold resolve. by rewrite Hr. }
  split; [done|]. split; [done|]. split; [done|]. split; [done|].
  rewrite <- Hres. eauto.
Qed.

Lemma Httpfs_OpenStore_spec_witness :
  abs_clean (Abs "store" {| cwd := ["data"]; tree := tree_of [("/", Dir true true); ("/data", Dir true true)] |}).
Proof.
  destruct (Httpfs_OpenStore_spec "store"
              {| cwd := ["data"];
                 tree := tree_of [("/", Dir true true); ("/data", Dir true true)] |}
              {| Httpfs.root := "/data/store" |}
              (OpenStore "store"
                 {| cwd := ["data"];
                    tree := tree_of [("/", Dir true true); ("/data", Dir true true)] |}).2)
    as [H _].
  - repeat constructor.
  - vm_compute. reflexivity.
  - exact H.
Defined.

End HttpfsLaws.

(** * How far the handler [Get] can reach *)

Module GetLookup.
Import GoStrings Filepath Hash Os Go PathFacts NameFacts OsFacts CreateFacts SweepFacts.
Import Filestore Handlers.

Lemma cut_no_sep s a b : cut s = Some (a, b) → no_sep a = true.
Proof.
  revert a b. induction s as [|c s IH]; intros a b; cbn [cut]; [done|].
  destruct (is_sep c) eqn:Hc; [by intros [= <- <-]|].
  destruct (cut s) as [[a' b']|]; [|done]. intros [= <- <-].
  cbn [no_sep]. rewrite Hc. simpl. by eapply IH.
Qed.

Lemma cut_None s : cut s = None → no_sep s = true.
Proof.
  induction s as [|c s IH]; cbn [cut]; [done|].
  destruct (is_sep c) eqn:Hc; [done|].
  destruct (cut s) as [[a' b']|]; [done|]. intros _.
  cbn [no_sep]. rewrite Hc. simpl. by apply IH.
Qed.

Lemma Get_name_no_sep filename : no_sep (Get_name filename) = true.
Proof.
  unfold Get_name, FromSlash. destruct (cut filename) as [[a b]|] eqn:E.
  - by eapply cut_no_sep.
  - by apply cut_None.
Qed.

Lemma walk_step_plain p seg :
  seg ≠ "" → seg ≠ "." → seg ≠ ".." → walk_step p seg = seg :: p.
Proof.
  intros H0 H1 H2. unfold walk_step.
  rewrite decide_False by (intros [?|?]; done). by rewrite decide_False.
Qed.

(** X19 (how far [Get] can reach): the name that [Get] hands to [Open] holds
    no separator.  For a store with a root and such a name of at least
    twenty-seven characters, [Open] under the empty prefix looks the name up
    strictly below the root, unless the name begins with three dots: then it
    looks up the rest of the name in the directory above the root. *)
Theorem Get_lookup s filename cwd :
  root s ≠ "" → 27 ≤ String.length (Get_name filename) →
  let name := Get_name filename in
  let pr := resolve cwd (root s) in
  let p := resolve cwd (fullName s "" name) in
  no_sep name = true
  ∧ (HasPrefix name "..." = false → ∃ k, k ≠ [] ∧ p = k ++ pr)
  ∧ (HasPrefix name "..." = true → p = slice_from name 3 :: tail pr).
Proof.
  intros Hroot Hlen name pr p.
  pose proof (Get_name_no_sep filename) as Hns. fold name in Hns, Hlen.
  split; [done|]. clearbody name.
  destruct name as [|c0 [|c1 [|c2 rest]]]; simpl in Hlen; try lia.
  cbn [no_sep] in Hns.
  apply andb_prop in Hns as [H0 Hns]. apply andb_prop in Hns as [H1 Hns].
  apply andb_prop in Hns as [H2 Hns].
  assert (slice (String c0 (String c1 (String c2 rest))) 0 1 = String c0 "") as Ea
    by reflexivity.
  assert (slice (String c0 (String c1 (String c2 rest))) 1 3 = String c1 (String c2 ""))
    as Eb by reflexivity.
  assert (slice_from (String c0 (String c1 (String c2 rest))) 3 = rest) as Ec.
  { unfold slice_from. cbn [list_ascii_of_string drop].
    apply string_of_list_ascii_of_string. }
  assert (p = walk_step (walk_step (walk_step pr (String c0 "")) (String c1 (String c2 "")))
                rest) as Ep.
  { unfold p, fullName. rewrite Ea, Eb, Ec. rewrite Join_ne by done.
    rewrite resolve_Clean.
    change (JoinSep [root s; ""; String c0 ""; String c1 (String c2 ""); rest])
      with (root s +:+ String "/" (JoinSep [""; String c0 ""; String c1 (String c2 ""); rest])).
    rewrite resolve_sep by done.
    rewrite Split_JoinSep; [done|done|].
    repeat constructor; cbn [no_sep]; rewrite ?H0, ?H1, ?H2; done. }
  rewrite Ec, Ep. clear Ea Eb Ec Ep p.
  assert (rest ≠ "" ∧ rest ≠ "." ∧ rest ≠ "..") as (R0 & R1 & R2).
  { repeat split; intros ->; simpl in Hlen; lia. }
  assert (∀ q, walk_step q (String c1 (String c2 ""))
               = if decide (c1 = "."%char ∧ c2 = "."%char) then tail q
                 else String c1 (String c2 "") :: q) as Hb.
  { intros q. unfold walk_step. rewrite decide_False by (intros [?|?]; done).
    destruct (decide (c1 = "."%char ∧ c2 = "."%char)) as [[-> ->]|Hn].
    - by rewrite decide_True.
    - rewrite decide_False; [done|]. intros [= -> ->]. by apply Hn. }
  assert (walk_step pr (String c0 "")
          = if decide (c0 = "."%char) then pr else String c0 "" :: pr) as Ha.
  { unfold walk_step. destruct (decide (c0 = "."%char)) as [->|Hn].
    - rewrite decide_True; [done|by right].
    - rewrite decide_False by (intros [?|[= ?]]; done). by rewrite decide_False. }
  rewrite Ha, Hb, walk_step_plain by done.
  cbn [HasPrefix]. assert (HasPrefix rest "" = true) as -> by by destruct rest.
  assert ((c0 =? ".")%char && ((c1 =? ".")%char && ((c2 =? ".")%char && true)) = true
          ↔ c0 = "."%char ∧ c1 = "."%char ∧ c2 = "."%char) as Hdots.
  { rewrite !andb_true_iff, !Ascii.eqb_eq. tauto. }
  destruct (decide (c0 = "."%char)) as [E0|N0];
    destruct (decide (c1 = "."%char ∧ c2 = "."%char)) as [E12|N12]; cbn [tail].
  - split; [|reflexivity]. intros H. exfalso.
    destruct E12 as [E1 E2]. rewrite (proj2 Hdots) in H by tauto. discriminate.
  - split.
    + intros _. exists [rest; String c1 (String c2 "")]. split; [discriminate|reflexivity].
    + intros H. apply Hdots in H. tauto.
  - split.
    + intros _. exists [rest]. split; [discriminate|reflexivity].
    + intros H. apply Hdots in H. tauto.
  - split.
    + intros _. exists [rest; String c1 (String c2 ""); String c0 ""].
      split; [discriminate|reflexivity].
    + intros H. apply Hdots in H. tauto.
Qed.

Lemma Get_lookup_witness :
  ∃ k, k ≠ []
       ∧ resolve [] (fullName WritePipeline.store0 ""
                       (Get_name "NhCmhl1BQCq8Syp2uXGdkRAXxZI/picture.png"))
         = k ++ resolve [] "/data/store".
Proof.
  destruct (Get_lookup WritePipeline.store0 "NhCmhl1BQCq8Syp2uXGdkRAXxZI/picture.png" [])
    as (_ & H & _).
  - done.
  - vm_compute. lia.
  - apply H. reflexivity.
Defined.

End GetLookup.
